(** * The tree-walking interpreter of parser.y, as embedded in parser.tab.c

    The user code of the grammar file builds a tree of [Node]s while the
    program text is recognised and, once the start symbol is reduced, walks
    that tree: [execute_list] / [execute_stmt] perform the statements,
    [eval_expr] computes expressions and [printTreeVertical] renders every
    executed statement into tree.txt.

    The embedding is shallow.  The three output files and the globals [sym]
    and [yylineno] are the fields of an explicit [State] that every function
    threads through; behaviour that ISO C leaves undefined and that the code
    can reach (dereferencing a null pointer and storing outside [sym], on an
    arbitrary tree; dividing [INT_MIN] by -1, on the trees of the grammar
    too) is an explicit outcome: [Trap] of the evaluator, [Undefined] of
    the executors, [Fault] of the parser.

    The parser that builds the tree is embedded too: the tables of the
    automaton as lists, the variables of [yyparse] as a record, and one
    function for each label of its loop.  The scanner is not part of the
    file; a parse is run on the list of tokens [yylex] returns. *)

From Stdlib Require Import ZArith String Ascii List Lia Bool.
From Stdlib Require Import DecimalString.
From stdpp Require Import base list.
From Equations Require Import Equations.
Import ListNotations.

Local Open Scope string_scope.
Local Open Scope Z_scope.

(** ** Node kinds and nodes *)

(** The anonymous [enum] of node kinds. *)
Inductive Kind : Set :=
| N_UNKNOWN
| N_INT
| N_VAR
| N_OP
| N_DECL
| N_ASSIGN
| N_PRINT
| N_IF
| N_BRANCHES
| N_STMTLIST.

Definition Kind_eqb (a b : Kind) : bool :=
  match a, b with
  | N_UNKNOWN, N_UNKNOWN | N_INT, N_INT | N_VAR, N_VAR | N_OP, N_OP
  | N_DECL, N_DECL | N_ASSIGN, N_ASSIGN | N_PRINT, N_PRINT | N_IF, N_IF
  | N_BRANCHES, N_BRANCHES | N_STMTLIST, N_STMTLIST => true
  | _, _ => false
  end.

Definition Kind_eq_dec (a b : Kind) : {a = b} + {a <> b}.
Proof. decide equality. Defined.

(** A value of type [Node] stands for a C [Node *]: either the null pointer
    or the address of a [struct Node] with its six fields.  Nodes are only
    ever allocated by [new_node_kind] and never shared or updated after the
    constructor returns, so the pointer graph is a finite tree. *)
Inductive Node : Type :=
| NULL
| mkNode (label : string) (left_ right_ : Node) (kind : Kind)
         (int_value var_id : Z).

(** ** Constructors *)

Definition new_node_kind (label : option string) (kind : Kind)
    (left right : Node) : Node :=
  mkNode (match label with Some l => l | None => "" end)
         left right kind 0 (-1).

(** [printf]'s [%d]. *)
Definition fmt_d (z : Z) : string := NilZero.string_of_int (Z.to_int z).

Definition new_int_node (v : Z) : Node :=
  match new_node_kind None N_INT NULL NULL with
  | NULL => NULL
  | mkNode _ l r k _ id => mkNode ("INTEGER(" ++ fmt_d v ++ ")") l r k v id
  end.

Definition new_var_node (id : Z) : Node :=
  match new_node_kind None N_VAR NULL NULL with
  | NULL => NULL
  | mkNode _ l r k iv _ => mkNode ("VAR(id=" ++ fmt_d id ++ ")") l r k iv id
  end.

Definition new_op_node (op : string) (l r : Node) : Node :=
  new_node_kind (Some op) N_OP l r.

Definition new_decl_node (varNode exprNode : Node) : Node :=
  new_node_kind (Some "dec") N_DECL varNode exprNode.

Definition new_assign_node (varNode exprNode : Node) : Node :=
  new_node_kind (Some "assign") N_ASSIGN varNode exprNode.

Definition new_print_node (exprNode : Node) : Node :=
  new_node_kind (Some "print") N_PRINT exprNode NULL.

Definition new_if_node (cond thenList elseList : Node) : Node :=
  let branches := new_node_kind (Some "branches") N_BRANCHES thenList elseList in
  new_node_kind (Some "if") N_IF cond branches.

Definition new_stmtlist_node (prevList stmt : Node) : Node :=
  new_node_kind (Some "stmtlist") N_STMTLIST prevList stmt.

(** ** The run-time state *)

Record State : Type := mkState {
  sym : list Z;        (* int sym[256] *)
  yylineno : Z;        (* the scanner's line counter *)
  yyout : string;      (* out.txt *)
  yytree : string;     (* tree.txt *)
  yyError : string     (* outError.txt *)
}.

Definition nl : string := String (ascii_of_nat 10) EmptyString.

Definition fprintf_yyout (s : string) (st : State) : State :=
  mkState (sym st) (yylineno st) (yyout st ++ s) (yytree st) (yyError st).

Definition fprintf_yytree (s : string) (st : State) : State :=
  mkState (sym st) (yylineno st) (yyout st) (yytree st ++ s) (yyError st).

Definition set_sym (id : Z) (val : Z) (st : State) : State :=
  mkState (<[Z.to_nat id := val]> (sym st)) (yylineno st)
          (yyout st) (yytree st) (yyError st).

(** [yyerror]: one line on the diagnostics stream. *)
Definition yyerror (s : string) (st : State) : State :=
  mkState (sym st) (yylineno st) (yyout st) (yytree st)
          (yyError st ++ "Error: " ++ s ++ " at line " ++ fmt_d (yylineno st) ++ nl).

(** The state [main] starts [yyparse] in: a zeroed [sym], three empty
    files. *)
Definition initial_state (line : Z) : State :=
  mkState (repeat 0 256) line "" "" "".

(** ** The tree renderer *)

Fixpoint spaces (n : nat) : string :=
  match n with
  | O => ""
  | S n' => " " ++ spaces n'
  end.

(** The text [printTreeVertical(root, space)] writes to [yytree]. *)
Fixpoint printTreeVertical (root : Node) (space : Z) : string :=
  match root with
  | NULL => ""
  | mkNode label left_ right_ _ _ _ =>
      let spacing_per_level := 5 in
      let space := space + spacing_per_level in
      printTreeVertical right_ space
      ++ nl ++ spaces (Z.to_nat (space - spacing_per_level)) ++ label ++ nl
      ++ printTreeVertical left_ space
  end.

Definition separator : string :=
  nl ++ "--------------------------------------------------" ++ nl ++ nl.

Definition print_tree_header (n : Node) (st : State) : State :=
  match n with
  | NULL => st
  | _ => fprintf_yytree separator (fprintf_yytree (printTreeVertical n 0) st)
  end.

(** ** Expressions *)

(** [int] arithmetic: the result reduced to 32 bits, two's complement.
    ISO C does not define an [int] result that does not fit; this is what
    the usual targets compute for [+ - *]. *)
Definition wrap_int (z : Z) : Z := (z + 2 ^ 31) mod 2 ^ 32 - 2 ^ 31.

Definition bool_int (b : bool) : Z := if b then 1 else 0.

(** What ISO C leaves undefined and the code can reach. *)
Inductive UB : Set :=
| NullDeref      (* [varNode->kind] with [varNode == NULL] *)
| OutOfBounds    (* [sym[id] = val] with [id] outside [0, 256) *)
| DivOverflow.   (* [L / R] with [L == INT_MIN] and [R == -1] *)

(** What a call of [eval_expr] comes to: the value returned and the state
    left, or the undefined operation that ends the run. *)
Inductive Eval : Type :=
| Value (v : Z) (st : State)
| Trap (why : UB).

Definition INT_MIN : Z := - 2 ^ 31.

(** The quotient [L / R] of two [int]s does not fit [int] in one case; the
    code tests the divisor against 0 only, and the division is then not
    defined (the usual targets raise a signal and the process ends). *)
Definition div_overflows (L R : Z) : bool := (L =? INT_MIN) && (R =? -1).

(** [eval_expr]: both operands first, the left one before the right one;
    a call that ends the run ends its callers. *)
Fixpoint eval_expr (n : Node) (st : State) : Eval :=
  match n with
  | NULL => Value 0 st
  | mkNode label left_ right_ kind int_value var_id =>
      match kind with
      | N_INT => Value int_value st
      | N_VAR =>
          if (0 <=? var_id) && (var_id <? 256)
          then Value (nth (Z.to_nat var_id) (sym st) 0) st
          else Value 0 st
      | N_OP =>
          match eval_expr left_ st with
          | Trap why => Trap why
          | Value L st =>
          match eval_expr right_ st with
          | Trap why => Trap why
          | Value R st =>
          if String.eqb label "+" then Value (wrap_int (L + R)) st else
          if String.eqb label "-" then Value (wrap_int (L - R)) st else
          if String.eqb label "*" then Value (wrap_int (L * R)) st else
          if String.eqb label "/" then
            if R =? 0 then Value 0 (yyerror "Division by zero" st)
            else if div_overflows L R then Trap DivOverflow
            else Value (wrap_int (L ÷ R)) st
          else
          if String.eqb label "==" then Value (bool_int (L =? R)) st else
          if String.eqb label "!=" then Value (bool_int (negb (L =? R))) st else
          if String.eqb label "<=" then Value (bool_int (L <=? R)) st else
          if String.eqb label ">=" then Value (bool_int (L >=? R)) st else
          if String.eqb label "<" then Value (bool_int (L <? R)) st else
          if String.eqb label ">" then Value (bool_int (L >? R)) st else
          Value 0 (yyerror "Unknown operator in eval_expr" st)
          end
          end
      | _ => Value 0 (yyerror "eval_expr: expected expression node" st)
      end
  end.

(** ** Statements *)

(** What a call of [execute_stmt] or [execute_list] comes to. *)
Inductive Run : Type :=
| Ok (st : State)
| Undefined (why : UB).

Definition and_then (r : Run) (k : State -> Run) : Run :=
  match r with
  | Ok st => k st
  | Undefined why => Undefined why
  end.

Fixpoint size (n : Node) : nat :=
  match n with
  | NULL => O
  | mkNode _ l r _ _ _ => S (size l + size r)
  end.

(** [execute_stmt] and [execute_list] call each other, and each may call
    the other on the very node it was given: [execute_stmt] hands a
    [N_STMTLIST] node to [execute_list], [execute_list] hands any other node
    to [execute_stmt].  They are defined together, the entry point being the
    first argument, by recursion on the size of the tree, counting one more
    for the entry that only forwards the node. *)
Inductive Entry : Set := as_stmt | as_list.

Definition forwards (e : Entry) (n : Node) : bool :=
  match e, n with
  | as_stmt, mkNode _ _ _ N_STMTLIST _ _ => true
  | as_stmt, _ => false
  | as_list, mkNode _ _ _ N_STMTLIST _ _ => false
  | as_list, _ => true
  end.

Definition weight (e : Entry) (n : Node) : nat :=
  (2 * size n + (if forwards e n then 1 else 0))%nat.

Equations? exec (e : Entry) (n : Node) (st : State) : Run
    by wf (weight e n) lt :=
  (* void execute_stmt(Node *stmt) *)
  exec as_stmt NULL st := Ok st;
  exec as_stmt (mkNode label varNode exprNode N_DECL iv vid) st :=
    let st := print_tree_header (mkNode label varNode exprNode N_DECL iv vid) st in
    match eval_expr exprNode st with
    | Trap why => Undefined why
    | Value val st =>
        match varNode with
        | NULL => Undefined NullDeref
        | mkNode _ _ _ N_VAR _ id =>
            if (0 <=? id) && (id <? 256)
            then Ok (fprintf_yyout
                       ("Declared var[" ++ fmt_d id ++ "] = " ++ fmt_d val ++ nl)
                       (set_sym id val st))
            else Undefined OutOfBounds
        | mkNode _ _ _ _ _ _ =>
            Ok (yyerror "Declaration left side is not a variable" st)
        end
    end;
  exec as_stmt (mkNode label varNode exprNode N_ASSIGN iv vid) st :=
    let st := print_tree_header (mkNode label varNode exprNode N_ASSIGN iv vid) st in
    match eval_expr exprNode st with
    | Trap why => Undefined why
    | Value val st =>
        match varNode with
        | NULL => Undefined NullDeref
        | mkNode _ _ _ N_VAR _ id =>
            if (0 <=? id) && (id <? 256)
            then Ok (fprintf_yyout
                       ("Assigned var[" ++ fmt_d id ++ "] = " ++ fmt_d val ++ nl)
                       (set_sym id val st))
            else Undefined OutOfBounds
        | mkNode _ _ _ _ _ _ =>
            Ok (yyerror "Assignment left side is not a variable" st)
        end
    end;
  exec as_stmt (mkNode label exprNode r N_PRINT iv vid) st :=
    let st := print_tree_header (mkNode label exprNode r N_PRINT iv vid) st in
    match eval_expr exprNode st with
    | Trap why => Undefined why
    | Value val st => Ok (fprintf_yyout ("Print: " ++ fmt_d val ++ nl) st)
    end;
  exec as_stmt (mkNode label cond (mkNode bl thenList elseList N_BRANCHES biv bid) N_IF iv vid) st :=
    let st := print_tree_header
                (mkNode label cond (mkNode bl thenList elseList N_BRANCHES biv bid) N_IF iv vid) st in
    match eval_expr cond st with
    | Trap why => Undefined why
    | Value cond_val st =>
        if negb (cond_val =? 0) then exec as_list thenList st
        else exec as_list elseList st
    end;
  exec as_stmt (mkNode label cond branches N_IF iv vid) st :=
    let st := print_tree_header (mkNode label cond branches N_IF iv vid) st in
    match eval_expr cond st with
    | Trap why => Undefined why
    | Value cond_val st => Ok (yyerror "If branches malformed" st)
    end;
  exec as_stmt (mkNode label l r N_STMTLIST iv vid) st :=
    let st := print_tree_header (mkNode label l r N_STMTLIST iv vid) st in
    exec as_list (mkNode label l r N_STMTLIST iv vid) st;
  exec as_stmt (mkNode label l r kind iv vid) st :=
    let st := print_tree_header (mkNode label l r kind iv vid) st in
    Ok (yyerror "Unknown statement kind in execute_stmt" st);
  (* void execute_list(Node *list) *)
  exec as_list NULL st := Ok st;
  exec as_list (mkNode label l r kind iv vid) st
    with Kind_eq_dec kind N_STMTLIST := {
    | left _ := and_then (exec as_list l st) (fun st => exec as_stmt r st);
    | right _ := exec as_stmt (mkNode label l r kind iv vid) st }.
Proof.
  all: unfold weight; cbn [size forwards]; try lia.
  all: try (destruct kind; try congruence; lia).
  all: match goal with
       | |- context [match ?x with NULL => _ | _ => _ end] => destruct x as [|? ? ? [] ? ?]
       end; lia.
Qed.

Definition execute_stmt (stmt : Node) (st : State) : Run := exec as_stmt stmt st.
Definition execute_list (list : Node) (st : State) : Run := exec as_list list st.

(** ** The grammar actions that build the tree *)

(** [stmts: %empty] and [stmts: stmts stmt]. *)
Definition stmts_empty : Node := NULL.

Definition stmts_append (stmts stmt : Node) : Node :=
  match stmts with
  | NULL => new_stmtlist_node NULL stmt
  | _ => new_stmtlist_node stmts stmt
  end.

(** The value of [stmts] once the statements [l] have been reduced, first
    to last. *)
Definition stmts_of (l : list Node) : Node := fold_left stmts_append l stmts_empty.

(** [IfStatement], with and without [ELSE]. *)
Definition IfStatement_else (condition block1 block2 : Node) : Node :=
  new_if_node condition block1 block2.

Definition IfStatement_noelse (condition block : Node) : Node :=
  new_if_node condition block NULL.

(** [program: stmts] runs the finished tree from the state [main] set up. *)
Definition program (stmts : Node) (line : Z) : Run :=
  execute_list stmts (initial_state line).

(** ** Field access *)

Definition kind_of (n : Node) : Kind :=
  match n with NULL => N_UNKNOWN | mkNode _ _ _ k _ _ => k end.

Definition left_of (n : Node) : Node :=
  match n with NULL => NULL | mkNode _ l _ _ _ _ => l end.

Definition right_of (n : Node) : Node :=
  match n with NULL => NULL | mkNode _ _ r _ _ _ => r end.

(** * Vocabulary of the statements below *)

(** [report e st]: [st] with the text [e] appended to the diagnostics. *)
Definition report (e : string) (st : State) : State :=
  mkState (sym st) (yylineno st) (yyout st) (yytree st) (yyError st ++ e).

Definition error_line (s : string) (line : Z) : string :=
  "Error: " ++ s ++ " at line " ++ fmt_d line ++ nl.

Definition agree (a b : State) : Prop :=
  sym a = sym b /\ yylineno a = yylineno b /\
  yyout a = yyout b /\ yyError a = yyError b.

Definition agree_run (r1 r2 : Run) : Prop :=
  match r1, r2 with
  | Ok a, Ok b => agree a b
  | Undefined u, Undefined v => u = v
  | _, _ => False
  end.

Definition agree_eval (e1 e2 : Eval) : Prop :=
  match e1, e2 with
  | Value v a, Value w b => v = w /\ agree a b
  | Trap u, Trap v => u = v
  | _, _ => False
  end.

(** One block of tree.txt: the rendering of a statement and the separator
    line. *)
Definition block (stmt : Node) : string := printTreeVertical stmt 0 ++ separator.

Definition blocks (l : list Node) : string :=
  fold_right (fun stmt rest => block stmt ++ rest) "" l.

(** The non-null nodes on which [execute_stmt] is entered, in order, when
    [n] is run from [st] through the entry [e]. *)
Fixpoint entered (e : Entry) (n : Node) (st : State) {struct n} : list Node :=
  match n with
  | NULL => []
  | mkNode _ l r k _ _ =>
      let own := match e with
                 | as_stmt => true
                 | as_list => negb (Kind_eqb k N_STMTLIST)
                 end in
      let st := if own then print_tree_header n st else st in
      (if own then [n] else []) ++
      match k with
      | N_STMTLIST =>
          entered as_list l st ++
          match execute_list l st with
          | Ok st => entered as_stmt r st
          | Undefined _ => []
          end
      | N_IF =>
          match eval_expr l st with
          | Trap _ => []
          | Value cond_val st =>
              match r with
              | mkNode _ thenList elseList N_BRANCHES _ _ =>
                  if negb (cond_val =? 0) then entered as_list thenList st
                  else entered as_list elseList st
              | _ => []
              end
          end
      | _ => []
      end
  end.

Definition run (e : Entry) (n : Node) (st : State) : Run :=
  match e with
  | as_stmt => execute_stmt n st
  | as_list => execute_list n st
  end.

(** The ids a tree can store to: the variables on the left of its
    declarations and assignments. *)
Fixpoint targets (n : Node) : list Z :=
  match n with
  | NULL => []
  | mkNode _ l r k _ _ =>
      match k, l with
      | N_DECL, mkNode _ _ _ N_VAR _ id => [id]
      | N_ASSIGN, mkNode _ _ _ N_VAR _ id => [id]
      | _, _ => []
      end ++ targets l ++ targets r
  end.

(** [keeps ids st st']: going from [st] to [st'] left the line counter,
    the size of [sym] and every slot outside [ids] as they were. *)
Definition keeps (ids : list Z) (st st' : State) : Prop :=
  yylineno st' = yylineno st /\
  length (sym st') = length (sym st) /\
  forall id, 0 <= id -> ~ In id ids ->
    nth (Z.to_nat id) (sym st') 0 = nth (Z.to_nat id) (sym st) 0.

(** [print(v);] for a literal [v], and the records a list of such
    statements writes to out.txt. *)
Definition print_literal (v : Z) : Node := new_print_node (new_int_node v).

Definition print_records (vs : list Z) : string :=
  fold_right (fun v rest => "Print: " ++ fmt_d v ++ nl ++ rest) "" vs.

(** [print(1); print(2); print(3);] *)
Definition three_prints : Node :=
  stmts_of [new_print_node (new_int_node 1);
            new_print_node (new_int_node 2);
            new_print_node (new_int_node 3)].

(** [if (1 == 2): print(1); end] and [if (1 == 1): print(1); else: print(2); end] *)
Definition if_false_no_else : Node :=
  IfStatement_noelse (new_op_node "==" (new_int_node 1) (new_int_node 2))
                     (stmts_of [new_print_node (new_int_node 1)]).

Definition if_true_else : Node :=
  IfStatement_else (new_op_node "==" (new_int_node 1) (new_int_node 1))
                   (stmts_of [new_print_node (new_int_node 1)])
                   (stmts_of [new_print_node (new_int_node 2)]).

(** [print(5 / 0); print(9);] *)
Definition print_5_div_0 : Node :=
  new_print_node (new_op_node "/" (new_int_node 5) (new_int_node 0)).

Definition print_9 : Node := new_print_node (new_int_node 9).

(** [(0 - 2147483647 - 1) / (0 - 1)] *)
Definition int_min_div_minus_1 : Node :=
  new_op_node "/"
    (new_op_node "-" (new_op_node "-" (new_int_node 0) (new_int_node 2147483647))
                 (new_int_node 1))
    (new_op_node "-" (new_int_node 0) (new_int_node 1)).

(** [continues stmt st st']: run from [st] the statement [stmt] returns,
    with [st'], and wherever it stands in a list whose statements before it
    lead to [st], the statements after it are run one by one from [st']. *)
Definition continues (stmt : Node) (st st' : State) : Prop :=
  execute_stmt stmt st = Ok st' /\
  forall (before after : list Node) (st0 : State),
    execute_list (stmts_of before) st0 = Ok st ->
    execute_list (stmts_of (before ++ stmt :: after)) st0 =
    fold_left (fun done s => and_then done (execute_stmt s)) after (Ok st').

(** [rendered_in s t]: the text [t] holds the rendering of the subtree [s],
    at some depth. *)
Definition rendered_in (s : Node) (t : string) : Prop :=
  exists space pre post, t = pre ++ printTreeVertical s space ++ post.

(** [int a = 3; a = a + 4; print(a);] where the scanner gave [a] the id
    [idA]. *)
Definition decl_assign_print (idA : Z) : Node :=
  stmts_of [new_decl_node (new_var_node idA) (new_int_node 3);
            new_assign_node (new_var_node idA)
                            (new_op_node "+" (new_var_node idA) (new_int_node 4));
            new_print_node (new_var_node idA)].

(** * Vocabulary of the further properties *)

(** [subtree_at s n d]: [s] is the node [d] steps below [n]. *)
Inductive subtree_at (s : Node) : Node -> nat -> Prop :=
| subtree_here : subtree_at s s 0
| subtree_left lb l r k iv vid d :
    subtree_at s l d -> subtree_at s (mkNode lb l r k iv vid) (S d)
| subtree_right lb l r k iv vid d :
    subtree_at s r d -> subtree_at s (mkNode lb l r k iv vid) (S d).

Fixpoint repeat_string (k : nat) (s : string) : string :=
  match k with
  | O => ""
  | S k' => s ++ repeat_string k' s
  end.

(** The four labels the [expr] rules give an [N_OP] node, and the six
    comparisons [eval_expr] knows for the label of a [condition]. *)
Definition arith_ops : list string := ["+"; "-"; "*"; "/"].
Definition compare_ops : list string := ["=="; "!="; "<="; ">="; "<"; ">"].

Definition mem_string (s : string) (l : list string) : bool :=
  existsb (String.eqb s) l.

(** The trees the rules for [expr] build. *)
Fixpoint is_expr (e : Node) : bool :=
  match e with
  | mkNode lb l r N_INT _ _ => true
  | mkNode lb l r N_VAR _ _ => true
  | mkNode lb l r N_OP _ _ => mem_string lb arith_ops && is_expr l && is_expr r
  | _ => false
  end.

(** The trees the rule for [condition] builds when the scanner's [OP] is
    one of the six comparisons. *)
Definition is_condition (c : Node) : bool :=
  match c with
  | mkNode lb l r N_OP _ _ => mem_string lb compare_ops && is_expr l && is_expr r
  | _ => false
  end.

(** A variable node whose id is a slot of [sym]. *)
Definition is_variable (v : Node) : bool :=
  match v with
  | mkNode _ _ _ N_VAR _ id => (0 <=? id) && (id <? 256)
  | _ => false
  end.

(** The trees the rules for [stmts] and [stmt] build from such
    expressions, conditions and variables. *)
Fixpoint is_stmts (n : Node) : bool :=
  match n with
  | NULL => true
  | mkNode _ l r N_STMTLIST _ _ => is_stmts l && is_stmt r
  | _ => false
  end
with is_stmt (n : Node) : bool :=
  match n with
  | NULL => false
  | mkNode _ l r k _ _ =>
      match k with
      | N_DECL => is_variable l && is_expr r
      | N_ASSIGN => is_variable l && is_expr r
      | N_PRINT => is_expr l
      | N_IF =>
          match r with
          | mkNode _ t e N_BRANCHES _ _ =>
              is_condition l && is_stmts t && is_stmts e
          | _ => false
          end
      | _ => false
      end
  end.

(** [st] with its three files emptied, and [st'] with the files of [st] put
    back in front of its own. *)
Definition clear_files (st : State) : State :=
  mkState (sym st) (yylineno st) "" "" "".

Definition after_files (st st' : State) : State :=
  mkState (sym st') (yylineno st')
          (yyout st ++ yyout st') (yytree st ++ yytree st')
          (yyError st ++ yyError st').

Definition run_after_files (st : State) (r : Run) : Run :=
  match r with
  | Ok st' => Ok (after_files st st')
  | Undefined why => Undefined why
  end.

Definition eval_after_files (st : State) (e : Eval) : Eval :=
  match e with
  | Value v st' => Value v (after_files st st')
  | Trap why => Trap why
  end.

(** [k] lines for a division by zero met at line [line]. *)
Definition div_lines (k : nat) (line : Z) : string :=
  repeat_string k (error_line "Division by zero" line).

(** [only_div_lines st r]: the run [r] started in [st] has met the
    quotient of [INT_MIN] by -1, or it has returned and all it added to the
    diagnostics are division-by-zero lines. *)
Definition only_div_lines (st : State) (r : Run) : Prop :=
  r = Undefined DivOverflow \/
  exists st' k,
    r = Ok st' /\
    yylineno st' = yylineno st /\
    yyError st' = yyError st ++ div_lines k (yylineno st).

(** The same of an evaluation. *)
Definition eval_div_lines (st : State) (e : Eval) : Prop :=
  e = Trap DivOverflow \/
  exists v k, e = Value v (report (div_lines k (yylineno st)) st).

(** ** What is written to out.txt and outError.txt *)

(** The three records [execute_stmt] writes to out.txt. *)
Definition out_record (s : string) : Prop :=
  exists id v,
    s = "Declared var[" ++ fmt_d id ++ "] = " ++ fmt_d v ++ nl \/
    s = "Assigned var[" ++ fmt_d id ++ "] = " ++ fmt_d v ++ nl \/
    s = "Print: " ++ fmt_d v ++ nl.

(** The messages [eval_expr] and [execute_stmt] hand to [yyerror]. *)
Definition diagnostics : list string :=
  ["Division by zero";
   "Unknown operator in eval_expr";
   "eval_expr: expected expression node";
   "Declaration left side is not a variable";
   "Assignment left side is not a variable";
   "If branches malformed";
   "Unknown statement kind in execute_stmt"].

Definition lines_text (lines : list string) : string :=
  fold_right String.append "" lines.

(** [writes st st']: from [st] to [st'] out.txt grew by records, the
    diagnostics by lines for these messages at the line of [st], and the
    line stayed. *)
Definition writes (st st' : State) : Prop :=
  exists records msgs,
    Forall out_record records /\
    Forall (fun m => In m diagnostics) msgs /\
    yyout st' = yyout st ++ lines_text records /\
    yyError st' =
      yyError st ++ lines_text (map (fun m => error_line m (yylineno st)) msgs) /\
    yylineno st' = yylineno st.

(** * The parser: tables and driver of [yyparse] *)

(** [YYSTYPE], the union of semantic values.  Its declaration is in
    parser.tab.h, which is not among the sources; the three members are the
    ones the actions read and write ([ival], [sval], [node]).  A slot that
    was never written holds [yy_undef]; reading a member the value does not
    hold is not defined and stops the model with [Fault]. *)
Inductive YYSTYPE : Type :=
| yy_undef
| yy_ival (ival : Z)
| yy_sval (sval : string)
| yy_node (node : Node).

Definition get_ival (v : YYSTYPE) : option Z :=
  match v with yy_ival i => Some i | _ => None end.

Definition get_sval (v : YYSTYPE) : option string :=
  match v with yy_sval s => Some s | _ => None end.

Definition get_node (v : YYSTYPE) : option Node :=
  match v with yy_node n => Some n | _ => None end.

(** The scanner is not among the sources either.  It is taken as the
    sequence of tokens it delivers: the code [yylex] returns, and the values
    of [yylval] and [yylineno] it leaves.  After the last token [yylex]
    returns 0. *)
Record Token : Type := mkToken {
  tok_code : Z;
  tok_lval : YYSTYPE;
  tok_line : Z
}.

(** The token codes parser.tab.h gives the four special tokens; they are
    the ones of every Bison 3 parser, and [yytranslate] below maps 256 and
    257 to the symbols [error] and [invalid token] accordingly. *)
Definition YYEMPTY : Z := -2.
Definition YYEOF : Z := 0.
Definition YYerror : Z := 256.
Definition YYUNDEF : Z := 257.

Definition YYSYMBOL_YYEOF : Z := 0.
Definition YYSYMBOL_YYerror : Z := 1.
Definition YYSYMBOL_YYUNDEF : Z := 2.

Definition YYFINAL : Z := 3.
Definition YYLAST : Z := 69.
Definition YYNTOKENS : Z := 21.
Definition YYNSTATES : Z := 53.
Definition YYMAXUTOK : Z := 266.
Definition YYPACT_NINF : Z := -10.
Definition YYINITDEPTH : Z := 200.
Definition YYMAXDEPTH : Z := 10000.

(** Symbol kind of each token code [yylex] can return. *)
Definition yytranslate : list Z :=
  [0; 2; 2; 2; 2; 2; 2; 2; 2; 2;
   2; 2; 2; 2; 2; 2; 2; 2; 2; 2;
   2; 2; 2; 2; 2; 2; 2; 2; 2; 2;
   2; 2; 2; 2; 2; 2; 2; 2; 2; 2;
   18; 19; 15; 13; 2; 14; 2; 16; 2; 2;
   2; 2; 2; 2; 2; 2; 2; 2; 20; 17;
   2; 12; 2; 2; 2; 2; 2; 2; 2; 2;
   2; 2; 2; 2; 2; 2; 2; 2; 2; 2;
   2; 2; 2; 2; 2; 2; 2; 2; 2; 2;
   2; 2; 2; 2; 2; 2; 2; 2; 2; 2;
   2; 2; 2; 2; 2; 2; 2; 2; 2; 2;
   2; 2; 2; 2; 2; 2; 2; 2; 2; 2;
   2; 2; 2; 2; 2; 2; 2; 2; 2; 2;
   2; 2; 2; 2; 2; 2; 2; 2; 2; 2;
   2; 2; 2; 2; 2; 2; 2; 2; 2; 2;
   2; 2; 2; 2; 2; 2; 2; 2; 2; 2;
   2; 2; 2; 2; 2; 2; 2; 2; 2; 2;
   2; 2; 2; 2; 2; 2; 2; 2; 2; 2;
   2; 2; 2; 2; 2; 2; 2; 2; 2; 2;
   2; 2; 2; 2; 2; 2; 2; 2; 2; 2;
   2; 2; 2; 2; 2; 2; 2; 2; 2; 2;
   2; 2; 2; 2; 2; 2; 2; 2; 2; 2;
   2; 2; 2; 2; 2; 2; 2; 2; 2; 2;
   2; 2; 2; 2; 2; 2; 2; 2; 2; 2;
   2; 2; 2; 2; 2; 2; 2; 2; 2; 2;
   2; 2; 2; 2; 2; 2; 1; 2; 3; 4;
   5; 6; 7; 8; 9; 10; 11].

(** Index in [yytable] of the portion describing each state. *)
Definition yypact : list Z :=
  [(-10); 1; 15; (-10); (-10); (-7); (-6); 10; 25; (-1);
   (-10); (-10); (-10); (-10); (-10); 32; (-1); (-1); (-1); 20;
   (-10); 11; (-1); (-1); (-1); (-1); (-10); 37; 21; 45;
   28; (-1); (-10); (-5); (-5); (-10); (-10); (-10); 22; 46;
   (-1); 42; (-10); (-10); 47; (-10); 15; (-3); 48; (-10);
   (-10); 56; (-10)].

(** Default reduction of each state; 0 is an error. *)
Definition yydefact : list Z :=
  [3; 0; 2; 1; 17; 18; 0; 0; 0; 0;
   4; 5; 6; 7; 8; 0; 0; 0; 0; 0;
   18; 0; 0; 0; 0; 0; 9; 0; 0; 0;
   0; 0; 23; 19; 20; 21; 22; 11; 0; 0;
   0; 0; 12; 3; 16; 10; 15; 0; 0; 14;
   3; 0; 13].

Definition yypgoto : list Z :=
  [(-10); (-10); 67; (-10); (-10); (-10); (-10); (-10); 19; (-10);
   (-9)].

Definition yydefgoto : list Z :=
  [0; 1; 46; 10; 11; 12; 13; 14; 47; 29;
   15].

(** What to do in each state: positive, the state to shift to. *)
Definition yytable : list Z :=
  [21; 3; 4; 20; 48; 16; 49; 27; 28; 30;
   24; 25; 17; 33; 34; 35; 36; 9; 4; 5;
   6; 7; 41; 8; 22; 23; 24; 25; 18; 19;
   32; 44; 31; 9; 22; 23; 24; 25; 40; 42;
   38; 22; 23; 24; 25; 22; 23; 24; 25; 26;
   22; 23; 24; 25; 37; 22; 23; 24; 25; 45;
   22; 23; 24; 25; 39; 52; 43; 2; 50; 51].

Definition yycheck : list Z :=
  [9; 0; 3; 4; 7; 12; 9; 16; 17; 18;
   15; 16; 18; 22; 23; 24; 25; 18; 3; 4;
   5; 6; 31; 8; 13; 14; 15; 16; 18; 4;
   19; 40; 12; 18; 13; 14; 15; 16; 10; 17;
   19; 13; 14; 15; 16; 13; 14; 15; 16; 17;
   13; 14; 15; 16; 17; 13; 14; 15; 16; 17;
   13; 14; 15; 16; 19; 9; 20; 0; 20; 50].

(** The accessing symbol of each state. *)
Definition yystos : list Z :=
  [0; 22; 23; 0; 3; 4; 5; 6; 8; 18;
   24; 25; 26; 27; 28; 31; 12; 18; 18; 4;
   4; 31; 13; 14; 15; 16; 17; 31; 31; 30;
   31; 12; 19; 31; 31; 31; 31; 17; 19; 19;
   10; 31; 17; 20; 31; 17; 23; 29; 7; 9;
   20; 29; 9].

(** Left-hand side of each rule. *)
Definition yyr1 : list Z :=
  [0; 21; 22; 23; 23; 24; 24; 24; 24; 24;
   25; 26; 27; 28; 28; 29; 30; 31; 31; 31;
   31; 31; 31; 31].

(** Number of right-hand side symbols of each rule. *)
Definition yyr2 : list Z :=
  [0; 2; 1; 0; 2; 1; 1; 1; 1; 2;
   5; 4; 5; 10; 7; 1; 3; 1; 1; 3;
   3; 3; 3; 3].

(** [t[i]].  The model reads 0 outside the array; the driver is shown below
    never to index one of its tables outside its bounds. *)
Definition at_ (t : list Z) (i : Z) : Z := nth (Z.to_nat i) t 0.

Definition YYTRANSLATE (yyx : Z) : Z :=
  if (0 <=? yyx) && (yyx <=? YYMAXUTOK) then at_ yytranslate yyx
  else YYSYMBOL_YYUNDEF.

(** The variables of [yyparse], with the globals [yychar], [yylval] and
    [yynerrs].  The two stacks are kept top first: the head of [yyss] is
    [*yyssp], the element [k] of [yyvs] is [yyvsp[-k]]. *)
Record Parser : Type := mkParser {
  yyss : list Z;
  yyvs : list YYSTYPE;
  yystacksize : Z;
  yychar : Z;
  yylval : YYSTYPE;
  yyerrstatus : Z;
  yynerrs : Z;
  input : list Token
}.

Definition set_stacks (ss : list Z) (vs : list YYSTYPE) (p : Parser) : Parser :=
  mkParser ss vs (yystacksize p) (yychar p) (yylval p) (yyerrstatus p)
           (yynerrs p) (input p).

Definition set_yystacksize (n : Z) (p : Parser) : Parser :=
  mkParser (yyss p) (yyvs p) n (yychar p) (yylval p) (yyerrstatus p)
           (yynerrs p) (input p).

Definition set_yychar (c : Z) (p : Parser) : Parser :=
  mkParser (yyss p) (yyvs p) (yystacksize p) c (yylval p) (yyerrstatus p)
           (yynerrs p) (input p).

Definition set_yyerrstatus (n : Z) (p : Parser) : Parser :=
  mkParser (yyss p) (yyvs p) (yystacksize p) (yychar p) (yylval p) n
           (yynerrs p) (input p).

Definition set_yynerrs (n : Z) (p : Parser) : Parser :=
  mkParser (yyss p) (yyvs p) (yystacksize p) (yychar p) (yylval p)
           (yyerrstatus p) n (input p).

Definition set_yylineno (line : Z) (st : State) : State :=
  mkState (sym st) line (yyout st) (yytree st) (yyError st).

(** [yychar = yylex ()]. *)
Definition yylex (p : Parser) (st : State) : Parser * State :=
  match input p with
  | [] => (set_yychar 0 p, st)
  | t :: rest =>
      (mkParser (yyss p) (yyvs p) (yystacksize p) (tok_code t) (tok_lval t)
                (yyerrstatus p) (yynerrs p) rest,
       set_yylineno (tok_line t) st)
  end.

(** How one pass through the labels of [yyparse] ends: back at
    [yynewstate] with a state pushed, at [yyreturnlab] with the result, or
    in something C does not define. *)
Inductive Outcome : Type :=
| Continue (p : Parser) (st : State)
| Return (yyresult : Z) (st : State)
| Fault.

Definition yyacceptlab (st : State) : Outcome := Return 0 st.
Definition yyabortlab (st : State) : Outcome := Return 1 st.
Definition yyexhaustedlab (st : State) : Outcome :=
  Return 2 (yyerror "memory exhausted" st).

(** [yynewstate]: push [yystate]; the value stack was pushed already. *)
Definition yynewstate (yystate : Z) (p : Parser) (st : State) : Outcome :=
  Continue (set_stacks (yystate :: yyss p) (yyvs p) p) st.

(** [yyvsp[-k]]. *)
Definition yyvsp (p : Parser) (k : nat) : YYSTYPE := nth k (yyvs p) yy_undef.

(** The [switch (yyn)] of the semantic actions: the new [yyval] and state,
    or nothing when a member is read that the value does not hold or the
    executor leaves what C defines. *)
Definition yyaction (yyn : Z) (yyval : YYSTYPE) (p : Parser) (st : State)
    : option (YYSTYPE * State) :=
  match yyn with
  | 2 => (* program: stmts *)
      n ← get_node (yyvsp p 0);
      match execute_list n st with
      | Ok st' => Some (yyval, st')
      | Undefined _ => None
      end
  | 3 => (* stmts: %empty *)
      Some (yy_node NULL, st)
  | 4 => (* stmts: stmts stmt *)
      n1 ← get_node (yyvsp p 1);
      n0 ← get_node (yyvsp p 0);
      Some (yy_node (stmts_append n1 n0), st)
  | 5 | 6 | 7 | 8 => (* stmt: declaration | assignment | printStatement | IfStatement *)
      n ← get_node (yyvsp p 0); Some (yy_node n, st)
  | 9 => (* stmt: expr ';' *)
      n ← get_node (yyvsp p 1); Some (yy_node (new_print_node n), st)
  | 10 => (* declaration: INT VARIABLE '=' expr ';' *)
      id ← get_ival (yyvsp p 3);
      e ← get_node (yyvsp p 1);
      Some (yy_node (new_decl_node (new_var_node id) e), st)
  | 11 => (* assignment: VARIABLE '=' expr ';' *)
      id ← get_ival (yyvsp p 3);
      e ← get_node (yyvsp p 1);
      Some (yy_node (new_assign_node (new_var_node id) e), st)
  | 12 => (* printStatement: PRINT '(' expr ')' ';' *)
      e ← get_node (yyvsp p 2); Some (yy_node (new_print_node e), st)
  | 13 => (* IfStatement: IF '(' condition ')' ':' block ELSE ':' block END *)
      c ← get_node (yyvsp p 7);
      t ← get_node (yyvsp p 4);
      e ← get_node (yyvsp p 1);
      Some (yy_node (IfStatement_else c t e), st)
  | 14 => (* IfStatement: IF '(' condition ')' ':' block END *)
      c ← get_node (yyvsp p 4);
      t ← get_node (yyvsp p 1);
      Some (yy_node (IfStatement_noelse c t), st)
  | 15 => (* block: stmts *)
      n ← get_node (yyvsp p 0); Some (yy_node n, st)
  | 16 => (* condition: expr OP expr *)
      op ← get_sval (yyvsp p 1);
      l ← get_node (yyvsp p 2);
      r ← get_node (yyvsp p 0);
      Some (yy_node (new_op_node op l r), st)
  | 17 => (* expr: INTEGER *)
      v ← get_ival (yyvsp p 0); Some (yy_node (new_int_node v), st)
  | 18 => (* expr: VARIABLE *)
      id ← get_ival (yyvsp p 0); Some (yy_node (new_var_node id), st)
  | 19 => l ← get_node (yyvsp p 2); r ← get_node (yyvsp p 0);
          Some (yy_node (new_op_node "+" l r), st)
  | 20 => l ← get_node (yyvsp p 2); r ← get_node (yyvsp p 0);
          Some (yy_node (new_op_node "-" l r), st)
  | 21 => l ← get_node (yyvsp p 2); r ← get_node (yyvsp p 0);
          Some (yy_node (new_op_node "*" l r), st)
  | 22 => l ← get_node (yyvsp p 2); r ← get_node (yyvsp p 0);
          Some (yy_node (new_op_node "/" l r), st)
  | 23 => (* expr: '(' expr ')' *)
      n ← get_node (yyvsp p 1); Some (yy_node n, st)
  | _ => Some (yyval, st)
  end.

(** [yyreduce]: the action of rule [yyn], then the pop of its right-hand
    side, the push of [yyval] and the goto. *)
Definition yyreduce (yyn : Z) (p : Parser) (st : State) : Outcome :=
  let yylen := Z.to_nat (at_ yyr2 yyn) in
  let yyval := match yylen with
               | O => yy_undef
               | S k => yyvsp p k
               end in
  match yyaction yyn yyval p st with
  | None => Fault
  | Some (yyval, st) =>
      let ss := drop yylen (yyss p) in
      let vs := yyval :: drop yylen (yyvs p) in
      let yylhs := at_ yyr1 yyn - YYNTOKENS in
      let top := hd 0 ss in
      let yyi := at_ yypgoto yylhs + top in
      let yystate :=
        if (0 <=? yyi) && (yyi <=? YYLAST) && (at_ yycheck yyi =? top)
        then at_ yytable yyi
        else at_ yydefgoto yylhs in
      yynewstate yystate (set_stacks ss vs p) st
  end.

(** The loop of [yyerrlab1]: pop until a state shifts the error token. *)
Fixpoint yyerrlab1_pop (ss : list Z) (vs : list YYSTYPE)
    : option (Z * list Z * list YYSTYPE) :=
  match ss with
  | [] => None
  | yystate :: below =>
      let yyn := at_ yypact yystate in
      let shifts :=
        if yyn =? YYPACT_NINF then None
        else
          let yyn := yyn + YYSYMBOL_YYerror in
          if (0 <=? yyn) && (yyn <=? YYLAST) && (at_ yycheck yyn =? YYSYMBOL_YYerror)
          then (if 0 <? at_ yytable yyn then Some (at_ yytable yyn) else None)
          else None in
      match shifts with
      | Some yyn => Some (yyn, ss, vs)
      | None =>
          match below with
          | [] => None   (* yyssp == yyss: YYABORT *)
          | _ => yyerrlab1_pop below (tl vs)
          end
      end
  end.

Definition yyerrlab1 (p : Parser) (st : State) : Outcome :=
  let p := set_yyerrstatus 3 p in
  match yyerrlab1_pop (yyss p) (yyvs p) with
  | None => yyabortlab st
  | Some (yyn, ss, vs) =>
      yynewstate yyn (set_stacks ss (yylval p :: vs) p) st
  end.

Definition yyerrlab (p : Parser) (st : State) : Outcome :=
  let '(p, st) :=
    if yyerrstatus p =? 0
    then (set_yynerrs (yynerrs p + 1) p, yyerror "syntax error" st)
    else (p, st) in
  if yyerrstatus p =? 3 then
    if yychar p <=? YYEOF then
      if yychar p =? YYEOF then yyabortlab st else yyerrlab1 p st
    else yyerrlab1 (set_yychar YYEMPTY p) st
  else yyerrlab1 p st.

Definition yydefault (p : Parser) (st : State) : Outcome :=
  let yyn := at_ yydefact (hd 0 (yyss p)) in
  if yyn =? 0 then yyerrlab p st else yyreduce yyn p st.

(** The part of [yybackup] that follows the translation of the lookahead
    into [yytoken]. *)
Definition yybackup_token (yyn yytoken : Z) (p : Parser) (st : State) : Outcome :=
  let yyn := yyn + yytoken in
  if (yyn <? 0) || (YYLAST <? yyn) || negb (at_ yycheck yyn =? yytoken)
  then yydefault p st
  else
    let yyn := at_ yytable yyn in
    if yyn <=? 0 then
      (* [yytable_value_is_error] is constantly 0 *)
      yyreduce (- yyn) p st
    else
      let p := if yyerrstatus p =? 0 then p
               else set_yyerrstatus (yyerrstatus p - 1) p in
      (* shift the lookahead token *)
      yynewstate yyn
        (set_yychar YYEMPTY (set_stacks (yyss p) (yylval p :: yyvs p) p)) st.

Definition yybackup (p : Parser) (st : State) : Outcome :=
  let yystate := hd 0 (yyss p) in
  let yyn := at_ yypact yystate in
  if yyn =? YYPACT_NINF then yydefault p st
  else
    let '(p, st) := if yychar p =? YYEMPTY then yylex p st else (p, st) in
    if yychar p <=? YYEOF then
      yybackup_token yyn YYSYMBOL_YYEOF (set_yychar YYEOF p) st
    else if yychar p =? YYerror then
      yyerrlab1 (set_yychar YYUNDEF p) st
    else
      yybackup_token yyn (YYTRANSLATE (yychar p)) p st.

(** [yysetstate]: the stack check, the test for the final state, then
    [yybackup].  The allocation of a larger stack is taken to succeed. *)
Definition yysetstate (p : Parser) (st : State) : Outcome :=
  let yystate := hd 0 (yyss p) in
  let yysize := Z.of_nat (length (yyss p)) in
  if yystacksize p <=? yysize then
    (* yyss + yystacksize - 1 <= yyssp *)
    if YYMAXDEPTH <=? yystacksize p then yyexhaustedlab st
    else
      let yystacksize := yystacksize p * 2 in
      let yystacksize := if YYMAXDEPTH <? yystacksize then YYMAXDEPTH
                         else yystacksize in
      let p := set_yystacksize yystacksize p in
      if yystacksize <=? yysize then yyabortlab st
      else if yystate =? YYFINAL then yyacceptlab st
      else yybackup p st
  else if yystate =? YYFINAL then yyacceptlab st
  else yybackup p st.

(** The variables of [yyparse] at its first [yysetstate]. *)
Definition yyparse_start (tokens : list Token) : Parser :=
  mkParser [0] [yy_undef] YYINITDEPTH YYEMPTY yy_undef 0 0 tokens.

(** The loop through [yysetstate], cut after [fuel] passes. *)
Fixpoint yyloop (fuel : nat) (p : Parser) (st : State) : option Outcome :=
  match fuel with
  | O => None
  | S fuel =>
      match yysetstate p st with
      | Continue p st => yyloop fuel p st
      | out => Some out
      end
  end.

Definition yyparse (fuel : nat) (tokens : list Token) (st : State) : option Outcome :=
  yyloop fuel (yyparse_start tokens) st.

(** The codes of the tokens, as [yytranslate] has them. *)
Definition INTEGER : Z := 258.
Definition VARIABLE : Z := 259.
Definition PRINT : Z := 260.
Definition IF : Z := 261.
Definition ELSE : Z := 262.
Definition INT : Z := 263.
Definition END : Z := 264.
Definition OP : Z := 265.

(** A token without a value, as the scanner gives for keywords and
    punctuation, and the tokens with one. *)
Definition tok (code : Z) (line : Z) : Token := mkToken code yy_undef line.
Definition tok_char (c : string) (line : Z) : Token :=
  mkToken (match c with
           | String a _ => Z.of_nat (nat_of_ascii a)
           | EmptyString => 0
           end) yy_undef line.
Definition tok_INTEGER (v line : Z) : Token := mkToken INTEGER (yy_ival v) line.
Definition tok_VARIABLE (id line : Z) : Token := mkToken VARIABLE (yy_ival id) line.
Definition tok_OP (op : string) (line : Z) : Token := mkToken OP (yy_sval op) line.

(** ** The automaton the tables describe *)

Definition all_states : list Z := map Z.of_nat (seq 0 53).

Definition valid_state (s : Z) : bool := (0 <=? s) && (s <? YYNSTATES).

(** The state a shift of the token kind [X] leads to from state [s], as
    [yybackup] computes it. *)
Definition shift_state (s X : Z) : option Z :=
  let yyn := at_ yypact s in
  if yyn =? YYPACT_NINF then None
  else
    let yyn := yyn + X in
    if (yyn <? 0) || (YYLAST <? yyn) || negb (at_ yycheck yyn =? X) then None
    else if at_ yytable yyn <=? 0 then None
    else Some (at_ yytable yyn).

(** The state the goto of [yyreduce] leads to when [s] is uncovered and the
    rule reduced has the left-hand side [X]. *)
Definition goto_state (s X : Z) : Z :=
  let yylhs := X - YYNTOKENS in
  let yyi := at_ yypgoto yylhs + s in
  if (0 <=? yyi) && (yyi <=? YYLAST) && (at_ yycheck yyi =? s)
  then at_ yytable yyi
  else at_ yydefgoto yylhs.

(** The right-hand sides of the rules, in symbol kinds, as the comments of
    the actions give them. *)
Definition yyrhs : list (list Z) :=
  [ [];
    [22; 0];                             (* $accept: program $end *)
    [23];                                (* program: stmts *)
    [];                                  (* stmts: %empty *)
    [23; 24];                            (* stmts: stmts stmt *)
    [25]; [26]; [27]; [28];              (* stmt: declaration | ... *)
    [31; 17];                            (* stmt: expr ';' *)
    [8; 4; 12; 31; 17];                  (* declaration *)
    [4; 12; 31; 17];                     (* assignment *)
    [5; 18; 31; 19; 17];                 (* printStatement *)
    [6; 18; 30; 19; 20; 29; 7; 20; 29; 9];
    [6; 18; 30; 19; 20; 29; 9];          (* IfStatement, with and without ELSE *)
    [23];                                (* block: stmts *)
    [31; 10; 31];                        (* condition: expr OP expr *)
    [3]; [4];                            (* expr: INTEGER | VARIABLE *)
    [31; 13; 31]; [31; 14; 31]; [31; 15; 31]; [31; 16; 31];
    [18; 31; 19] ].                      (* expr: '(' expr ')' *)

Definition rhs_of (r : Z) : list Z := nth (Z.to_nat r) yyrhs [].

(** The pairs of states that can lie one on the other on the state stack:
    below, the state; above, the state a shift or a goto reaches from it. *)
Definition yyedges : list (Z * Z) :=
  [(0, 1); (0, 2); (1, 3); (2, 4); (2, 5); (2, 6); (2, 7); (2, 8); (2, 9); (2, 10); (2, 11); (2, 12); (2, 13); (2, 14); (2, 15); (5, 16); (6, 17); (7, 18); (8, 19); (9, 4); (9, 9); (9, 20); (9, 21); (15, 22); (15, 23); (15, 24); (15, 25); (15, 26); (16, 4); (16, 9); (16, 20); (16, 27); (17, 4); (17, 9); (17, 20); (17, 28); (18, 4); (18, 9); (18, 20); (18, 29); (18, 30); (19, 31); (21, 22); (21, 23); (21, 24); (21, 25); (21, 32); (22, 4); (22, 9); (22, 20); (22, 33); (23, 4); (23, 9); (23, 20); (23, 34); (24, 4); (24, 9); (24, 20); (24, 35); (25, 4); (25, 9); (25, 20); (25, 36); (27, 22); (27, 23); (27, 24); (27, 25); (27, 37); (28, 22); (28, 23); (28, 24); (28, 25); (28, 38); (29, 39); (30, 22); (30, 23); (30, 24); (30, 25); (30, 40); (31, 4); (31, 9); (31, 20); (31, 41); (33, 24); (33, 25); (34, 24); (34, 25); (38, 42); (39, 43); (40, 4); (40, 9); (40, 20); (40, 44); (41, 22); (41, 23); (41, 24); (41, 25); (41, 45); (43, 46); (43, 47); (44, 22); (44, 23); (44, 24); (44, 25); (46, 4); (46, 5); (46, 6); (46, 7); (46, 8); (46, 9); (46, 10); (46, 11); (46, 12); (46, 13); (46, 14); (46, 15); (47, 48); (47, 49); (48, 50); (50, 46); (50, 51); (51, 52)].

Definition edge (below above : Z) : bool :=
  existsb (fun e => (fst e =? below) && (snd e =? above)) yyedges.

(** [back_ok lhs rhs_rev s]: whatever lies under [s] on the stack, the
    states popped for [rhs_rev] (last symbol first) are accessed by these
    symbols, and the state uncovered has its goto on [lhs] among the
    edges. *)
Fixpoint back_ok (lhs : Z) (rhs_rev : list Z) (s : Z) : bool :=
  match rhs_rev with
  | [] =>
      edge s (goto_state s lhs) && (at_ yystos (goto_state s lhs) =? lhs)
  | X :: rest =>
      (at_ yystos s =? X) && negb (s =? 0) &&
      forallb (fun s' => if edge s' s then back_ok lhs rest s' else true)
              all_states
  end.

(** What the value of a symbol on the value stack must be for the actions
    to read it: the member the rules use, within the bounds [is_expr],
    [is_stmts], ... set. *)
Definition typed (X : Z) (v : YYSTYPE) : bool :=
  if X =? 3 then match v with yy_ival _ => true | _ => false end
  else if X =? 4 then
    match v with yy_ival id => (0 <=? id) && (id <? 256) | _ => false end
  else if X =? 10 then
    match v with yy_sval op => mem_string op compare_ops | _ => false end
  else if (X =? 23) || (X =? 29) then
    match v with yy_node n => is_stmts n | _ => false end
  else if (24 <=? X) && (X <=? 28) then
    match v with yy_node n => is_stmt n | _ => false end
  else if X =? 30 then
    match v with yy_node n => is_condition n | _ => false end
  else if X =? 31 then
    match v with yy_node n => is_expr n | _ => false end
  else true.

(** What the driver asks of the scanner: an [INTEGER] comes with an [ival],
    a [VARIABLE] with an [ival] that is a slot of [sym], an [OP] with one of
    the six comparisons as [sval]. *)
Definition token_ok (t : Token) : bool :=
  typed (YYTRANSLATE (tok_code t)) (tok_lval t).

(** The two stacks hold a path of the automaton from state 0, each value
    fit for the symbol that accesses its state. *)
Fixpoint stack_ok (ss : list Z) (vs : list YYSTYPE) : bool :=
  match ss, vs with
  | [s], [_] => s =? 0
  | s :: ((s' :: _) as below), v :: vs' =>
      edge s' s && typed (at_ yystos s) v && stack_ok below vs'
  | _, _ => false
  end.

Definition parser_ok (p : Parser) : Prop :=
  stack_ok (yyss p) (yyvs p) = true /\
  typed (YYTRANSLATE (yychar p)) (yylval p) = true /\
  forallb token_ok (input p) = true /\
  yyerrstatus p = 0 /\
  YYINITDEPTH <= yystacksize p.

(** The parser after [k] passes, if none of them ended the parse. *)
Fixpoint yyrun (k : nat) (p : Parser) (st : State) : option (Parser * State) :=
  match k with
  | O => Some (p, st)
  | S k =>
      match yysetstate p st with
      | Continue p st => yyrun k p st
      | _ => None
      end
  end.

(** ** The grammar *)

(** The symbol kinds, [enum yysymbol_kind_t]. *)
Definition YYSYMBOL_INTEGER : Z := 3.
Definition YYSYMBOL_VARIABLE : Z := 4.
Definition YYSYMBOL_PRINT : Z := 5.
Definition YYSYMBOL_IF : Z := 6.
Definition YYSYMBOL_ELSE : Z := 7.
Definition YYSYMBOL_INT : Z := 8.
Definition YYSYMBOL_END : Z := 9.
Definition YYSYMBOL_OP : Z := 10.
Definition YYSYMBOL_12_ : Z := 12.   (* '=' *)
Definition YYSYMBOL_13_ : Z := 13.   (* '+' *)
Definition YYSYMBOL_14_ : Z := 14.   (* '-' *)
Definition YYSYMBOL_15_ : Z := 15.   (* '*' *)
Definition YYSYMBOL_16_ : Z := 16.   (* '/' *)
Definition YYSYMBOL_17_ : Z := 17.   (* ';' *)
Definition YYSYMBOL_18_ : Z := 18.   (* '(' *)
Definition YYSYMBOL_19_ : Z := 19.   (* ')' *)
Definition YYSYMBOL_20_ : Z := 20.   (* ':' *)

(** [t] is a token of the kind [X] that carries the value [v]. *)
Definition token_of (X : Z) (v : YYSTYPE) (t : Token) : Prop :=
  0 < tok_code t /\ YYTRANSLATE (tok_code t) = X /\ tok_lval t = v.

Definition a_token (X : Z) (t : Token) : Prop := token_of X (tok_lval t) t.

(** The rules, as the comments of the actions give them, each with the
    tree its action builds: [expr_tokens e ts] when the tokens [ts] are an
    [expr] whose value is [e], and so on for the other symbols. *)
Inductive expr_tokens : Node -> list Token -> Prop :=
| expr_INTEGER t v :
    token_of YYSYMBOL_INTEGER (yy_ival v) t ->
    expr_tokens (new_int_node v) [t]
| expr_VARIABLE t id :
    token_of YYSYMBOL_VARIABLE (yy_ival id) t ->
    expr_tokens (new_var_node id) [t]
| expr_plus l a t r b :
    expr_tokens l a -> a_token YYSYMBOL_13_ t -> expr_tokens r b ->
    expr_tokens (new_op_node "+" l r) (a ++ t :: b)
| expr_minus l a t r b :
    expr_tokens l a -> a_token YYSYMBOL_14_ t -> expr_tokens r b ->
    expr_tokens (new_op_node "-" l r) (a ++ t :: b)
| expr_times l a t r b :
    expr_tokens l a -> a_token YYSYMBOL_15_ t -> expr_tokens r b ->
    expr_tokens (new_op_node "*" l r) (a ++ t :: b)
| expr_divide l a t r b :
    expr_tokens l a -> a_token YYSYMBOL_16_ t -> expr_tokens r b ->
    expr_tokens (new_op_node "/" l r) (a ++ t :: b)
| expr_parens t1 e a t2 :
    a_token YYSYMBOL_18_ t1 -> expr_tokens e a -> a_token YYSYMBOL_19_ t2 ->
    expr_tokens e (t1 :: a ++ [t2]).

Inductive condition_tokens : Node -> list Token -> Prop :=
| condition_OP l a t op r b :
    expr_tokens l a -> token_of YYSYMBOL_OP (yy_sval op) t -> expr_tokens r b ->
    condition_tokens (new_op_node op l r) (a ++ t :: b).

Inductive stmts_tokens : Node -> list Token -> Prop :=
| stmts_none : stmts_tokens stmts_empty []
| stmts_more n a s b :
    stmts_tokens n a -> stmt_tokens s b ->
    stmts_tokens (stmts_append n s) (a ++ b)
with stmt_tokens : Node -> list Token -> Prop :=
| stmt_expr e a t :
    expr_tokens e a -> a_token YYSYMBOL_17_ t ->
    stmt_tokens (new_print_node e) (a ++ [t])
| stmt_declaration t1 t2 id t3 e a t4 :
    a_token YYSYMBOL_INT t1 -> token_of YYSYMBOL_VARIABLE (yy_ival id) t2 ->
    a_token YYSYMBOL_12_ t3 -> expr_tokens e a -> a_token YYSYMBOL_17_ t4 ->
    stmt_tokens (new_decl_node (new_var_node id) e)
                (t1 :: t2 :: t3 :: a ++ [t4])
| stmt_assignment t1 id t2 e a t3 :
    token_of YYSYMBOL_VARIABLE (yy_ival id) t1 ->
    a_token YYSYMBOL_12_ t2 -> expr_tokens e a -> a_token YYSYMBOL_17_ t3 ->
    stmt_tokens (new_assign_node (new_var_node id) e)
                (t1 :: t2 :: a ++ [t3])
| stmt_printStatement t1 t2 e a t3 t4 :
    a_token YYSYMBOL_PRINT t1 -> a_token YYSYMBOL_18_ t2 ->
    expr_tokens e a -> a_token YYSYMBOL_19_ t3 -> a_token YYSYMBOL_17_ t4 ->
    stmt_tokens (new_print_node e) (t1 :: t2 :: a ++ [t3; t4])
| stmt_IfStatement_else t1 t2 c a t3 t4 n1 b1 t5 t6 n2 b2 t7 :
    a_token YYSYMBOL_IF t1 -> a_token YYSYMBOL_18_ t2 ->
    condition_tokens c a ->
    a_token YYSYMBOL_19_ t3 -> a_token YYSYMBOL_20_ t4 ->
    stmts_tokens n1 b1 ->
    a_token YYSYMBOL_ELSE t5 -> a_token YYSYMBOL_20_ t6 ->
    stmts_tokens n2 b2 ->
    a_token YYSYMBOL_END t7 ->
    stmt_tokens (IfStatement_else c n1 n2)
                (t1 :: t2 :: a ++ t3 :: t4 :: b1 ++ t5 :: t6 :: b2 ++ [t7])
| stmt_IfStatement t1 t2 c a t3 t4 n1 b1 t5 :
    a_token YYSYMBOL_IF t1 -> a_token YYSYMBOL_18_ t2 ->
    condition_tokens c a ->
    a_token YYSYMBOL_19_ t3 -> a_token YYSYMBOL_20_ t4 ->
    stmts_tokens n1 b1 ->
    a_token YYSYMBOL_END t5 ->
    stmt_tokens (IfStatement_noelse c n1)
                (t1 :: t2 :: a ++ t3 :: t4 :: b1 ++ [t5]).

(** The tokens [yyparse] gets to see: those before the first one whose
    code is not positive, which ends the input as the end of the file
    does. *)
Fixpoint sentence (tokens : list Token) : list Token :=
  match tokens with
  | [] => []
  | t :: rest => if 0 <? tok_code t then t :: sentence rest else []
  end.

(** [derives X v ts]: the tokens [ts] were reduced to the symbol [X] with
    the value [v]. *)
Definition derives (X : Z) (v : YYSTYPE) (ts : list Token) : Prop :=
  if X =? YYSYMBOL_YYEOF then ts = []
  else if X <? YYNTOKENS then exists t, ts = [t] /\ token_of X v t
  else if X =? 22 then True
  else if (X =? 23) || (X =? 29) then
    exists n, v = yy_node n /\ stmts_tokens n ts
  else if (24 <=? X) && (X <=? 28) then
    exists n, v = yy_node n /\ stmt_tokens n ts
  else if X =? 30 then exists n, v = yy_node n /\ condition_tokens n ts
  else if X =? 31 then exists n, v = yy_node n /\ expr_tokens n ts
  else False.

(** Each state of the stack above the first with the tokens its symbol was
    reduced from, top first. *)
Fixpoint stack_derives (ss : list Z) (vs : list YYSTYPE)
    (segs : list (list Token)) : Prop :=
  match ss, vs, segs with
  | [_], [_], [] => True
  | s :: ((_ :: _) as below), v :: vs', seg :: segs' =>
      derives (at_ yystos s) v seg /\ stack_derives below vs' segs'
  | _, _, _ => False
  end.

(** The tokens of the sentence not shifted yet, by what the lookahead
    is. *)
Definition unread_is (p : Parser) (unread : list Token) : Prop :=
  (yychar p = YYEMPTY /\
   unread = if hd 0 (yyss p) =? YYFINAL then [] else sentence (input p)) \/
  (yychar p = YYEOF /\ unread = []) \/
  (0 < yychar p /\
   exists t, tok_code t = yychar p /\ tok_lval t = yylval p /\
             unread = t :: sentence (input p)).

(** [st] is [st0] but for the line the scanner left in [yylineno]. *)
Definition scanned (st0 st : State) : Prop :=
  exists line, st = set_yylineno line st0.

(** [st] is what [execute_list] made of such a state, run on the tree of a
    [stmts] the tokens [ts] are. *)
Definition executed (st0 : State) (ts : list Token) (st : State) : Prop :=
  exists tree line,
    stmts_tokens tree ts /\
    is_stmts tree = true /\
    execute_list tree (set_yylineno line st0) = Ok st.

(** The same for some tokens the sentence begins with. *)
Definition executed_prefix (st0 : State) (tokens : list Token) (st : State)
    : Prop :=
  exists ts rest, sentence tokens = (ts ++ rest)%list /\ executed st0 ts st.

(** The statements of some tokens the sentence begins with were run and
    met the quotient of [INT_MIN] by -1. *)
Definition stopped (st0 : State) (tokens : list Token) : Prop :=
  exists ts rest tree line,
    sentence tokens = (ts ++ rest)%list /\
    stmts_tokens tree ts /\
    is_stmts tree = true /\
    execute_list tree (set_yylineno line st0) = Undefined DivOverflow.

(** The ends [yyparse] can come to when started in [st0] on [tokens]. *)
Definition yyparse_ends (st0 : State) (tokens : list Token) (out : Outcome)
    : Prop :=
  match out with
  | Return 0 st' => executed st0 (sentence tokens) st'
  | Return 1 st' =>
      scanned st0 st' \/
      (exists s, scanned st0 s /\ st' = yyerror "syntax error" s) \/
      executed_prefix st0 tokens st' \/
      (exists s, executed_prefix st0 tokens s /\ st' = yyerror "syntax error" s)
  | Return 2 st' =>
      exists s, scanned st0 s /\ st' = yyerror "memory exhausted" s
  | Fault => stopped st0 tokens
  | _ => False
  end.

(** Before the program is reduced the state is the initial one; once state
    1 or 3 is on top, the tree of the tokens [ts] reduced so far has been
    executed; in state 1 the lookahead is read, in state 3 it is shifted. *)
Definition phase (st0 : State) (s c : Z) (ts : list Token) (st : State)
    : Prop :=
  if (s =? 1) || (s =? 3)
  then (s = 1 -> c <> YYEMPTY) /\ (s = 3 -> c = YYEMPTY) /\ executed st0 ts st
  else scanned st0 st.

Definition yyinv (st0 : State) (tokens : list Token) (p : Parser) (st : State)
    : Prop :=
  parser_ok p /\
  exists segs unread,
    stack_derives (yyss p) (yyvs p) segs /\
    unread_is p unread /\
    (concat (rev segs) ++ unread)%list = sentence tokens /\
    phase st0 (hd 0 (yyss p)) (yychar p) (concat (rev segs)) st.

(** A measure of what is left to do: the tokens not yet shifted, the height
    of the stack, and a rank of the state on top that every reduction
    without a token lowers. *)
Definition yyrank : list Z :=
  [11; 5; 6; 0; 1; 1; 0; 0; 0; 0;
   3; 4; 4; 4; 4; 0; 0; 0; 0; 0;
   1; 0; 0; 0; 0; 0; 0; 0; 0; 0;
   0; 0; 0; 0; 0; 0; 0; 0; 0; 0;
   0; 0; 0; 11; 0; 0; 1; 0; 0; 0;
   11; 0; 0].

Definition lookahead_weight (c : Z) : Z := if 0 <? c then 2 else 1.

Definition yypotential (p : Parser) : Z :=
  16 * (Z.of_nat (length (input p)) + lookahead_weight (yychar p)) +
  4 * Z.of_nat (length (yyss p)) +
  at_ yyrank (hd 0 (yyss p)).

Definition step_ok (st0 : State) (tokens : list Token) (bound : Z)
    (out : Outcome) : Prop :=
  match out with
  | Continue p st => yyinv st0 tokens p st /\ yypotential p < bound
  | out => yyparse_ends st0 tokens out
  end.

(** An operand of the simplest kind, as a token and as the tree the rules
    [expr: INTEGER] and [expr: VARIABLE] build for it. *)
(** The tokens of [(0 - 2147483647 - 1) / (0 - 1);] on the line [line]. *)
Definition int_min_div_minus_1_tokens (line : Z) : list Token :=
  [tok_char "(" line; tok_INTEGER 0 line; tok_char "-" line;
   tok_INTEGER 2147483647 line; tok_char "-" line; tok_INTEGER 1 line;
   tok_char ")" line; tok_char "/" line;
   tok_char "(" line; tok_INTEGER 0 line; tok_char "-" line;
   tok_INTEGER 1 line; tok_char ")" line; tok_char ";" line].

Definition atom (variable : bool) (v line : Z) : Token :=
  if variable then tok_VARIABLE v line else tok_INTEGER v line.

Definition atom_node (variable : bool) (v : Z) : Node :=
  if variable then new_var_node v else new_int_node v.

(** ['*'] and ['/'] against ['+'] and ['-']. *)
Definition multiplicative (op : string) : bool :=
  String.eqb op "*" || String.eqb op "/".

(** The tree of [a op1 b op2 c]: the second operator takes [b] when it is
    multiplicative and the first is not; otherwise the first does. *)
Definition two_operators (op1 op2 : string) (a b c : Node) : Node :=
  if multiplicative op2 && negb (multiplicative op1)
  then new_op_node op1 a (new_op_node op2 b c)
  else new_op_node op2 (new_op_node op1 a b) c.

(** * Properties *)

(** ** The defining equations, in the shape of the C functions *)

Lemma execute_list_unfold (list : Node) (st : State) :
  execute_list list st =
  match list with
  | NULL => Ok st
  | mkNode _ l r k _ _ =>
      if Kind_eqb k N_STMTLIST
      then and_then (execute_list l st) (execute_stmt r)
      else execute_stmt list st
  end.
Proof.
  unfold execute_list, execute_stmt.
  destruct list as [|lb l r k iv vid]; simp exec; [reflexivity|].
  destruct k; simp exec; cbn; try reflexivity.
Qed.

Lemma execute_stmt_unfold (stmt : Node) (st : State) :
  execute_stmt stmt st =
  match stmt with
  | NULL => Ok st
  | mkNode _ l r k _ _ =>
      let st := print_tree_header stmt st in
      match k with
      | N_DECL =>
          match eval_expr r st with
          | Trap why => Undefined why
          | Value val st =>
              match l with
              | NULL => Undefined NullDeref
              | mkNode _ _ _ N_VAR _ id =>
                  if (0 <=? id) && (id <? 256)
                  then Ok (fprintf_yyout
                             ("Declared var[" ++ fmt_d id ++ "] = " ++ fmt_d val ++ nl)
                             (set_sym id val st))
                  else Undefined OutOfBounds
              | _ => Ok (yyerror "Declaration left side is not a variable" st)
              end
          end
      | N_ASSIGN =>
          match eval_expr r st with
          | Trap why => Undefined why
          | Value val st =>
              match l with
              | NULL => Undefined NullDeref
              | mkNode _ _ _ N_VAR _ id =>
                  if (0 <=? id) && (id <? 256)
                  then Ok (fprintf_yyout
                             ("Assigned var[" ++ fmt_d id ++ "] = " ++ fmt_d val ++ nl)
                             (set_sym id val st))
                  else Undefined OutOfBounds
              | _ => Ok (yyerror "Assignment left side is not a variable" st)
              end
          end
      | N_PRINT =>
          match eval_expr l st with
          | Trap why => Undefined why
          | Value val st => Ok (fprintf_yyout ("Print: " ++ fmt_d val ++ nl) st)
          end
      | N_IF =>
          match eval_expr l st with
          | Trap why => Undefined why
          | Value cond_val st =>
              match r with
              | mkNode _ thenList elseList N_BRANCHES _ _ =>
                  if negb (cond_val =? 0) then execute_list thenList st
                  else execute_list elseList st
              | _ => Ok (yyerror "If branches malformed" st)
              end
          end
      | N_STMTLIST => execute_list stmt st
      | _ => Ok (yyerror "Unknown statement kind in execute_stmt" st)
      end
  end.
Proof.
  unfold execute_list, execute_stmt.
  destruct stmt as [|lb l r k iv vid]; simp exec; [reflexivity|].
  destruct k; simp exec; try reflexivity.
  destruct r as [|bl tl el [] biv bid]; simp exec; cbn zeta;
    destruct (eval_expr l _); reflexivity.
Qed.

(** Induction on the size of the tree, the scheme behind every statement
    about the two executors. *)
Lemma Node_size_ind (P : Node -> Prop) :
  (forall n, (forall m, (size m < size n)%nat -> P m) -> P n) ->
  forall n, P n.
Proof.
  intros step n.
  induction (Wf_nat.well_founded_ltof _ size n) as [n _ IH].
  apply step. intros m Hm. apply IH. exact Hm.
Qed.

(** ** Strings *)

Lemma append_nil_r (s : string) : s ++ "" = s.
Proof. induction s as [|c s IH]; cbn; [reflexivity | now rewrite IH]. Qed.

Lemma append_assoc (a b c : string) : (a ++ b) ++ c = a ++ b ++ c.
Proof. induction a as [|x a IH]; cbn; [reflexivity | now rewrite IH]. Qed.

(** ** What the evaluator can change *)

Lemma yyerror_report (s : string) (st : State) :
  yyerror s st = report (error_line s (yylineno st)) st.
Proof.
  reflexivity.
Qed.

Lemma report_nil (st : State) : report "" st = st.
Proof. destruct st; unfold report; cbn. now rewrite append_nil_r. Qed.

Lemma report_report (a b : string) (st : State) :
  report b (report a st) = report (a ++ b) st.
Proof. unfold report; cbn. now rewrite append_assoc. Qed.

Ltac split_ifs :=
  repeat match goal with
         | |- context [if ?b then _ else _] => destruct b
         end.

(** Evaluation reads [sym] and writes nothing but diagnostics. *)
Lemma eval_expr_only_reports (n : Node) :
  forall st v st', eval_expr n st = Value v st' -> exists e, st' = report e st.
Proof.
  induction n as [|lb l IHl r IHr k iv vid]; intros st v st'.
  - intros [= _ <-]. exists "". now rewrite report_nil.
  - destruct k; cbn [eval_expr];
      try (intros [= _ <-]; eexists; rewrite yyerror_report; reflexivity);
      try (intros [= _ <-]; exists ""; now rewrite report_nil).
    + destruct ((0 <=? vid) && (vid <? 256)); intros [= _ <-];
        exists ""; now rewrite report_nil.
    + destruct (eval_expr l st) as [L st1|] eqn:El; [|discriminate].
      destruct (IHl _ _ _ El) as [e1 ->].
      destruct (eval_expr r (report e1 st)) as [R st2|] eqn:Er; [|discriminate].
      destruct (IHr _ _ _ Er) as [e2 ->].
      rewrite report_report.
      split_ifs; intros [= _ <-];
        try (rewrite yyerror_report, report_report; eexists; reflexivity);
        eexists; reflexivity.
Qed.

Lemma eval_expr_sym n st v st' : eval_expr n st = Value v st' -> sym st' = sym st.
Proof. intros H. destruct (eval_expr_only_reports _ _ _ _ H) as [e ->]. reflexivity. Qed.

Lemma eval_expr_yylineno n st v st' :
  eval_expr n st = Value v st' -> yylineno st' = yylineno st.
Proof. intros H. destruct (eval_expr_only_reports _ _ _ _ H) as [e ->]. reflexivity. Qed.

Lemma eval_expr_yyout n st v st' : eval_expr n st = Value v st' -> yyout st' = yyout st.
Proof. intros H. destruct (eval_expr_only_reports _ _ _ _ H) as [e ->]. reflexivity. Qed.

Lemma eval_expr_yytree n st v st' :
  eval_expr n st = Value v st' -> yytree st' = yytree st.
Proof. intros H. destruct (eval_expr_only_reports _ _ _ _ H) as [e ->]. reflexivity. Qed.

(** ** States that differ in tree.txt only *)

Lemma agree_refl a : agree a a.
Proof. repeat split. Qed.

Lemma agree_sym a b : agree a b -> agree b a.
Proof. intros (?&?&?&?). repeat split; congruence. Qed.

Lemma agree_trans a b c : agree a b -> agree b c -> agree a c.
Proof. intros (?&?&?&?) (?&?&?&?). repeat split; congruence. Qed.

Lemma agree_print_tree_header n st : agree (print_tree_header n st) st.
Proof. destruct n; repeat split. Qed.

Lemma agree_yyerror s a b : agree a b -> agree (yyerror s a) (yyerror s b).
Proof. intros (?&?&?&?). unfold yyerror; repeat split; cbn; congruence. Qed.

Lemma agree_fprintf_yyout s a b :
  agree a b -> agree (fprintf_yyout s a) (fprintf_yyout s b).
Proof. intros (?&?&?&?). unfold fprintf_yyout; repeat split; cbn; congruence. Qed.

Lemma agree_set_sym id v a b : agree a b -> agree (set_sym id v a) (set_sym id v b).
Proof. intros (?&?&?&?). unfold set_sym; repeat split; cbn; congruence. Qed.

Create HintDb agree.
#[local] Hint Resolve agree_refl agree_yyerror agree_fprintf_yyout
  agree_set_sym : agree.

Lemma eval_expr_agree (n : Node) :
  forall a b, agree a b -> agree_eval (eval_expr n a) (eval_expr n b).
Proof.
  induction n as [|lb l IHl r IHr k iv vid]; intros a b Hab.
  - split; [reflexivity | exact Hab].
  - destruct k; cbn [eval_expr];
      try (split; [reflexivity | now apply agree_yyerror]);
      try (split; [reflexivity | exact Hab]).
    + destruct Hab as (Hs&?&?&?). rewrite Hs.
      split_ifs; (split; [reflexivity | repeat split; assumption]).
    + specialize (IHl a b Hab).
      destruct (eval_expr l a) as [L a1|u], (eval_expr l b) as [L' b1|u'];
        cbn in IHl; try contradiction; [|exact IHl].
      destruct IHl as [<- Hab1].
      specialize (IHr a1 b1 Hab1).
      destruct (eval_expr r a1) as [R a2|u], (eval_expr r b1) as [R' b2|u'];
        cbn in IHr; try contradiction; [|exact IHr].
      destruct IHr as [<- Hab2].
      split_ifs; cbn; try reflexivity; (split; [reflexivity|]);
        try assumption; now apply agree_yyerror.
Qed.

(** ** The executors do not read tree.txt *)

Lemma agree_run_and_then r1 r2 (k : State -> Run) :
  agree_run r1 r2 ->
  (forall a b, agree a b -> agree_run (k a) (k b)) ->
  agree_run (and_then r1 k) (and_then r2 k).
Proof.
  destruct r1 as [a|u], r2 as [b|v]; cbn; intros H Hk; auto; contradiction.
Qed.

Lemma agree_header n a b :
  agree a b -> agree (print_tree_header n a) (print_tree_header n b).
Proof.
  intros H. eapply agree_trans; [apply agree_print_tree_header|].
  eapply agree_trans; [exact H|]. apply agree_sym, agree_print_tree_header.
Qed.

(** The effect of a declaration or an assignment once its right-hand side
    has been computed; [what] is the word of the effects record and [msg]
    the diagnostic. *)
Lemma agree_store (what msg : string) (l : Node) (val : Z) a b :
  agree a b ->
  agree_run
    match l with
    | NULL => Undefined NullDeref
    | mkNode _ _ _ N_VAR _ id =>
        if (0 <=? id) && (id <? 256)
        then Ok (fprintf_yyout (what ++ fmt_d id ++ "] = " ++ fmt_d val ++ nl)
                   (set_sym id val a))
        else Undefined OutOfBounds
    | _ => Ok (yyerror msg a)
    end
    match l with
    | NULL => Undefined NullDeref
    | mkNode _ _ _ N_VAR _ id =>
        if (0 <=? id) && (id <? 256)
        then Ok (fprintf_yyout (what ++ fmt_d id ++ "] = " ++ fmt_d val ++ nl)
                   (set_sym id val b))
        else Undefined OutOfBounds
    | _ => Ok (yyerror msg b)
    end.
Proof.
  intros H. destruct l as [|? ? ? [] ? id]; cbn; try reflexivity;
    auto with agree.
  destruct ((0 <=? id) && (id <? 256)); cbn; auto with agree.
Qed.

Lemma exec_agree (n : Node) :
  forall a b, agree a b ->
    agree_run (execute_stmt n a) (execute_stmt n b) /\
    agree_run (execute_list n a) (execute_list n b).
Proof.
  induction n as [n IH] using Node_size_ind.
  destruct n as [|lb l r k iv vid].
  { intros a b H. rewrite !execute_stmt_unfold, !execute_list_unfold. auto. }
  assert (IHl : forall a b, agree a b ->
            agree_run (execute_list l a) (execute_list l b))
    by (intros; apply IH; [cbn; lia | assumption]).
  assert (IHr : forall a b, agree a b ->
            agree_run (execute_stmt r a) (execute_stmt r b))
    by (intros; apply IH; [cbn; lia | assumption]).
  assert (Hlist : k = N_STMTLIST -> forall a b, agree a b ->
            agree_run (execute_list (mkNode lb l r k iv vid) a)
                      (execute_list (mkNode lb l r k iv vid) b)).
  { intros -> a b H. rewrite !(execute_list_unfold (mkNode _ _ _ _ _ _)). cbn [Kind_eqb].
    apply agree_run_and_then; auto. }
  assert (Hstmt : forall a b, agree a b ->
            agree_run (execute_stmt (mkNode lb l r k iv vid) a)
                      (execute_stmt (mkNode lb l r k iv vid) b)).
  { intros a b H. rewrite !(execute_stmt_unfold (mkNode _ _ _ _ _ _)). cbn zeta.
    pose proof (agree_header (mkNode lb l r k iv vid) a b H) as H0.
    set (a0 := print_tree_header _ a) in *.
    set (b0 := print_tree_header _ b) in *.
    destruct k; try (cbn; now apply agree_yyerror).
    - pose proof (eval_expr_agree r a0 b0 H0) as H1.
      destruct (eval_expr r a0) as [v a1|u], (eval_expr r b0) as [v' b1|u'];
        cbn in H1; try contradiction; [|exact H1].
      destruct H1 as [<- H1].
      now apply (agree_store "Declared var[").
    - pose proof (eval_expr_agree r a0 b0 H0) as H1.
      destruct (eval_expr r a0) as [v a1|u], (eval_expr r b0) as [v' b1|u'];
        cbn in H1; try contradiction; [|exact H1].
      destruct H1 as [<- H1].
      now apply (agree_store "Assigned var[").
    - pose proof (eval_expr_agree l a0 b0 H0) as H1.
      destruct (eval_expr l a0) as [v a1|u], (eval_expr l b0) as [v' b1|u'];
        cbn in H1; try contradiction; [|exact H1].
      destruct H1 as [<- H1]. cbn. now apply agree_fprintf_yyout.
    - pose proof (eval_expr_agree l a0 b0 H0) as H1.
      destruct (eval_expr l a0) as [v a1|u], (eval_expr l b0) as [v' b1|u'];
        cbn in H1; try contradiction; [|exact H1].
      destruct H1 as [<- H1].
      destruct r as [|bl tl el [] biv bid]; try (cbn; now apply agree_yyerror).
      destruct (negb (v =? 0)); apply IH; cbn; auto; lia.
    - now apply Hlist. }
  intros a b H. split; [now apply Hstmt|].
  destruct (Kind_eq_dec k N_STMTLIST) as [E|E]; [now apply Hlist|].
  rewrite !(execute_list_unfold (mkNode _ _ _ _ _ _)).
  destruct k; try congruence; cbn [Kind_eqb]; now apply Hstmt.
Qed.

(** ** The statements a run enters, and what tree.txt receives *)

Lemma blocks_app (a b : list Node) : blocks (a ++ b) = blocks a ++ blocks b.
Proof.
  unfold blocks. induction a as [|x a IH]; cbn; [reflexivity|].
  now rewrite IH, append_assoc.
Qed.

Lemma yytree_header (n : Node) (st : State) :
  n <> NULL -> yytree (print_tree_header n st) = yytree st ++ block n.
Proof.
  destruct n; [congruence|]. intros _. unfold block. cbn -[printTreeVertical separator].
  now rewrite append_assoc.
Qed.

Lemma and_then_Ok (r : Run) (k : State -> Run) (st' : State) :
  and_then r k = Ok st' -> exists st1, r = Ok st1 /\ k st1 = Ok st'.
Proof. destruct r as [st1|u]; cbn; [eauto | discriminate]. Qed.

Lemma run_trace (n : Node) :
  forall e st st', run e n st = Ok st' ->
    yytree st' = yytree st ++ blocks (entered e n st).
Proof.
  induction n as [n IH] using Node_size_ind.
  destruct n as [|lb l r k iv vid].
  { intros [] st st'; cbn; rewrite ?execute_stmt_unfold, ?execute_list_unfold;
      intros [= <-]; now rewrite append_nil_r. }
  assert (Hl : forall st st', execute_list l st = Ok st' ->
            yytree st' = yytree st ++ blocks (entered as_list l st))
    by (intros st st'; apply (IH l ltac:(cbn; lia) as_list)).
  assert (Hr : forall st st', execute_stmt r st = Ok st' ->
            yytree st' = yytree st ++ blocks (entered as_stmt r st))
    by (intros st st'; apply (IH r ltac:(cbn; lia) as_stmt)).
  assert (Hseq : forall st st',
            and_then (execute_list l st) (execute_stmt r) = Ok st' ->
            yytree st' = yytree st ++
              blocks (entered as_list l st ++
                      match execute_list l st with
                      | Ok st1 => entered as_stmt r st1
                      | Undefined _ => []
                      end)).
  { intros st st' H. apply and_then_Ok in H as (st1 & H1 & H2).
    rewrite H1, blocks_app, (Hr _ _ H2), (Hl _ _ H1).
    now rewrite append_assoc. }
  assert (Hstmt : forall st st',
            execute_stmt (mkNode lb l r k iv vid) st = Ok st' ->
            yytree st' = yytree st ++
              blocks (entered as_stmt (mkNode lb l r k iv vid) st)).
  { intros st st'. rewrite (execute_stmt_unfold (mkNode _ _ _ _ _ _)).
    cbn zeta.
    pose proof (yytree_header (mkNode lb l r k iv vid) st ltac:(discriminate)) as H0.
    set (st0 := print_tree_header _ st) in *.
    assert (Hown : forall X, yytree st ++ blocks (mkNode lb l r k iv vid :: X)
                             = yytree st0 ++ blocks X).
    { intros X. change (blocks (?a :: X)) with (block a ++ blocks X).
      now rewrite <- append_assoc, <- H0. }
    destruct k; cbn [entered app]; fold st0; rewrite Hown;
      clear Hown H0; clearbody st0;
      try (intros [= <-]; cbn; now rewrite append_nil_r).
    - destruct (eval_expr r st0) as [v st1|u] eqn:Ev; [|intros [=]].
      pose proof (eval_expr_yytree _ _ _ _ Ev) as Ht.
      destruct l as [|? ? ? [] ? id];
        try (intros [= <-]; rewrite <- Ht; cbn; now rewrite append_nil_r).
      destruct ((0 <=? id) && (id <? 256)); [|intros [=]].
      intros [= <-]; rewrite <- Ht; cbn; now rewrite append_nil_r.
    - destruct (eval_expr r st0) as [v st1|u] eqn:Ev; [|intros [=]].
      pose proof (eval_expr_yytree _ _ _ _ Ev) as Ht.
      destruct l as [|? ? ? [] ? id];
        try (intros [= <-]; rewrite <- Ht; cbn; now rewrite append_nil_r).
      destruct ((0 <=? id) && (id <? 256)); [|intros [=]].
      intros [= <-]; rewrite <- Ht; cbn; now rewrite append_nil_r.
    - destruct (eval_expr l st0) as [v st1|u] eqn:Ev; [|intros [=]].
      pose proof (eval_expr_yytree _ _ _ _ Ev) as Ht.
      intros [= <-]; rewrite <- Ht; cbn; now rewrite append_nil_r.
    - destruct (eval_expr l st0) as [v st1|u] eqn:Ev; [|intros [=]].
      pose proof (eval_expr_yytree _ _ _ _ Ev) as Ht.
      rewrite <- Ht.
      destruct r as [|bl tl el [] biv bid];
        try (intros [= <-]; cbn; now rewrite append_nil_r).
      destruct (negb (v =? 0)); intros H.
      + apply (IH tl ltac:(cbn; lia) as_list). exact H.
      + apply (IH el ltac:(cbn; lia) as_list). exact H.
    - rewrite (execute_list_unfold (mkNode _ _ _ _ _ _)). cbn [Kind_eqb].
      apply Hseq. }
  intros [] st st'; cbn [run]; [apply Hstmt|].
  rewrite (execute_list_unfold (mkNode _ _ _ _ _ _)).
  destruct k; cbn [Kind_eqb]; try apply Hstmt.
  cbn [entered Kind_eqb negb app]. apply Hseq.
Qed.

(** ** What a run can change in the symbol store *)

Lemma keeps_same ids st st' :
  sym st' = sym st -> yylineno st' = yylineno st -> keeps ids st st'.
Proof. intros Hs Hl. unfold keeps. rewrite Hs, Hl. auto. Qed.

Lemma keeps_trans ids a b c : keeps ids a b -> keeps ids b c -> keeps ids a c.
Proof.
  intros (H1&H2&H3) (K1&K2&K3). repeat split; try congruence.
  intros id Hid Hn. rewrite K3, H3; auto.
Qed.

Lemma keeps_mono ids ids' a b :
  (forall id, In id ids -> In id ids') -> keeps ids a b -> keeps ids' a b.
Proof. intros Hsub (H1&H2&H3). repeat split; auto. Qed.

Lemma keeps_eval ids n st v st' :
  eval_expr n st = Value v st' -> keeps ids st st'.
Proof.
  intros H. apply keeps_same;
    [eapply eval_expr_sym | eapply eval_expr_yylineno]; exact H.
Qed.

Lemma keeps_header ids n st : keeps ids st (print_tree_header n st).
Proof. destruct n; now apply keeps_same. Qed.

Lemma nth_insert_ne (l : list Z) (i j : nat) (v d : Z) :
  i <> j -> nth j (<[i:=v]> l) d = nth j l d.
Proof. intros H. now rewrite !nth_lookup, list_lookup_insert_ne. Qed.

Lemma nth_insert_eq (l : list Z) (i : nat) (v d : Z) :
  (i < length l)%nat -> nth i (<[i:=v]> l) d = v.
Proof. intros H. now rewrite nth_lookup, list_lookup_insert_eq. Qed.

Lemma keeps_set_sym ids id v st :
  0 <= id -> In id ids -> keeps ids st (set_sym id v st).
Proof.
  intros Hid Hin. repeat split; cbn; [apply length_insert|].
  intros id' Hpos Hn. apply nth_insert_ne.
  intros E. apply Hn. assert (id = id') by lia. now subst.
Qed.

Lemma keeps_store (what msg : string) ids (l : Node) (val : Z) st st' :
  (forall lb a b iv id, l = mkNode lb a b N_VAR iv id -> In id ids) ->
  match l with
  | NULL => Undefined NullDeref
  | mkNode _ _ _ N_VAR _ id =>
      if (0 <=? id) && (id <? 256)
      then Ok (fprintf_yyout (what ++ fmt_d id ++ "] = " ++ fmt_d val ++ nl)
                 (set_sym id val st))
      else Undefined OutOfBounds
  | _ => Ok (yyerror msg st)
  end = Ok st' ->
  keeps ids st st'.
Proof.
  intros Hin.
  destruct l as [|lb a b k iv id]; [intros [=]|].
  destruct k; try (intros [= <-]; now apply keeps_same).
  destruct ((0 <=? id) && (id <? 256)) eqn:E; intros [= <-].
  eapply keeps_trans; [apply keeps_set_sym|now apply keeps_same].
  - lia.
  - eapply Hin; reflexivity.
Qed.

Lemma targets_decl lb l r iv vid lb' a b iv' id :
  l = mkNode lb' a b N_VAR iv' id ->
  In id (targets (mkNode lb l r N_DECL iv vid)).
Proof. intros ->. cbn. now left. Qed.

Lemma targets_assign lb l r iv vid lb' a b iv' id :
  l = mkNode lb' a b N_VAR iv' id ->
  In id (targets (mkNode lb l r N_ASSIGN iv vid)).
Proof. intros ->. cbn. now left. Qed.

Lemma targets_left lb l r k iv vid id :
  In id (targets l) -> In id (targets (mkNode lb l r k iv vid)).
Proof. intros H. cbn [targets]. rewrite !in_app_iff. auto. Qed.

Lemma targets_right lb l r k iv vid id :
  In id (targets r) -> In id (targets (mkNode lb l r k iv vid)).
Proof. intros H. cbn [targets]. rewrite !in_app_iff. auto. Qed.

Lemma run_keeps (n : Node) :
  forall e st st', run e n st = Ok st' -> keeps (targets n) st st'.
Proof.
  induction n as [n IH] using Node_size_ind.
  destruct n as [|lb l r k iv vid].
  { intros [] st st'; cbn; rewrite ?execute_stmt_unfold, ?execute_list_unfold;
      intros [= <-]; now apply keeps_same. }
  assert (Hseq : forall st st',
            and_then (execute_list l st) (execute_stmt r) = Ok st' ->
            keeps (targets (mkNode lb l r k iv vid)) st st').
  { intros st st' H. apply and_then_Ok in H as (st1 & H1 & H2).
    apply (IH l ltac:(cbn; lia) as_list) in H1.
    apply (IH r ltac:(cbn; lia) as_stmt) in H2.
    eapply keeps_trans; (eapply keeps_mono; [|eassumption]); intros id;
      [apply targets_left | apply targets_right]. }
  assert (Hstmt : forall st st',
            execute_stmt (mkNode lb l r k iv vid) st = Ok st' ->
            keeps (targets (mkNode lb l r k iv vid)) st st').
  { intros st st'. rewrite (execute_stmt_unfold (mkNode _ _ _ _ _ _)). cbn zeta.
    intros H. eapply keeps_trans; [apply (keeps_header _ (mkNode lb l r k iv vid))|].
    revert H. generalize (print_tree_header (mkNode lb l r k iv vid) st) as st0.
    clear st. intros st0.
    destruct k; try (intros [= <-]; now apply keeps_same).
    - set (ids := targets _).
      destruct (eval_expr r st0) as [v st1|u] eqn:Ev; [|intros [=]].
      pose proof (keeps_eval ids _ _ _ _ Ev) as Hk. intros H.
      eapply keeps_trans; [exact Hk|].
      eapply keeps_store; [|exact H]. intros; eapply targets_decl; eassumption.
    - set (ids := targets _).
      destruct (eval_expr r st0) as [v st1|u] eqn:Ev; [|intros [=]].
      pose proof (keeps_eval ids _ _ _ _ Ev) as Hk. intros H.
      eapply keeps_trans; [exact Hk|].
      eapply keeps_store; [|exact H]. intros; eapply targets_assign; eassumption.
    - set (ids := targets _).
      destruct (eval_expr l st0) as [v st1|u] eqn:Ev; [|intros [=]].
      pose proof (keeps_eval ids _ _ _ _ Ev) as Hk.
      intros [= <-]. eapply keeps_trans; [exact Hk|]. now apply keeps_same.
    - destruct (eval_expr l st0) as [v st1|u] eqn:Ev; [|intros [=]].
      pose proof (keeps_eval (targets (mkNode lb l r N_IF iv vid)) _ _ _ _ Ev) as Hk.
      intros H.
      eapply keeps_trans; [exact Hk|]. clear Hk. revert H.
      destruct r as [|bl tl el [] biv bid];
        try (intros [= <-]; now apply keeps_same).
      destruct (negb (v =? 0)); intros H.
      + apply (IH tl ltac:(cbn; lia) as_list) in H.
        eapply keeps_mono; [|exact H]. intros id Hid.
        apply targets_right, targets_left, Hid.
      + apply (IH el ltac:(cbn; lia) as_list) in H.
        eapply keeps_mono; [|exact H]. intros id Hid.
        apply targets_right, targets_right, Hid.
    - rewrite (execute_list_unfold (mkNode _ _ _ _ _ _)). cbn [Kind_eqb].
      apply Hseq. }
  intros [] st st'; cbn [run]; [apply Hstmt|].
  rewrite (execute_list_unfold (mkNode _ _ _ _ _ _)).
  destruct k; cbn [Kind_eqb]; try apply Hstmt. apply Hseq.
Qed.

(** * The claims *)

(** ** Statement order *)

Lemma execute_list_stmts_append (stmts stmt : Node) (st : State) :
  execute_list (stmts_append stmts stmt) st =
  and_then (execute_list stmts st) (execute_stmt stmt).
Proof.
  destruct stmts; cbn [stmts_append]; unfold new_stmtlist_node, new_node_kind;
    rewrite (execute_list_unfold (mkNode _ _ _ N_STMTLIST _ _)); reflexivity.
Qed.

Lemma stmts_of_snoc (l : list Node) (stmt : Node) :
  stmts_of (l ++ [stmt]) = stmts_append (stmts_of l) stmt.
Proof. unfold stmts_of. now rewrite fold_left_app. Qed.

Lemma execute_list_stmts_of (stmts : list Node) (st : State) :
  execute_list (stmts_of stmts) st =
  fold_left (fun done stmt => and_then done (execute_stmt stmt)) stmts (Ok st).
Proof.
  induction stmts as [|s stmts IH] using rev_ind.
  - unfold stmts_of, stmts_empty. cbn [fold_left].
    now rewrite execute_list_unfold.
  - now rewrite stmts_of_snoc, execute_list_stmts_append, fold_left_app, IH.
Qed.

Lemma execute_stmt_print_literal (v : Z) (st : State) :
  execute_stmt (print_literal v) st =
  Ok (fprintf_yyout ("Print: " ++ fmt_d v ++ nl)
        (print_tree_header (print_literal v) st)).
Proof.
  unfold print_literal at 1, new_print_node, new_node_kind.
  rewrite (execute_stmt_unfold (mkNode _ _ _ N_PRINT _ _)). reflexivity.
Qed.

Lemma print_records_snoc (vs : list Z) (v : Z) :
  print_records (vs ++ [v]) = print_records vs ++ "Print: " ++ fmt_d v ++ nl.
Proof.
  unfold print_records. induction vs as [|a vs IH]; cbn [fold_right app].
  - now rewrite !append_nil_r.
  - rewrite IH. now rewrite !append_assoc.
Qed.

(** A list of prints of literals writes their records in the order of the
    list, and nothing else but the trace. *)
Lemma execute_list_print_literals (vs : list Z) (st : State) :
  exists st',
    execute_list (stmts_of (map print_literal vs)) st = Ok st' /\
    yyout st' = yyout st ++ print_records vs /\
    sym st' = sym st /\ yyError st' = yyError st /\
    yylineno st' = yylineno st.
Proof.
  induction vs as [|v vs IH] using rev_ind.
  - exists st. unfold stmts_of, stmts_empty. cbn [map fold_left].
    rewrite execute_list_unfold. cbn [print_records fold_right].
    now rewrite append_nil_r.
  - destruct IH as (st1 & Hrun & Hout & Hsym & Herr & Hline).
    rewrite map_app. cbn [map].
    rewrite stmts_of_snoc, execute_list_stmts_append, Hrun. cbn [and_then].
    rewrite execute_stmt_print_literal. eexists. split; [reflexivity|].
    rewrite print_records_snoc.
    cbn [fprintf_yyout fprintf_yytree yyout sym yyError yylineno
         print_tree_header print_literal new_print_node new_node_kind].
    rewrite Hout, append_assoc. auto.
Qed.

(** C1. [execute_list] runs the statements first to last: nothing on the
    empty list; on a [N_STMTLIST] node the previous list, then the
    statement; any other node as the statement it is.  Hence the list the
    grammar builds from the statements [s1 ... sn] runs [s1], then [s2], ...,
    then [sn]; when they are prints of the literals [v1 ... vn], out.txt
    receives the records [Print: v1], ..., [Print: vn], in that order, and
    the store and the diagnostics stay as they were. *)
Theorem execute_list_left_to_right (st : State) :
  execute_list NULL st = Ok st /\
  (forall lb previous statement iv vid,
      execute_list (mkNode lb previous statement N_STMTLIST iv vid) st =
      and_then (execute_list previous st) (execute_stmt statement)) /\
  (forall lb l r k iv vid,
      k <> N_STMTLIST ->
      execute_list (mkNode lb l r k iv vid) st =
      execute_stmt (mkNode lb l r k iv vid) st) /\
  (forall stmts : list Node,
      execute_list (stmts_of stmts) st =
      fold_left (fun done stmt => and_then done (execute_stmt stmt))
                stmts (Ok st)) /\
  (forall literals : list Z,
      exists st',
        execute_list (stmts_of (map print_literal literals)) st = Ok st' /\
        yyout st' = yyout st ++ print_records literals /\
        sym st' = sym st /\ yyError st' = yyError st).
Proof.
  split; [|split; [|split; [|split]]].
  - now rewrite execute_list_unfold.
  - intros. now rewrite (execute_list_unfold (mkNode _ _ _ _ _ _)).
  - intros lb l r k iv vid Hk.
    rewrite (execute_list_unfold (mkNode _ _ _ _ _ _)).
    destruct k; try reflexivity. congruence.
  - intros stmts. apply execute_list_stmts_of.
  - intros vs. destruct (execute_list_print_literals vs st)
      as (st' & H1 & H2 & H3 & H4 & _).
    exists st'. auto.
Qed.

Lemma execute_list_left_to_right_witness :
  (N_PRINT <> N_STMTLIST /\
   execute_list (new_print_node (new_int_node 1)) (initial_state 1) =
   execute_stmt (new_print_node (new_int_node 1)) (initial_state 1)) /\
  exists st',
    program three_prints 1 = Ok st' /\
    yyout st' = "Print: 1" ++ nl ++ "Print: 2" ++ nl ++ "Print: 3" ++ nl /\
    sym st' = sym (initial_state 1) /\ yyError st' = "".
Proof.
  split.
  - split; [discriminate|].
    apply (proj1 (proj2 (proj2 (execute_list_left_to_right (initial_state 1))))).
    discriminate.
  - exact (proj2 (proj2 (proj2 (proj2
             (execute_list_left_to_right (initial_state 1))))) [1; 2; 3]).
Defined.

Example three_prints_in_order :
  exists st', program three_prints 1 = Ok st' /\
    yyout st' = "Print: 1" ++ nl ++ "Print: 2" ++ nl ++ "Print: 3" ++ nl.
Proof. eexists. split; [vm_compute; reflexivity | reflexivity]. Qed.

(** ** Absent nodes *)

(** C10. On a null pointer [eval_expr] yields 0 and both executors return
    at once; the state, and so every output file, is left as it was. *)
Theorem null_node_is_noop (st : State) :
  eval_expr NULL st = Value 0 st /\
  execute_stmt NULL st = Ok st /\
  execute_list NULL st = Ok st.
Proof.
  split; [reflexivity|split].
  - now rewrite execute_stmt_unfold.
  - now rewrite execute_list_unfold.
Qed.

(** ** If statements *)

(** The condition of an [if] comes out the same whatever the branches
    hold: they are drawn in tree.txt, which evaluation does not read. *)
Lemma eval_condition_any_branches
    (lb : string) (cond : Node) (bl : string) (t1 e1 t2 e2 : Node)
    (biv bid iv vid : Z) (st : State) (cond_val : Z) (st1 : State) :
  eval_expr cond
    (print_tree_header
       (mkNode lb cond (mkNode bl t1 e1 N_BRANCHES biv bid) N_IF iv vid) st)
  = Value cond_val st1 ->
  exists st1',
    eval_expr cond
      (print_tree_header
         (mkNode lb cond (mkNode bl t2 e2 N_BRANCHES biv bid) N_IF iv vid) st)
    = Value cond_val st1' /\ agree st1 st1'.
Proof.
  intros H.
  set (a := print_tree_header
              (mkNode lb cond (mkNode bl t1 e1 N_BRANCHES biv bid) N_IF iv vid) st)
    in *.
  set (b := print_tree_header
              (mkNode lb cond (mkNode bl t2 e2 N_BRANCHES biv bid) N_IF iv vid) st).
  assert (Hab : agree a b).
  { eapply agree_trans; [apply agree_print_tree_header|].
    apply agree_sym, agree_print_tree_header. }
  clearbody a b.
  pose proof (eval_expr_agree cond a b Hab) as Ha.
  rewrite H in Ha.
  destruct (eval_expr cond b) as [v s|u]; [|contradiction].
  destruct Ha as [<- Ha]. eauto.
Qed.

(** C2. An [N_IF] node with its branch holder evaluates the condition and
    then runs one list: the then-list if the value is not 0, the else-list
    otherwise, which does nothing when absent.  The list not taken is not
    run: whatever it holds, the symbol store, out.txt and the diagnostics
    come out the same.  When the two lists are prints of literals, out.txt
    receives the records of the list taken, in order, and no other. *)
Theorem if_runs_one_branch
    (lb : string) (cond : Node) (bl : string) (thenList elseList : Node)
    (biv bid iv vid : Z) (st : State) (cond_val : Z) (st1 : State) :
  let stmt := mkNode lb cond (mkNode bl thenList elseList N_BRANCHES biv bid)
                     N_IF iv vid in
  eval_expr cond (print_tree_header stmt st) = Value cond_val st1 ->
  (cond_val <> 0 -> execute_stmt stmt st = execute_list thenList st1) /\
  (cond_val = 0 -> execute_stmt stmt st = execute_list elseList st1) /\
  (cond_val = 0 -> elseList = NULL -> execute_stmt stmt st = Ok st1) /\
  (cond_val <> 0 -> forall other,
      agree_run (execute_stmt stmt st)
                (execute_stmt (mkNode lb cond (mkNode bl thenList other N_BRANCHES biv bid)
                                      N_IF iv vid) st)) /\
  (cond_val = 0 -> forall other,
      agree_run (execute_stmt stmt st)
                (execute_stmt (mkNode lb cond (mkNode bl other elseList N_BRANCHES biv bid)
                                      N_IF iv vid) st)) /\
  (forall thens elses : list Z,
      thenList = stmts_of (map print_literal thens) ->
      elseList = stmts_of (map print_literal elses) ->
      exists st',
        execute_stmt stmt st = Ok st' /\
        yyout st' = yyout st ++ print_records (if cond_val =? 0 then elses else thens) /\
        sym st' = sym st /\ yyError st' = yyError st1).
Proof.
  intros stmt Hc.
  assert (Hthen : cond_val <> 0 -> execute_stmt stmt st = execute_list thenList st1).
  { intros H. unfold stmt at 1. rewrite (execute_stmt_unfold (mkNode _ _ _ _ _ _)).
    cbn zeta. fold stmt. rewrite Hc.
    apply Z.eqb_neq in H. now rewrite H. }
  assert (Helse : cond_val = 0 -> execute_stmt stmt st = execute_list elseList st1).
  { intros H. unfold stmt at 1. rewrite (execute_stmt_unfold (mkNode _ _ _ _ _ _)).
    cbn zeta. fold stmt. rewrite Hc. now subst cond_val. }
  split; [exact Hthen|]. split; [exact Helse|]. split; [|split; [|split]].
  - intros H ->. rewrite (Helse H). now rewrite execute_list_unfold.
  - intros H other. rewrite (Hthen H).
    destruct (eval_condition_any_branches _ _ _ _ _ thenList other _ _ _ _ _ _ _ Hc)
      as (s & Hs & Ha).
    rewrite (execute_stmt_unfold (mkNode _ _ _ _ _ _)). cbn zeta.
    rewrite Hs. apply Z.eqb_neq in H. rewrite H. cbn [negb].
    now apply exec_agree.
  - intros H other. rewrite (Helse H).
    destruct (eval_condition_any_branches _ _ _ _ _ other elseList _ _ _ _ _ _ _ Hc)
      as (s & Hs & Ha).
    rewrite (execute_stmt_unfold (mkNode _ _ _ _ _ _)). cbn zeta.
    rewrite Hs, H. cbn [negb Z.eqb].
    now apply exec_agree.
  - intros thens elses Ht He.
    assert (H1 : yyout st1 = yyout st /\ sym st1 = sym st).
    { rewrite (eval_expr_yyout _ _ _ _ Hc), (eval_expr_sym _ _ _ _ Hc).
      split; reflexivity. }
    destruct H1 as [Ho Hs].
    destruct (Z.eqb_spec cond_val 0) as [E|E].
    + rewrite (Helse E), He.
      destruct (execute_list_print_literals elses st1)
        as (st' & H1 & H2 & H3 & H4 & _).
      exists st'. rewrite H2, H3, H4, Ho, Hs. auto.
    + rewrite (Hthen E), Ht.
      destruct (execute_list_print_literals thens st1)
        as (st' & H1 & H2 & H3 & H4 & _).
      exists st'. rewrite H2, H3, H4, Ho, Hs. auto.
Qed.

Lemma if_runs_one_branch_witness :
  (exists st',
     execute_stmt if_true_else (initial_state 1) = Ok st' /\
     yyout st' = "Print: 1" ++ nl /\
     sym st' = sym (initial_state 1) /\ yyError st' = "") /\
  (exists st',
     execute_stmt if_false_no_else (initial_state 1) = Ok st' /\
     yyout st' = "" /\ yyError st' = "") /\
  agree_run (execute_stmt if_true_else (initial_state 1))
            (execute_stmt
               (IfStatement_else
                  (new_op_node "==" (new_int_node 1) (new_int_node 1))
                  (stmts_of [new_print_node (new_int_node 1)])
                  (stmts_of [new_decl_node NULL NULL]))
               (initial_state 1)).
Proof.
  split; [|split].
  - exact (proj2 (proj2 (proj2 (proj2 (proj2
             (if_runs_one_branch "if"
                (new_op_node "==" (new_int_node 1) (new_int_node 1)) "branches"
                (stmts_of [new_print_node (new_int_node 1)])
                (stmts_of [new_print_node (new_int_node 2)])
                0 (-1) 0 (-1) (initial_state 1) 1
                (print_tree_header if_true_else (initial_state 1))
                eq_refl))))) [1] [2] eq_refl eq_refl).
  - exists (print_tree_header if_false_no_else (initial_state 1)).
    split; [|split; reflexivity].
    exact (proj1 (proj2 (proj2
             (if_runs_one_branch "if"
                (new_op_node "==" (new_int_node 1) (new_int_node 2)) "branches"
                (stmts_of [new_print_node (new_int_node 1)]) NULL
                0 (-1) 0 (-1) (initial_state 1) 0
                (print_tree_header if_false_no_else (initial_state 1))
                eq_refl))) eq_refl eq_refl).
  - exact (proj1 (proj2 (proj2 (proj2
             (if_runs_one_branch "if"
                (new_op_node "==" (new_int_node 1) (new_int_node 1)) "branches"
                (stmts_of [new_print_node (new_int_node 1)])
                (stmts_of [new_print_node (new_int_node 2)])
                0 (-1) 0 (-1) (initial_state 1) 1
                (print_tree_header if_true_else (initial_state 1))
                eq_refl)))) ltac:(discriminate) (stmts_of [new_decl_node NULL NULL])).
Defined.

Example if_false_no_else_is_silent :
  exists st', program (stmts_of [if_false_no_else]) 1 = Ok st' /\
    yyout st' = "" /\ yyError st' = "" /\ sym st' = sym (initial_state 1).
Proof. eexists. split; [vm_compute; reflexivity | repeat split]. Qed.

Example if_true_else_prints_1 :
  exists st', program (stmts_of [if_true_else]) 1 = Ok st' /\
    yyout st' = "Print: 1" ++ nl.
Proof. eexists. split; [vm_compute; reflexivity | reflexivity]. Qed.

(** ** Statements whose expression has a value *)

Lemma in_range_true (id : Z) : 0 <= id < 256 -> (0 <=? id) && (id <? 256) = true.
Proof. intros H. apply andb_true_intro. split; [apply Z.leb_le | apply Z.ltb_lt]; lia. Qed.

Lemma execute_stmt_decl lb vl va vb viv id e iv vid st val st1 :
  0 <= id < 256 ->
  let stmt := mkNode lb (mkNode vl va vb N_VAR viv id) e N_DECL iv vid in
  eval_expr e (print_tree_header stmt st) = Value val st1 ->
  execute_stmt stmt st =
  Ok (fprintf_yyout ("Declared var[" ++ fmt_d id ++ "] = " ++ fmt_d val ++ nl)
        (set_sym id val st1)).
Proof.
  intros Hid stmt He. unfold stmt at 1.
  rewrite (execute_stmt_unfold (mkNode _ _ _ _ _ _)). cbn zeta. fold stmt.
  rewrite He. now rewrite in_range_true.
Qed.

Lemma execute_stmt_assign lb vl va vb viv id e iv vid st val st1 :
  0 <= id < 256 ->
  let stmt := mkNode lb (mkNode vl va vb N_VAR viv id) e N_ASSIGN iv vid in
  eval_expr e (print_tree_header stmt st) = Value val st1 ->
  execute_stmt stmt st =
  Ok (fprintf_yyout ("Assigned var[" ++ fmt_d id ++ "] = " ++ fmt_d val ++ nl)
        (set_sym id val st1)).
Proof.
  intros Hid stmt He. unfold stmt at 1.
  rewrite (execute_stmt_unfold (mkNode _ _ _ _ _ _)). cbn zeta. fold stmt.
  rewrite He. now rewrite in_range_true.
Qed.

Lemma execute_stmt_print lb e r iv vid st val st1 :
  let stmt := mkNode lb e r N_PRINT iv vid in
  eval_expr e (print_tree_header stmt st) = Value val st1 ->
  execute_stmt stmt st = Ok (fprintf_yyout ("Print: " ++ fmt_d val ++ nl) st1).
Proof.
  intros stmt He. unfold stmt at 1.
  rewrite (execute_stmt_unfold (mkNode _ _ _ _ _ _)). cbn zeta. fold stmt.
  now rewrite He.
Qed.

(** A statement whose expression meets the undefined division does not
    return. *)
Lemma execute_stmt_trap lb l r k iv vid st why :
  let stmt := mkNode lb l r k iv vid in
  (k = N_DECL \/ k = N_ASSIGN) /\
    eval_expr r (print_tree_header stmt st) = Trap why \/
  (k = N_PRINT \/ k = N_IF) /\
    eval_expr l (print_tree_header stmt st) = Trap why ->
  execute_stmt stmt st = Undefined why.
Proof.
  intros stmt H. unfold stmt at 1.
  rewrite (execute_stmt_unfold (mkNode _ _ _ _ _ _)). cbn zeta. fold stmt.
  destruct H as [[[-> | ->] E] | [[-> | ->] E]]; now rewrite E.
Qed.

Lemma sym_header n st : sym (print_tree_header n st) = sym st.
Proof. now destruct n. Qed.

Lemma yyout_header n st : yyout (print_tree_header n st) = yyout st.
Proof. now destruct n. Qed.

Lemma yyError_header n st : yyError (print_tree_header n st) = yyError st.
Proof. now destruct n. Qed.

Lemma yylineno_header n st : yylineno (print_tree_header n st) = yylineno st.
Proof. now destruct n. Qed.

(** A statement that returns hands its state to the statements after it,
    wherever it stands in the list. *)
Lemma continues_intro (stmt : Node) (st st' : State) :
  execute_stmt stmt st = Ok st' -> continues stmt st st'.
Proof.
  intros H. split; [exact H|]. intros before after st0 Hb.
  rewrite execute_list_stmts_of, fold_left_app, <- execute_list_stmts_of, Hb.
  cbn [fold_left and_then]. now rewrite H.
Qed.

(** ** Division by zero *)

Lemma eval_expr_div_zero (l r : Node) (iv vid L : Z) (st st1 st2 : State) :
  eval_expr l st = Value L st1 ->
  eval_expr r st1 = Value 0 st2 ->
  eval_expr (mkNode "/" l r N_OP iv vid) st =
  Value 0 (yyerror "Division by zero" st2).
Proof. intros Hl Hr. cbn [eval_expr]. rewrite Hl, Hr. reflexivity. Qed.

(** The same from a state that differs in tree.txt only, as the state is
    in which a statement evaluates its expression. *)
Lemma eval_expr_div_zero_agree (l r : Node) (iv vid L : Z) (st st1 st2 s : State) :
  eval_expr l st = Value L st1 ->
  eval_expr r st1 = Value 0 st2 ->
  agree st s ->
  exists s3,
    eval_expr (mkNode "/" l r N_OP iv vid) s = Value 0 s3 /\
    agree s3 (yyerror "Division by zero" st2).
Proof.
  intros Hl Hr Ha.
  pose proof (eval_expr_agree l st s Ha) as H1. rewrite Hl in H1.
  destruct (eval_expr l s) as [L' s1|] eqn:El; [|contradiction].
  destruct H1 as [<- H1].
  pose proof (eval_expr_agree r st1 s1 H1) as H2. rewrite Hr in H2.
  destruct (eval_expr r s1) as [R' s2|] eqn:Er; [|contradiction].
  destruct H2 as [<- H2].
  eexists. split; [exact (eval_expr_div_zero _ _ _ _ _ _ _ _ El Er)|].
  now apply agree_sym, agree_yyerror.
Qed.

(** C3. A ["/"] node whose operands have values, the right one 0, writes
    the line [Error: Division by zero at line <yylineno>] to the diagnostics
    and has the value 0; nothing else changes, and the run goes on.  The
    operator above it goes on to its right operand with 0 for the quotient.
    A print, a declaration or an assignment of such a node records the
    value 0 and hands over to the statements after it, wherever it stands
    in the list; an [if] on it runs its else-list, and an [if] whose
    condition compares it runs as it does on the literal 0, after the
    report. *)
Theorem division_by_zero_is_reported
    (l r : Node) (iv vid L : Z) (st st1 st2 : State) :
  let d := mkNode "/" l r N_OP iv vid in
  let st3 := yyerror "Division by zero" st2 in
  eval_expr l st = Value L st1 ->
  eval_expr r st1 = Value 0 st2 ->
  (eval_expr d st = Value 0 st3 /\
   yyError st3 =
     yyError st2 ++ "Error: Division by zero at line " ++ fmt_d (yylineno st) ++ nl /\
   sym st3 = sym st /\ yyout st3 = yyout st /\ yytree st3 = yytree st) /\
  (forall op e iv' vid',
      eval_expr (mkNode op d e N_OP iv' vid') st =
      eval_expr (mkNode op (new_int_node 0) e N_OP iv' vid') st3) /\
  (exists st',
      continues (new_print_node d) st st' /\
      agree st' (fprintf_yyout ("Print: 0" ++ nl) st3)) /\
  (forall id, 0 <= id < 256 ->
      exists st',
        continues (new_decl_node (new_var_node id) d) st st' /\
        agree st' (fprintf_yyout ("Declared var[" ++ fmt_d id ++ "] = 0" ++ nl)
                     (set_sym id 0 st3))) /\
  (forall id, 0 <= id < 256 ->
      exists st',
        continues (new_assign_node (new_var_node id) d) st st' /\
        agree st' (fprintf_yyout ("Assigned var[" ++ fmt_d id ++ "] = 0" ++ nl)
                     (set_sym id 0 st3))) /\
  (forall thenList elseList,
      agree_run (execute_stmt (new_if_node d thenList elseList) st)
                (execute_list elseList st3)) /\
  (forall op e thenList elseList,
      agree_run
        (execute_stmt (new_if_node (new_op_node op d e) thenList elseList) st)
        (execute_stmt
           (new_if_node (new_op_node op (new_int_node 0) e) thenList elseList)
           st3)).
Proof.
  intros d st3 Hl Hr.
  assert (Hd : eval_expr d st = Value 0 st3)
    by exact (eval_expr_div_zero _ _ _ _ _ _ _ _ Hl Hr).
  assert (Hs : forall stmt, exists s3,
             eval_expr d (print_tree_header stmt st) = Value 0 s3 /\ agree s3 st3).
  { intros stmt.
    apply (eval_expr_div_zero_agree l r iv vid L st st1 st2 _ Hl Hr).
    apply agree_sym, agree_print_tree_header. }
  split; [|split; [|split; [|split; [|split; [|split]]]]].
  - split; [exact Hd|]. subst st3. cbn [yyerror sym yyout yytree yyError yylineno].
    rewrite (eval_expr_sym _ _ _ _ Hr), (eval_expr_sym _ _ _ _ Hl),
      (eval_expr_yyout _ _ _ _ Hr), (eval_expr_yyout _ _ _ _ Hl),
      (eval_expr_yytree _ _ _ _ Hr), (eval_expr_yytree _ _ _ _ Hl),
      (eval_expr_yylineno _ _ _ _ Hr), (eval_expr_yylineno _ _ _ _ Hl).
    repeat split.
  - intros op e iv' vid'.
    change (eval_expr (mkNode op d e N_OP iv' vid') st) with
      (match eval_expr d st with
       | Trap why => Trap why
       | Value L0 s =>
           eval_expr (mkNode op (new_int_node L0) e N_OP iv' vid') s
       end).
    now rewrite Hd.
  - destruct (Hs (new_print_node d)) as (s3 & E & Ha).
    eexists. split.
    + apply continues_intro. unfold new_print_node, new_node_kind in *.
      apply execute_stmt_print. exact E.
    + now apply agree_fprintf_yyout.
  - intros id Hid.
    destruct (Hs (new_decl_node (new_var_node id) d)) as (s3 & E & Ha).
    eexists. split.
    + apply continues_intro.
      unfold new_decl_node, new_var_node, new_node_kind in *.
      apply execute_stmt_decl; [exact Hid | exact E].
    + now apply agree_fprintf_yyout, agree_set_sym.
  - intros id Hid.
    destruct (Hs (new_assign_node (new_var_node id) d)) as (s3 & E & Ha).
    eexists. split.
    + apply continues_intro.
      unfold new_assign_node, new_var_node, new_node_kind in *.
      apply execute_stmt_assign; [exact Hid | exact E].
    + now apply agree_fprintf_yyout, agree_set_sym.
  - intros thenList elseList.
    destruct (Hs (new_if_node d thenList elseList)) as (s3 & E & Ha).
    unfold new_if_node, new_node_kind in *.
    rewrite (execute_stmt_unfold (mkNode _ _ _ N_IF _ _)). cbn zeta.
    rewrite E. cbn [Z.eqb negb]. now apply exec_agree.
  - intros op e thenList elseList.
    destruct (Hs (new_if_node (new_op_node op d e) thenList elseList))
      as (s3 & E & Ha).
    unfold new_if_node, new_op_node, new_node_kind in *.
    rewrite !(execute_stmt_unfold (mkNode _ _ _ N_IF _ _)). cbn zeta.
    set (a := print_tree_header (mkNode _ (mkNode op d e _ _ _) _ _ _ _) st) in *.
    set (b := print_tree_header _ st3).
    assert (Hab : agree s3 b).
    { eapply agree_trans; [exact Ha|]. apply agree_sym, agree_print_tree_header. }
    clearbody a b.
    change (eval_expr (mkNode op d e N_OP 0 (-1)) a) with
      (match eval_expr d a with
       | Trap why => Trap why
       | Value L0 s => eval_expr (mkNode op (new_int_node L0) e N_OP 0 (-1)) s
       end).
    rewrite E.
    pose proof (eval_expr_agree (mkNode op (new_int_node 0) e N_OP 0 (-1)) s3 b Hab)
      as H.
    destruct (eval_expr (mkNode op (new_int_node 0) e N_OP 0 (-1)) s3) as [v s|u],
             (eval_expr (mkNode op (new_int_node 0) e N_OP 0 (-1)) b) as [v' s'|u'];
      cbn in H; try contradiction; [|exact H].
    destruct H as [<- H]. destruct (negb (v =? 0)); now apply exec_agree.
Qed.

Lemma division_by_zero_is_reported_witness :
  eval_expr (new_op_node "/" (new_int_node 5) (new_int_node 0)) (initial_state 7) =
  Value 0 (yyerror "Division by zero" (initial_state 7)) /\
  exists st',
    program (stmts_of [print_5_div_0; print_9]) 7 = Ok st' /\
    yyout st' = "Print: 0" ++ nl ++ "Print: 9" ++ nl /\
    yyError st' = "Error: Division by zero at line 7" ++ nl.
Proof.
  destruct (division_by_zero_is_reported
              (new_int_node 5) (new_int_node 0) 0 (-1) 5
              (initial_state 7) (initial_state 7) (initial_state 7)
              eq_refl eq_refl)
    as ((Hd & _) & _ & (st' & (_ & Hnext) & _ & _ & Ho & He) & _).
  split; [exact Hd|].
  specialize (Hnext [] [print_9] (initial_state 7)
                ltac:(vm_compute; reflexivity)).
  cbn [fold_left and_then] in Hnext.
  change print_9 with (print_literal 9) in Hnext.
  rewrite execute_stmt_print_literal in Hnext.
  eexists. split; [exact Hnext|].
  cbn [fprintf_yyout yyout yyError].
  rewrite yyout_header, yyError_header, Ho, He. split; reflexivity.
Defined.

(** ** The trace in tree.txt *)

(** C4, as stated, fails: the block of an [if] renders the whole subtree of
    the statement, both branches included.  In
    [if (1 == 2): print(1); end] the [print] is not run (out.txt stays
    empty) and yet its rendering is in tree.txt. *)
Lemma untaken_branch_is_rendered :
  exists st',
    program (stmts_of [if_false_no_else]) 1 = Ok st' /\
    yyout st' = "" /\
    rendered_in (new_print_node (new_int_node 1)) (yytree st').
Proof.
  eexists. split; [vm_compute; reflexivity|]. split; [reflexivity|].
  exists 15, (nl ++ spaces 5 ++ "branches" ++ nl).
  eexists (nl ++ spaces 10 ++ "stmtlist" ++ nl ++ nl ++ "if" ++ nl ++
           printTreeVertical (new_op_node "==" (new_int_node 1) (new_int_node 2)) 5
           ++ separator).
  vm_compute. reflexivity.
Qed.

(** C4, amended.  tree.txt receives one block per statement entered, in the
    order of entry, and nothing else; the block of a statement is written
    when the statement is entered, before anything it does.  An [if] enters
    the statements of the list it takes only: those of the other list have
    no block of their own (they show inside the block of the [if], which
    renders its whole subtree). *)
Theorem tree_has_one_block_per_entered_statement (n : Node) (st st' : State) :
  (execute_list n st = Ok st' ->
   yytree st' = yytree st ++ blocks (entered as_list n st)) /\
  (execute_stmt n st = Ok st' ->
   yytree st' = yytree st ++ blocks (entered as_stmt n st)) /\
  (n <> NULL ->
   exists nested,
     entered as_stmt n st = n :: nested /\
     yytree (print_tree_header n st) = yytree st ++ block n) /\
  (forall lb cond bl thenList elseList biv bid iv vid,
      n = mkNode lb cond (mkNode bl thenList elseList N_BRANCHES biv bid)
                 N_IF iv vid ->
      entered as_stmt n st =
      n :: match eval_expr cond (print_tree_header n st) with
           | Value cond_val st1 =>
               entered as_list
                 (if negb (cond_val =? 0) then thenList else elseList) st1
           | Trap _ => []
           end).
Proof.
  split; [apply (run_trace n as_list)|].
  split; [apply (run_trace n as_stmt)|].
  split.
  - intros Hn. destruct n as [|lb l r k iv vid]; [congruence|].
    eexists. split; [cbn [entered app]; reflexivity | now apply yytree_header].
  - intros lb cond bl thenList elseList biv bid iv vid ->.
    cbn [entered app].
    destruct (eval_expr cond _) as [v s|u]; [|reflexivity].
    now destruct (negb (v =? 0)).
Qed.

Lemma tree_has_one_block_per_entered_statement_witness :
  exists st',
    execute_stmt if_false_no_else (initial_state 1) = Ok st' /\
    yytree st' = yytree (initial_state 1) ++ blocks [if_false_no_else].
Proof.
  set (st' := match execute_stmt if_false_no_else (initial_state 1) with
              | Ok s => s
              | Undefined _ => initial_state 1
              end).
  assert (H : execute_stmt if_false_no_else (initial_state 1) = Ok st')
    by (vm_compute; reflexivity).
  exists st'. split; [exact H|].
  exact (proj1 (proj2 (tree_has_one_block_per_entered_statement
                         if_false_no_else (initial_state 1) st')) H).
Defined.

(** ** Declarations, assignments and prints *)

(** What one declaration, assignment or print does to the store and to
    out.txt, once its expression has the value [val]. *)
Lemma store_and_emit (st : State) :
  length (sym st) = 256%nat ->
  (forall lb vl va vb viv id e iv vid val st1,
      0 <= id < 256 ->
      let stmt := mkNode lb (mkNode vl va vb N_VAR viv id) e N_DECL iv vid in
      eval_expr e (print_tree_header stmt st) = Value val st1 ->
      exists st',
        execute_stmt stmt st = Ok st' /\
        sym st' = <[Z.to_nat id := val]> (sym st) /\
        nth (Z.to_nat id) (sym st') 0 = val /\
        yyout st' = yyout st ++
                    "Declared var[" ++ fmt_d id ++ "] = " ++ fmt_d val ++ nl) /\
  (forall lb vl va vb viv id e iv vid val st1,
      0 <= id < 256 ->
      let stmt := mkNode lb (mkNode vl va vb N_VAR viv id) e N_ASSIGN iv vid in
      eval_expr e (print_tree_header stmt st) = Value val st1 ->
      exists st',
        execute_stmt stmt st = Ok st' /\
        sym st' = <[Z.to_nat id := val]> (sym st) /\
        nth (Z.to_nat id) (sym st') 0 = val /\
        yyout st' = yyout st ++
                    "Assigned var[" ++ fmt_d id ++ "] = " ++ fmt_d val ++ nl) /\
  (forall lb e r iv vid val st1,
      let stmt := mkNode lb e r N_PRINT iv vid in
      eval_expr e (print_tree_header stmt st) = Value val st1 ->
      exists st',
        execute_stmt stmt st = Ok st' /\
        sym st' = sym st /\
        yyout st' = yyout st ++ "Print: " ++ fmt_d val ++ nl).
Proof.
  intros Hlen. split; [|split].
  - intros lb vl va vb viv id e iv vid val st1 Hid stmt He.
    eexists. split; [exact (execute_stmt_decl _ _ _ _ _ _ _ _ _ _ _ _ Hid He)|].
    cbn [fprintf_yyout set_sym sym yyout].
    rewrite (eval_expr_sym _ _ _ _ He), (eval_expr_yyout _ _ _ _ He),
      sym_header, yyout_header.
    split; [reflexivity|]. split; [|reflexivity].
    apply nth_insert_eq. rewrite Hlen. lia.
  - intros lb vl va vb viv id e iv vid val st1 Hid stmt He.
    eexists. split; [exact (execute_stmt_assign _ _ _ _ _ _ _ _ _ _ _ _ Hid He)|].
    cbn [fprintf_yyout set_sym sym yyout].
    rewrite (eval_expr_sym _ _ _ _ He), (eval_expr_yyout _ _ _ _ He),
      sym_header, yyout_header.
    split; [reflexivity|]. split; [|reflexivity].
    apply nth_insert_eq. rewrite Hlen. lia.
  - intros lb e r iv vid val st1 stmt He.
    eexists. split; [exact (execute_stmt_print _ _ _ _ _ _ _ _ He)|].
    cbn [fprintf_yyout sym yyout].
    now rewrite (eval_expr_sym _ _ _ _ He), (eval_expr_yyout _ _ _ _ He),
      sym_header, yyout_header.
Qed.

Lemma eval_expr_var_node (id : Z) (st : State) :
  0 <= id < 256 ->
  eval_expr (new_var_node id) st = Value (nth (Z.to_nat id) (sym st) 0) st.
Proof. intros H. cbn [new_var_node new_node_kind eval_expr]. now rewrite in_range_true. Qed.

Lemma length_sym_initial (line : Z) : length (sym (initial_state line)) = 256%nat.
Proof. cbn [initial_state sym]. apply repeat_length. Qed.

Lemma eval_expr_int_node (v : Z) (st : State) :
  eval_expr (new_int_node v) st = Value v st.
Proof. reflexivity. Qed.

Lemma eval_expr_plus (a b : Node) (st : State) (L R : Z) (st1 st2 : State) :
  eval_expr a st = Value L st1 ->
  eval_expr b st1 = Value R st2 ->
  eval_expr (new_op_node "+" a b) st = Value (wrap_int (L + R)) st2.
Proof.
  intros Ha Hb. cbn [new_op_node new_node_kind eval_expr]. now rewrite Ha, Hb.
Qed.

Lemma decl_assign_print_effects (idA line : Z) :
  0 <= idA < 256 ->
  exists st',
    program (decl_assign_print idA) line = Ok st' /\
    yyout st' = "Declared var[" ++ fmt_d idA ++ "] = 3" ++ nl ++
                "Assigned var[" ++ fmt_d idA ++ "] = 7" ++ nl ++
                "Print: 7" ++ nl.
Proof.
  intros Hid. unfold program, decl_assign_print.
  rewrite execute_list_stmts_of. cbn [fold_left and_then].
  unfold new_decl_node at 1, new_var_node at 1, new_node_kind at 1 2.
  rewrite (execute_stmt_decl _ _ _ _ _ _ _ _ _ _ 3 _ Hid (eval_expr_int_node _ _)).
  cbn [and_then].
  unfold new_assign_node at 1, new_var_node at 1, new_node_kind at 1 2.
  rewrite (execute_stmt_assign _ _ _ _ _ _ _ _ _ _ _ _ Hid
             (eval_expr_plus _ _ _ _ _ _ _
                (eval_expr_var_node _ _ Hid) (eval_expr_int_node _ _))).
  cbn [and_then].
  rewrite sym_header. cbn [fprintf_yyout set_sym sym].
  rewrite sym_header, nth_insert_eq by (rewrite length_sym_initial; lia).
  change (wrap_int (3 + 4)) with 7.
  unfold new_print_node at 1, new_node_kind at 1.
  rewrite (execute_stmt_print _ _ _ _ _ _ _ _ (eval_expr_var_node _ _ Hid)).
  rewrite sym_header. cbn [fprintf_yyout set_sym sym].
  rewrite nth_insert_eq
    by (rewrite ?length_insert, ?sym_header; cbn [fprintf_yyout set_sym sym];
        rewrite ?length_insert, ?sym_header, ?length_sym_initial; lia).
  eexists. split; [reflexivity|].
  repeat (cbn [yyout fprintf_yyout set_sym initial_state]; rewrite ?yyout_header).
  change (fmt_d 7) with "7". change (fmt_d 3) with "3".
  rewrite !append_assoc. reflexivity.
Qed.

(** C5. Run in a state whose store has its 256 slots, a declaration or an
    assignment to the variable [id] whose expression has the value [val]
    puts [val] in slot [id] and adds one record to out.txt; a print whose
    expression has the value [val] adds one record, the store untouched.  So
    [int a = 3; a = a + 4; print(a);] writes the three records
    [Declared var[a] = 3], [Assigned var[a] = 7], [Print: 7], in this
    order. *)
Theorem statements_store_and_emit :
  (forall st : State,
      length (sym st) = 256%nat ->
      (forall lb vl va vb viv id e iv vid val st1,
          0 <= id < 256 ->
          let stmt := mkNode lb (mkNode vl va vb N_VAR viv id) e N_DECL iv vid in
          eval_expr e (print_tree_header stmt st) = Value val st1 ->
          exists st',
            execute_stmt stmt st = Ok st' /\
            sym st' = <[Z.to_nat id := val]> (sym st) /\
            nth (Z.to_nat id) (sym st') 0 = val /\
            yyout st' = yyout st ++
                        "Declared var[" ++ fmt_d id ++ "] = " ++ fmt_d val ++ nl) /\
      (forall lb vl va vb viv id e iv vid val st1,
          0 <= id < 256 ->
          let stmt := mkNode lb (mkNode vl va vb N_VAR viv id) e N_ASSIGN iv vid in
          eval_expr e (print_tree_header stmt st) = Value val st1 ->
          exists st',
            execute_stmt stmt st = Ok st' /\
            sym st' = <[Z.to_nat id := val]> (sym st) /\
            nth (Z.to_nat id) (sym st') 0 = val /\
            yyout st' = yyout st ++
                        "Assigned var[" ++ fmt_d id ++ "] = " ++ fmt_d val ++ nl) /\
      (forall lb e r iv vid val st1,
          let stmt := mkNode lb e r N_PRINT iv vid in
          eval_expr e (print_tree_header stmt st) = Value val st1 ->
          exists st',
            execute_stmt stmt st = Ok st' /\
            sym st' = sym st /\
            yyout st' = yyout st ++ "Print: " ++ fmt_d val ++ nl)) /\
  (forall idA line : Z,
      0 <= idA < 256 ->
      exists st',
        program (decl_assign_print idA) line = Ok st' /\
        yyout st' = "Declared var[" ++ fmt_d idA ++ "] = 3" ++ nl ++
                    "Assigned var[" ++ fmt_d idA ++ "] = 7" ++ nl ++
                    "Print: 7" ++ nl).
Proof.
  split; [exact store_and_emit | exact decl_assign_print_effects].
Qed.

Lemma statements_store_and_emit_witness :
  (length (sym (initial_state 1)) = 256%nat /\ 0 <= 0 < 256 /\
   exists st',
     execute_stmt (new_decl_node (new_var_node 0) (new_int_node 3))
                  (initial_state 1) = Ok st' /\
     nth (Z.to_nat 0) (sym st') 0 = 3 /\
     yyout st' = "Declared var[0] = 3" ++ nl) /\
  exists st',
    program (decl_assign_print 0) 1 = Ok st' /\
    yyout st' = "Declared var[0] = 3" ++ nl ++
                "Assigned var[0] = 7" ++ nl ++
                "Print: 7" ++ nl.
Proof.
  split.
  - split; [apply length_sym_initial|]. split; [lia|].
    destruct (proj1 (proj1 statements_store_and_emit (initial_state 1)
                           (length_sym_initial 1))
                    "dec" "VAR(id=0)" NULL NULL 0 0 (new_int_node 3) 0 (-1)
                    3 _ ltac:(lia) eq_refl)
      as (st' & H1 & _ & H3 & H4).
    exists st'. split; [exact H1|]. split; [exact H3 | exact H4].
  - apply (proj2 statements_store_and_emit 0 1). lia.
Defined.

(** ** Variable references *)

Lemma nth_sym_initial (line : Z) (i : nat) : nth i (sym (initial_state line)) 0 = 0.
Proof. cbn [initial_state sym]. apply nth_repeat. Qed.

(** C6. A [N_VAR] node reads slot [var_id] of [sym] when the id is in
    [0, 256) and is 0 otherwise, without a diagnostic.  [sym] has 256 slots,
    all 0 when the run starts, and a run changes only the slots its
    declarations and assignments name: after any program, a variable the
    program never stores to reads 0. *)
Theorem variable_reads_the_store :
  (forall lb l r iv id st,
      eval_expr (mkNode lb l r N_VAR iv id) st =
      Value (if (0 <=? id) && (id <? 256) then nth (Z.to_nat id) (sym st) 0 else 0)
            st) /\
  (forall line,
      length (sym (initial_state line)) = 256%nat /\
      forall i, nth i (sym (initial_state line)) 0 = 0) /\
  (forall prog line st' id,
      program prog line = Ok st' ->
      ~ In id (targets prog) ->
      length (sym st') = 256%nat /\
      eval_expr (new_var_node id) st' = Value 0 st') /\
  (forall lb l r iv id st,
      ~ 0 <= id < 256 ->
      eval_expr (mkNode lb l r N_VAR iv id) st = Value 0 st).
Proof.
  split; [|split; [|split]].
  - intros. cbn [eval_expr]. now destruct ((0 <=? id) && (id <? 256)).
  - intros line. split; [apply length_sym_initial | apply nth_sym_initial].
  - intros prog line st' id Hrun Hid.
    destruct (run_keeps prog as_list _ _ Hrun) as (_ & Hlen & Hkeep).
    split; [now rewrite Hlen, length_sym_initial|].
    cbn [new_var_node new_node_kind eval_expr].
    destruct ((0 <=? id) && (id <? 256)) eqn:E; [|reflexivity].
    apply andb_prop in E as [E _]. apply Z.leb_le in E.
    now rewrite (Hkeep id E Hid), nth_sym_initial.
  - intros lb l r iv id st Hid. cbn [eval_expr].
    destruct ((0 <=? id) && (id <? 256)) eqn:E; [|reflexivity].
    apply andb_prop in E as [E1 E2]. apply Z.leb_le in E1. apply Z.ltb_lt in E2.
    lia.
Qed.

Lemma variable_reads_the_store_witness :
  (exists st',
      program (decl_assign_print 0) 1 = Ok st' /\
      ~ In 5 (targets (decl_assign_print 0)) /\
      eval_expr (new_var_node 5) st' = Value 0 st') /\
  (~ 0 <= 256 < 256 /\
   eval_expr (new_var_node 256) (initial_state 1) = Value 0 (initial_state 1)).
Proof.
  assert (Hn : ~ In 5 (targets (decl_assign_print 0))).
  { cbn. intuition discriminate. }
  split.
  - set (st' := match program (decl_assign_print 0) 1 with
                | Ok s => s
                | Undefined _ => initial_state 1
                end).
    assert (H : program (decl_assign_print 0) 1 = Ok st') by (vm_compute; reflexivity).
    exists st'. split; [exact H|]. split; [exact Hn|].
    exact (proj2 (proj1 (proj2 (proj2 variable_reads_the_store))
                        (decl_assign_print 0) 1 st' 5 H Hn)).
  - assert (Hr : ~ 0 <= 256 < 256) by lia.
    split; [exact Hr|].
    exact (proj2 (proj2 (proj2 variable_reads_the_store))
                 "VAR(id=256)" NULL NULL 0 256 (initial_state 1) Hr).
Defined.

Example read_undeclared_variable :
  exists st', program (stmts_of [new_print_node (new_var_node 7)]) 1 = Ok st' /\
    yyout st' = "Print: 0" ++ nl.
Proof. eexists. split; [vm_compute; reflexivity | reflexivity]. Qed.

(** ** Binary operators *)

Lemma wrap_int_small (z : Z) : - 2 ^ 31 <= z < 2 ^ 31 -> wrap_int z = z.
Proof.
  unfold wrap_int. change (2 ^ 31) with 2147483648.
  change (2 ^ 32) with 4294967296. intros H.
  rewrite Z.mod_small; lia.
Qed.

Lemma bool_int_0_1 (b : bool) : bool_int b = 0 \/ bool_int b = 1.
Proof. destruct b; cbn; auto. Qed.

(** The [N_OP] case of [eval_expr] once both operands have their values. *)
Lemma eval_expr_op (lb : string) (l r : Node) (iv vid : Z) (st : State)
    (L R : Z) (st1 st2 : State) :
  eval_expr l st = Value L st1 ->
  eval_expr r st1 = Value R st2 ->
  eval_expr (mkNode lb l r N_OP iv vid) st =
  if String.eqb lb "+" then Value (wrap_int (L + R)) st2 else
  if String.eqb lb "-" then Value (wrap_int (L - R)) st2 else
  if String.eqb lb "*" then Value (wrap_int (L * R)) st2 else
  if String.eqb lb "/" then
    if R =? 0 then Value 0 (yyerror "Division by zero" st2)
    else if div_overflows L R then Trap DivOverflow
    else Value (wrap_int (L ÷ R)) st2
  else
  if String.eqb lb "==" then Value (bool_int (L =? R)) st2 else
  if String.eqb lb "!=" then Value (bool_int (negb (L =? R))) st2 else
  if String.eqb lb "<=" then Value (bool_int (L <=? R)) st2 else
  if String.eqb lb ">=" then Value (bool_int (L >=? R)) st2 else
  if String.eqb lb "<" then Value (bool_int (L <? R)) st2 else
  if String.eqb lb ">" then Value (bool_int (L >? R)) st2 else
  Value 0 (yyerror "Unknown operator in eval_expr" st2).
Proof. intros Hl Hr. cbn [eval_expr]. now rewrite Hl, Hr. Qed.

(** An operand that does not return ends the evaluation of the node: the
    right operand is not reached when the left one stops, and no operator
    is applied. *)
Lemma eval_expr_op_trap (lb : string) (l r : Node) (iv vid : Z) (st : State)
    (why : UB) :
  (eval_expr l st = Trap why ->
   eval_expr (mkNode lb l r N_OP iv vid) st = Trap why) /\
  (forall L st1,
      eval_expr l st = Value L st1 -> eval_expr r st1 = Trap why ->
      eval_expr (mkNode lb l r N_OP iv vid) st = Trap why).
Proof.
  split.
  - intros Hl. cbn [eval_expr]. now rewrite Hl.
  - intros L st1 Hl Hr. cbn [eval_expr]. now rewrite Hl, Hr.
Qed.

(** What the code does on every operator node whose operands have values:
    the left operand first, the right one in the state the left one leaves;
    [+ - *] and the six comparisons always return, [/] returns unless the
    divisor is -1 and the dividend [INT_MIN]. *)
Lemma operands_left_then_right
    (lb : string) (l r : Node) (iv vid : Z) (st : State)
    (L R : Z) (st1 st2 : State) :
  let n := mkNode lb l r N_OP iv vid in
  eval_expr l st = Value L st1 ->
  eval_expr r st1 = Value R st2 ->
  (lb = "+" -> eval_expr n st = Value (wrap_int (L + R)) st2) /\
  (lb = "-" -> eval_expr n st = Value (wrap_int (L - R)) st2) /\
  (lb = "*" -> eval_expr n st = Value (wrap_int (L * R)) st2) /\
  (lb = "/" -> R <> 0 -> div_overflows L R = false ->
   eval_expr n st = Value (wrap_int (L ÷ R)) st2) /\
  (lb = "/" -> div_overflows L R = true -> eval_expr n st = Trap DivOverflow) /\
  (lb = "==" -> eval_expr n st = Value (if L =? R then 1 else 0) st2) /\
  (lb = "!=" -> eval_expr n st = Value (if L =? R then 0 else 1) st2) /\
  (lb = "<=" -> eval_expr n st = Value (if L <=? R then 1 else 0) st2) /\
  (lb = ">=" -> eval_expr n st = Value (if L >=? R then 1 else 0) st2) /\
  (lb = "<" -> eval_expr n st = Value (if L <? R then 1 else 0) st2) /\
  (lb = ">" -> eval_expr n st = Value (if L >? R then 1 else 0) st2).
Proof.
  intros n Hl Hr. unfold n. rewrite (eval_expr_op _ _ _ _ _ _ _ _ _ _ Hl Hr).
  repeat split; try (intros ->; cbn [String.eqb Ascii.eqb Bool.eqb]).
  all: try reflexivity.
  - intros HR Ho. apply Z.eqb_neq in HR. now rewrite HR, Ho.
  - intros Ho. rewrite Ho. unfold div_overflows in Ho.
    apply andb_prop in Ho as [_ Ho]. apply Z.eqb_eq in Ho. now subst R.
  - now destruct (L =? R).
Qed.

(** C7 fails at the one quotient of two [int]s that is not an [int]: the
    divisor is tested against 0 only, so [(0 - 2147483647 - 1) / (0 - 1)]
    has both operands evaluated, to [INT_MIN] and -1, and then divides
    them, which C does not define; no value is returned, the statement
    holding the expression writes no record and no later statement runs. *)
Theorem division_overflow_is_not_guarded (st : State) :
  eval_expr (new_op_node "-" (new_op_node "-" (new_int_node 0) (new_int_node 2147483647))
                         (new_int_node 1)) st = Value INT_MIN st /\
  eval_expr (new_op_node "-" (new_int_node 0) (new_int_node 1)) st = Value (-1) st /\
  eval_expr int_min_div_minus_1 st = Trap DivOverflow /\
  execute_stmt (new_print_node int_min_div_minus_1) st = Undefined DivOverflow /\
  (forall after,
      execute_list (stmts_of (new_print_node int_min_div_minus_1 :: after)) st =
      Undefined DivOverflow).
Proof.
  assert (H : forall s, eval_expr int_min_div_minus_1 s = Trap DivOverflow)
    by reflexivity.
  assert (Hp : execute_stmt (new_print_node int_min_div_minus_1) st =
               Undefined DivOverflow).
  { apply execute_stmt_trap. right. split; [now left | apply H]. }
  split; [reflexivity|]. split; [reflexivity|]. split; [apply H|].
  split; [exact Hp|].
  intros after. rewrite execute_list_stmts_of. cbn [fold_left and_then].
  rewrite Hp. induction after as [|s after IH]; [reflexivity | exact IH].
Qed.

Example comparisons_print_0_or_1 :
  exists st',
    program (stmts_of [new_print_node (new_op_node "<=" (new_int_node 3) (new_int_node 3));
                       new_print_node (new_op_node "<" (new_int_node 3) (new_int_node 3))])
            1 = Ok st' /\
    yyout st' = "Print: 1" ++ nl ++ "Print: 0" ++ nl.
Proof. eexists. split; [vm_compute; reflexivity | reflexivity]. Qed.

(** ** The shape of an if node *)

(** C8, as stated, fails: without [ELSE] the grammar passes a null pointer
    for the else-list, and that null pointer is what the holder keeps. *)
Lemma no_else_branch_is_null :
  right_of (right_of if_false_no_else) = NULL.
Proof. reflexivity. Qed.

(** C8, amended.  [new_if_node] always builds an [N_IF] node whose left
    child is the condition and whose right child is a holder, never null,
    of kind [N_BRANCHES], with the then-list on the left and the else-list
    on the right.  Without [ELSE] the else-list in the holder is the null
    pointer, the same value an [else:] with an empty block gives. *)
Theorem if_node_has_uniform_shape (cond thenList elseList : Node) :
  let n := new_if_node cond thenList elseList in
  kind_of n = N_IF /\
  left_of n = cond /\
  right_of n <> NULL /\
  kind_of (right_of n) = N_BRANCHES /\
  left_of (right_of n) = thenList /\
  right_of (right_of n) = elseList /\
  IfStatement_else cond thenList elseList = n /\
  IfStatement_noelse cond thenList = new_if_node cond thenList NULL /\
  right_of (right_of (IfStatement_noelse cond thenList)) = NULL /\
  IfStatement_noelse cond thenList = IfStatement_else cond thenList stmts_empty.
Proof.
  cbn. repeat split. discriminate.
Qed.

(** ** Malformed declarations and assignments *)

(** C9. A declaration or an assignment whose left child is a node of
    another kind than [N_VAR], and whose right-hand side has a value: one
    diagnostic, after those of the right-hand side; the store and out.txt
    as they were; the statements after it run, from the state with the
    diagnostic, wherever the statement stands in the list. *)
Theorem non_variable_left_side_is_reported
    (lb vl : string) (va vb e : Node) (k : Kind) (viv vid' iv vid : Z)
    (decl : bool) (st : State) (val : Z) (st1 : State) :
  let stmt := mkNode lb (mkNode vl va vb k viv vid') e
                     (if decl then N_DECL else N_ASSIGN) iv vid in
  let msg := if decl then "Declaration left side is not a variable"
             else "Assignment left side is not a variable" in
  k <> N_VAR ->
  eval_expr e (print_tree_header stmt st) = Value val st1 ->
  execute_stmt stmt st = Ok (yyerror msg st1) /\
  sym (yyerror msg st1) = sym st /\
  yyout (yyerror msg st1) = yyout st /\
  yyError (yyerror msg st1) = yyError st1 ++ error_line msg (yylineno st) /\
  continues stmt st (yyerror msg st1).
Proof.
  intros stmt msg Hk He.
  assert (H : execute_stmt stmt st = Ok (yyerror msg st1)).
  { unfold stmt at 1. rewrite (execute_stmt_unfold (mkNode _ _ _ _ _ _)).
    cbn zeta. fold stmt. subst msg.
    destruct decl; rewrite He; destruct k; congruence. }
  split; [exact H|].
  cbn [yyerror sym yyout yyError yylineno].
  rewrite (eval_expr_sym _ _ _ _ He), (eval_expr_yyout _ _ _ _ He),
    (eval_expr_yylineno _ _ _ _ He), sym_header, yyout_header, yylineno_header.
  split; [reflexivity|]. split; [reflexivity|]. split; [reflexivity|].
  now apply continues_intro.
Qed.

Lemma non_variable_left_side_is_reported_witness :
  N_INT <> N_VAR /\
  exists st',
    execute_list (stmts_of [new_decl_node (new_int_node 1) (new_int_node 3);
                            print_9]) (initial_state 4) = Ok st' /\
    sym st' = sym (initial_state 4) /\
    yyout st' = "Print: 9" ++ nl /\
    yyError st' = "Error: Declaration left side is not a variable at line 4" ++ nl.
Proof.
  assert (Hk : N_INT <> N_VAR) by discriminate.
  split; [exact Hk|].
  destruct (non_variable_left_side_is_reported
              "dec" "INTEGER(1)" NULL NULL (new_int_node 3) N_INT 1 (-1) 0 (-1) true
              (initial_state 4) 3 _ Hk eq_refl)
    as (_ & _ & _ & _ & _ & Hnext).
  specialize (Hnext [] [print_9] (initial_state 4)
                ltac:(vm_compute; reflexivity)).
  cbn [fold_left and_then] in Hnext.
  change print_9 with (print_literal 9) in Hnext.
  rewrite execute_stmt_print_literal in Hnext.
  eexists. split; [exact Hnext|].
  split; [reflexivity|]. split; reflexivity.
Defined.

(** With the left child absent, [varNode->kind] is read through a null
    pointer, without the null test the [N_IF] case makes on its holder.
    The two rules that build these nodes pass [new_var_node(...)], which
    is never null. *)
Lemma null_left_side_is_dereferenced (e next : Node) (st : State) (val : Z)
    (st1 st1' : State) :
  eval_expr e (print_tree_header (new_decl_node NULL e) st) = Value val st1 ->
  eval_expr e (print_tree_header (new_assign_node NULL e) st) = Value val st1' ->
  execute_stmt (new_decl_node NULL e) st = Undefined NullDeref /\
  execute_stmt (new_assign_node NULL e) st = Undefined NullDeref /\
  execute_list (stmts_of [new_decl_node NULL e; next]) st = Undefined NullDeref /\
  execute_list (stmts_of [new_assign_node NULL e; next]) st = Undefined NullDeref.
Proof.
  intros Hd' Ha'.
  assert (Hd : execute_stmt (new_decl_node NULL e) st = Undefined NullDeref).
  { unfold new_decl_node, new_node_kind in *.
    rewrite (execute_stmt_unfold (mkNode _ _ _ _ _ _)). cbn zeta.
    now rewrite Hd'. }
  assert (Ha : execute_stmt (new_assign_node NULL e) st = Undefined NullDeref).
  { unfold new_assign_node, new_node_kind in *.
    rewrite (execute_stmt_unfold (mkNode _ _ _ _ _ _)). cbn zeta.
    now rewrite Ha'. }
  rewrite !execute_list_stmts_of. cbn [fold_left and_then]. rewrite Hd, Ha. auto.
Qed.

(** * Further lemmas on the executor *)

(** ** The renderer *)

Lemma printTreeVertical_subtree (s n : Node) (d : nat) :
  subtree_at s n d ->
  forall space, exists pre post,
    printTreeVertical n space =
    pre ++ printTreeVertical s (space + 5 * Z.of_nat d) ++ post.
Proof.
  induction 1 as [|lb l r k iv vid d H IH|lb l r k iv vid d H IH]; intros space.
  - exists "", "". cbn [String.append]. rewrite append_nil_r.
    now replace (space + 5 * Z.of_nat 0) with space by lia.
  - destruct (IH (space + 5)) as (pre & post & E).
    replace (space + 5 + 5 * Z.of_nat d) with (space + 5 * Z.of_nat (S d)) in E by lia.
    cbn [printTreeVertical]. cbn zeta. rewrite E.
    exists (printTreeVertical r (space + 5) ++ nl ++
            spaces (Z.to_nat (space + 5 - 5)) ++ lb ++ nl ++ pre), post.
    now rewrite !append_assoc.
  - destruct (IH (space + 5)) as (pre & post & E).
    replace (space + 5 + 5 * Z.of_nat d) with (space + 5 * Z.of_nat (S d)) in E by lia.
    cbn [printTreeVertical]. cbn zeta. rewrite E.
    exists pre, (post ++ nl ++ spaces (Z.to_nat (space + 5 - 5)) ++ lb ++ nl ++
                 printTreeVertical l (space + 5)).
    now rewrite !append_assoc.
Qed.

(** ** What is already in the files *)

Lemma after_files_clear (st : State) : after_files st (clear_files st) = st.
Proof. destruct st. unfold after_files, clear_files. cbn. now rewrite !append_nil_r. Qed.

Lemma after_files_assoc (st a b : State) :
  after_files (after_files st a) b = after_files st (after_files a b).
Proof. unfold after_files. cbn. now rewrite !append_assoc. Qed.

Lemma yyerror_after (m : string) (st s : State) :
  yyerror m (after_files st s) = after_files st (yyerror m s).
Proof. unfold yyerror, after_files. cbn. now rewrite !append_assoc. Qed.

Lemma fprintf_yyout_after (m : string) (st s : State) :
  fprintf_yyout m (after_files st s) = after_files st (fprintf_yyout m s).
Proof. unfold fprintf_yyout, after_files. cbn. now rewrite !append_assoc. Qed.

Lemma fprintf_yytree_after (m : string) (st s : State) :
  fprintf_yytree m (after_files st s) = after_files st (fprintf_yytree m s).
Proof. unfold fprintf_yytree, after_files. cbn. now rewrite !append_assoc. Qed.

Lemma set_sym_after (id v : Z) (st s : State) :
  set_sym id v (after_files st s) = after_files st (set_sym id v s).
Proof. reflexivity. Qed.

Lemma print_tree_header_after (n : Node) (st s : State) :
  print_tree_header n (after_files st s) = after_files st (print_tree_header n s).
Proof. destruct n; [reflexivity|]. cbn [print_tree_header]. now rewrite !fprintf_yytree_after. Qed.

Lemma eval_expr_after (n : Node) :
  forall st s,
    eval_expr n (after_files st s) = eval_after_files st (eval_expr n s).
Proof.
  induction n as [|lb l IHl r IHr k iv vid]; intros st s; [reflexivity|].
  destruct k; cbn [eval_expr eval_after_files];
    try (now rewrite yyerror_after); try reflexivity.
  - now destruct ((0 <=? vid) && (vid <? 256)).
  - rewrite IHl. destruct (eval_expr l s) as [L s1|u];
      cbn [eval_after_files]; [|reflexivity].
    rewrite IHr. destruct (eval_expr r s1) as [R s2|u];
      cbn [eval_after_files]; [|reflexivity].
    split_ifs; cbn [eval_after_files]; try reflexivity; now rewrite yyerror_after.
Qed.

Lemma run_after_files_and_then (st : State) (r : Run) (k : State -> Run) :
  (forall s, k (after_files st s) = run_after_files st (k s)) ->
  and_then (run_after_files st r) k = run_after_files st (and_then r k).
Proof. intros H. destruct r as [s|u]; cbn; [apply H | reflexivity]. Qed.

Lemma store_after (what msg : string) (l : Node) (val : Z) (st s : State) :
  match l with
  | NULL => Undefined NullDeref
  | mkNode _ _ _ N_VAR _ id =>
      if (0 <=? id) && (id <? 256)
      then Ok (fprintf_yyout (what ++ fmt_d id ++ "] = " ++ fmt_d val ++ nl)
                 (set_sym id val (after_files st s)))
      else Undefined OutOfBounds
  | _ => Ok (yyerror msg (after_files st s))
  end =
  run_after_files st
    match l with
    | NULL => Undefined NullDeref
    | mkNode _ _ _ N_VAR _ id =>
        if (0 <=? id) && (id <? 256)
        then Ok (fprintf_yyout (what ++ fmt_d id ++ "] = " ++ fmt_d val ++ nl)
                   (set_sym id val s))
        else Undefined OutOfBounds
    | _ => Ok (yyerror msg s)
    end.
Proof.
  destruct l as [|? ? ? [] ? id]; cbn [run_after_files]; try reflexivity;
    try (now rewrite yyerror_after).
  destruct ((0 <=? id) && (id <? 256)); cbn [run_after_files]; [|reflexivity].
  now rewrite set_sym_after, fprintf_yyout_after.
Qed.

Lemma run_after (n : Node) :
  forall e st s, run e n (after_files st s) = run_after_files st (run e n s).
Proof.
  induction n as [n IH] using Node_size_ind.
  destruct n as [|lb l r k iv vid].
  { intros [] st s; cbn [run]; rewrite ?execute_stmt_unfold, ?execute_list_unfold;
      reflexivity. }
  assert (Hseq : forall st s,
            and_then (execute_list l (after_files st s)) (execute_stmt r) =
            run_after_files st (and_then (execute_list l s) (execute_stmt r))).
  { intros st s. pose proof (IH l ltac:(cbn; lia) as_list st s) as Hl.
    cbn [run] in Hl. rewrite Hl.
    apply run_after_files_and_then. intros s1.
    apply (IH r ltac:(cbn; lia) as_stmt). }
  assert (Hstmt : forall st s,
            execute_stmt (mkNode lb l r k iv vid) (after_files st s) =
            run_after_files st (execute_stmt (mkNode lb l r k iv vid) s)).
  { intros st s. rewrite !(execute_stmt_unfold (mkNode _ _ _ _ _ _)). cbn zeta.
    rewrite print_tree_header_after.
    generalize (print_tree_header (mkNode lb l r k iv vid) s) as s0. intros s0.
    destruct k; try (cbn [run_after_files]; now rewrite yyerror_after).
    - rewrite eval_expr_after. destruct (eval_expr r s0) as [v s1|u];
        cbn [eval_after_files run_after_files]; [|reflexivity].
      apply (store_after "Declared var[").
    - rewrite eval_expr_after. destruct (eval_expr r s0) as [v s1|u];
        cbn [eval_after_files run_after_files]; [|reflexivity].
      apply (store_after "Assigned var[").
    - rewrite eval_expr_after. destruct (eval_expr l s0) as [v s1|u];
        cbn [eval_after_files run_after_files]; [|reflexivity].
      cbn [run_after_files]. now rewrite fprintf_yyout_after.
    - rewrite eval_expr_after. destruct (eval_expr l s0) as [v s1|u];
        cbn [eval_after_files run_after_files]; [|reflexivity].
      destruct r as [|bl tl el [] biv bid];
        try (cbn [run_after_files]; now rewrite yyerror_after).
      destruct (negb (v =? 0)).
      + apply (IH tl ltac:(cbn; lia) as_list).
      + apply (IH el ltac:(cbn; lia) as_list).
    - rewrite !(execute_list_unfold (mkNode _ _ _ _ _ _)). cbn [Kind_eqb].
      apply Hseq. }
  intros [] st s; cbn [run]; [apply Hstmt|].
  rewrite !(execute_list_unfold (mkNode _ _ _ _ _ _)).
  destruct k; cbn [Kind_eqb]; try apply Hstmt. apply Hseq.
Qed.

(** ** Diagnostics of the trees the grammar builds *)

Lemma repeat_string_app (a b : nat) (s : string) :
  repeat_string (a + b) s = repeat_string a s ++ repeat_string b s.
Proof.
  induction a as [|a IH]; cbn [repeat_string Nat.add]; [reflexivity|].
  now rewrite IH, append_assoc.
Qed.

Lemma report_div_lines (a b : nat) (st : State) :
  report (div_lines b (yylineno st)) (report (div_lines a (yylineno st)) st) =
  report (div_lines (a + b) (yylineno st)) st.
Proof. unfold div_lines. now rewrite report_report, repeat_string_app. Qed.

Lemma mem_arith_ops (lb : string) :
  mem_string lb arith_ops = true ->
  lb = "+" \/ lb = "-" \/ lb = "*" \/ lb = "/".
Proof.
  unfold mem_string, arith_ops. cbn [existsb]. rewrite !orb_true_iff.
  rewrite !String.eqb_eq. intuition discriminate.
Qed.

Lemma mem_compare_ops (lb : string) :
  mem_string lb compare_ops = true ->
  lb = "==" \/ lb = "!=" \/ lb = "<=" \/ lb = ">=" \/ lb = "<" \/ lb = ">".
Proof.
  unfold mem_string, compare_ops. cbn [existsb]. rewrite !orb_true_iff.
  rewrite !String.eqb_eq. intuition discriminate.
Qed.

(** An operator node over two operands that only report divisions by zero
    does so too, when its label is one of the ten operators. *)
Lemma eval_expr_op_div_lines (lb : string) (l r : Node) (iv vid : Z) :
  mem_string lb arith_ops = true \/ mem_string lb compare_ops = true ->
  (forall st, eval_div_lines st (eval_expr l st)) ->
  (forall st, eval_div_lines st (eval_expr r st)) ->
  forall st, eval_div_lines st (eval_expr (mkNode lb l r N_OP iv vid) st).
Proof.
  intros Hlb Hl Hr st.
  destruct (Hl st) as [E1 | (L & k1 & E1)].
  { left. now apply eval_expr_op_trap. }
  destruct (Hr (report (div_lines k1 (yylineno st)) st)) as [E2 | (R & k2 & E2)].
  { left. exact (proj2 (eval_expr_op_trap lb l r iv vid st DivOverflow) _ _ E1 E2). }
  cbn [report yylineno] in E2. fold (report (div_lines k1 (yylineno st)) st) in E2.
  rewrite report_div_lines in E2.
  rewrite (eval_expr_op _ _ _ _ _ _ _ _ _ _ E1 E2).
  assert (Hzero : yyerror "Division by zero" (report (div_lines (k1 + k2) (yylineno st)) st)
                  = report (div_lines (k1 + k2 + 1) (yylineno st)) st).
  { rewrite yyerror_report. cbn [report yylineno].
    fold (report (div_lines (k1 + k2) (yylineno st)) st).
    rewrite report_report. unfold div_lines at 2.
    rewrite repeat_string_app. cbn [repeat_string]. now rewrite append_nil_r. }
  destruct Hlb as [H|H];
    [apply mem_arith_ops in H as [ -> | [ -> | [ -> | -> ] ] ]
    |apply mem_compare_ops in H as [ -> | [ -> | [ -> | [ -> | [ -> | -> ] ] ] ] ] ];
    cbn [String.eqb Ascii.eqb Bool.eqb];
    try (right; eexists; exists (k1 + k2)%nat; reflexivity).
  destruct (R =? 0).
  - right. eexists. exists (k1 + k2 + 1)%nat. now rewrite Hzero.
  - destruct (div_overflows L R); [now left|].
    right. eexists. exists (k1 + k2)%nat. reflexivity.
Qed.

Lemma eval_expr_div_lines (e : Node) :
  is_expr e = true ->
  forall st, eval_div_lines st (eval_expr e st).
Proof.
  induction e as [|lb l IHl r IHr k iv vid]; [discriminate|].
  destruct k; try discriminate; cbn [is_expr]; intros H.
  - intros st. right. eexists. exists 0%nat. cbn. now rewrite report_nil.
  - intros st. right. cbn [eval_expr].
    destruct ((0 <=? vid) && (vid <? 256)); eexists; exists 0%nat; cbn;
      now rewrite report_nil.
  - apply andb_prop in H as [H Hr']. apply andb_prop in H as [Hlb Hl'].
    apply eval_expr_op_div_lines; auto.
Qed.

Lemma eval_condition_div_lines (c : Node) :
  is_condition c = true ->
  forall st, eval_div_lines st (eval_expr c st).
Proof.
  destruct c as [|lb l r [] iv vid]; try discriminate. cbn [is_condition]. intros H.
  apply andb_prop in H as [H Hr']. apply andb_prop in H as [Hlb Hl'].
  apply eval_expr_op_div_lines; auto using eval_expr_div_lines.
Qed.

Lemma only_div_lines_and_then (st : State) (r : Run) (f : State -> Run) :
  only_div_lines st r ->
  (forall s, only_div_lines s (f s)) ->
  only_div_lines st (and_then r f).
Proof.
  intros [-> | (s1 & k1 & -> & Hl1 & He1)] Hf; [now left|]. cbn [and_then].
  destruct (Hf s1) as [E | (s2 & k2 & E & Hl2 & He2)]; [now left|].
  right. exists s2, (k1 + k2)%nat. split; [exact E|]. split; [congruence|].
  rewrite He2, He1, Hl1. unfold div_lines.
  now rewrite repeat_string_app, append_assoc.
Qed.

Lemma run_is_stmts (n : Node) :
  forall st,
    (is_stmts n = true -> only_div_lines st (execute_list n st)) /\
    (is_stmt n = true -> only_div_lines st (execute_stmt n st)).
Proof.
  induction n as [n IH] using Node_size_ind.
  destruct n as [|lb l r k iv vid]; intros st.
  { split; [|discriminate]. intros _. rewrite execute_list_unfold.
    right. exists st, 0%nat. cbn. now rewrite append_nil_r. }
  assert (Hleaf : forall (e : Node) (f : Z -> State -> Run),
            (forall s, eval_div_lines s (eval_expr e s)) ->
            (forall v s, exists s', f v s = Ok s' /\ yylineno s' = yylineno s /\
                                    yyError s' = yyError s) ->
            only_div_lines st
              match eval_expr e (print_tree_header (mkNode lb l r k iv vid) st) with
              | Trap why => Undefined why
              | Value v s => f v s
              end).
  { intros e f He Hf.
    destruct (He (print_tree_header (mkNode lb l r k iv vid) st))
      as [E | (v & k1 & E)]; rewrite E; [now left|].
    destruct (Hf v (report (div_lines k1 (yylineno (print_tree_header
                 (mkNode lb l r k iv vid) st)))
                 (print_tree_header (mkNode lb l r k iv vid) st)))
      as (s' & -> & Hl & Hy).
    right. exists s', k1. split; [reflexivity|].
    rewrite Hl, Hy. cbn [report yylineno yyError].
    now rewrite yylineno_header, yyError_header. }
  split.
  - destruct k; try discriminate. cbn [is_stmts]. intros H.
    apply andb_prop in H as [Hl Hr].
    rewrite (execute_list_unfold (mkNode _ _ _ _ _ _)). cbn [Kind_eqb].
    apply only_div_lines_and_then.
    + now apply (IH l ltac:(cbn; lia)).
    + intros s. destruct (IH r ltac:(cbn; lia) s) as [_ H]. now apply H.
  - rewrite (execute_stmt_unfold (mkNode _ _ _ _ _ _)). cbn zeta.
    destruct k; try discriminate; cbn [is_stmt].
    + intros H. apply andb_prop in H as [Hv He].
      apply (Hleaf r); [now apply eval_expr_div_lines|].
      intros v s. destruct l as [|? ? ? [] ? id]; try discriminate.
      cbn [is_variable] in Hv. rewrite Hv. eexists. repeat split.
    + intros H. apply andb_prop in H as [Hv He].
      apply (Hleaf r); [now apply eval_expr_div_lines|].
      intros v s. destruct l as [|? ? ? [] ? id]; try discriminate.
      cbn [is_variable] in Hv. rewrite Hv. eexists. repeat split.
    + intros H. apply (Hleaf l); [now apply eval_expr_div_lines|].
      intros v s. eexists. repeat split.
    + destruct r as [|bl tl el [] biv bid]; try discriminate.
      intros H. apply andb_prop in H as [H Hel]. apply andb_prop in H as [Hc Htl].
      set (stmt := mkNode lb l _ N_IF iv vid).
      destruct (eval_condition_div_lines l Hc (print_tree_header stmt st))
        as [E | (v & k1 & E)]; rewrite E; [now left|].
      set (s1 := report _ _).
      assert (Hbranch : only_div_lines s1
                (if negb (v =? 0) then execute_list tl s1 else execute_list el s1)).
      { destruct (negb (v =? 0)).
        - now apply (IH tl ltac:(cbn; lia)).
        - now apply (IH el ltac:(cbn; lia)). }
      destruct Hbranch as [-> | (s' & k2 & -> & Hl & Hy)]; [now left|].
      right. exists s', (k1 + k2)%nat. split; [reflexivity|].
      rewrite Hl, Hy. unfold s1. cbn [report yylineno yyError].
      rewrite yylineno_header, yyError_header. split; [reflexivity|].
      unfold div_lines. now rewrite repeat_string_app, append_assoc.
Qed.

(** ** Lists of statements *)

Lemma fold_Undefined (why : UB) (l : list Node) :
  fold_left (fun done stmt => and_then done (execute_stmt stmt)) l (Undefined why)
  = Undefined why.
Proof. induction l as [|s l IH]; cbn; auto. Qed.

Lemma execute_list_app (l1 l2 : list Node) (st : State) :
  execute_list (stmts_of (l1 ++ l2)) st =
  and_then (execute_list (stmts_of l1) st) (execute_list (stmts_of l2)).
Proof.
  rewrite !execute_list_stmts_of, fold_left_app.
  destruct (fold_left _ l1 (Ok st)) as [s|u]; cbn [and_then].
  - now rewrite execute_list_stmts_of.
  - apply fold_Undefined.
Qed.

(** * Further properties of the executor *)

(** X1. The renderer draws a subtree inside the drawing of the tree that
    holds it, unchanged but for the indentation: five columns more for
    each level between the two. *)
Theorem subtree_is_rendered_indented (s n : Node) (d : nat) (space : Z) :
  subtree_at s n d ->
  exists pre post,
    printTreeVertical n space =
    pre ++ printTreeVertical s (space + 5 * Z.of_nat d) ++ post.
Proof. intros H. now apply printTreeVertical_subtree. Qed.

Lemma subtree_is_rendered_indented_witness :
  subtree_at (new_int_node 1) (new_print_node (new_int_node 1)) 1 /\
  exists pre post,
    printTreeVertical (new_print_node (new_int_node 1)) 0 =
    pre ++ printTreeVertical (new_int_node 1) (0 + 5 * Z.of_nat 1) ++ post.
Proof.
  assert (H : subtree_at (new_int_node 1) (new_print_node (new_int_node 1)) 1)
    by (apply subtree_left, subtree_here).
  split; [exact H|].
  exact (subtree_is_rendered_indented _ _ 1 0 H).
Defined.

(** X2. The three files are only appended to, and nothing that runs looks
    at what they hold: evaluating or executing from a state gives what it
    gives from the same state with empty files, with the old contents in
    front. *)
Theorem files_are_only_appended_to (n : Node) (st : State) :
  eval_expr n st = eval_after_files st (eval_expr n (clear_files st)) /\
  execute_stmt n st = run_after_files st (execute_stmt n (clear_files st)) /\
  execute_list n st = run_after_files st (execute_list n (clear_files st)).
Proof.
  split; [|split].
  - rewrite <- eval_expr_after. now rewrite after_files_clear.
  - rewrite <- (run_after n as_stmt). cbn [run]. now rewrite after_files_clear.
  - rewrite <- (run_after n as_list). cbn [run]. now rewrite after_files_clear.
Qed.

(** X3. An expression or condition of the shape the rules build reports
    nothing but divisions by zero.  Either its evaluation meets the
    quotient of [INT_MIN] by -1, which C does not define, or it returns,
    and what it added to the diagnostics is a number of [Division by zero]
    lines: the messages for an unknown operator or a node that is no
    expression never appear. *)
Theorem grammar_expression_reports_only_division_by_zero (e : Node) (st : State) :
  is_expr e = true \/ is_condition e = true ->
  eval_expr e st = Trap DivOverflow \/
  exists v k, eval_expr e st = Value v (report (div_lines k (yylineno st)) st).
Proof.
  intros [H|H];
    [now apply eval_expr_div_lines | now apply eval_condition_div_lines].
Qed.

Lemma grammar_expression_reports_only_division_by_zero_witness :
  (is_expr (new_op_node "/" (new_int_node 5) (new_int_node 0)) = true \/
   is_condition (new_op_node "/" (new_int_node 5) (new_int_node 0)) = true) /\
  (eval_expr (new_op_node "/" (new_int_node 5) (new_int_node 0))
             (initial_state 7) = Trap DivOverflow \/
   exists v k,
     eval_expr (new_op_node "/" (new_int_node 5) (new_int_node 0))
               (initial_state 7) =
     Value v (report (div_lines k (yylineno (initial_state 7))) (initial_state 7))).
Proof.
  assert (H : is_expr (new_op_node "/" (new_int_node 5) (new_int_node 0)) = true \/
              is_condition (new_op_node "/" (new_int_node 5) (new_int_node 0)) = true)
    by (left; reflexivity).
  split; [exact H|].
  exact (grammar_expression_reports_only_division_by_zero _ (initial_state 7) H).
Defined.

(** X4. A tree of the shape the rules build, its variables slots of [sym],
    reaches no null left side and no store outside [sym], from any state.
    The one operation it can meet that C does not define is the quotient
    of [INT_MIN] by -1; short of it [execute_list] returns, leaves
    [yylineno] alone, and adds nothing to the diagnostics but
    [Division by zero] lines. *)
Theorem grammar_tree_runs_defined (n : Node) (st : State) :
  is_stmts n = true ->
  execute_list n st = Undefined DivOverflow \/
  exists st' k,
    execute_list n st = Ok st' /\
    yylineno st' = yylineno st /\
    yyError st' = yyError st ++ div_lines k (yylineno st).
Proof.
  intros H. exact (proj1 (run_is_stmts n st) H).
Qed.

Lemma grammar_tree_runs_defined_witness :
  (is_stmts (stmts_of [print_5_div_0; print_9]) = true /\
   (execute_list (stmts_of [print_5_div_0; print_9]) (initial_state 7) =
      Undefined DivOverflow \/
    exists st' k,
      execute_list (stmts_of [print_5_div_0; print_9]) (initial_state 7) = Ok st' /\
      yylineno st' = yylineno (initial_state 7) /\
      yyError st' = yyError (initial_state 7) ++
                    div_lines k (yylineno (initial_state 7)))) /\
  (is_stmts (stmts_of [new_print_node int_min_div_minus_1; print_9]) = true /\
   (execute_list (stmts_of [new_print_node int_min_div_minus_1; print_9])
                 (initial_state 7) = Undefined DivOverflow \/
    exists st' k,
      execute_list (stmts_of [new_print_node int_min_div_minus_1; print_9])
                   (initial_state 7) = Ok st' /\
      yylineno st' = yylineno (initial_state 7) /\
      yyError st' = yyError (initial_state 7) ++
                    div_lines k (yylineno (initial_state 7)))).
Proof.
  split.
  - split; [reflexivity|]. apply grammar_tree_runs_defined. reflexivity.
  - split; [reflexivity|]. apply grammar_tree_runs_defined. reflexivity.
Defined.

(** X5. Running the statements [l1] followed by [l2], as one list, is
    running [l1] and then [l2] from where that ended; once a statement has
    left what C defines nothing after it counts. *)
Theorem execute_list_of_concatenation (l1 l2 : list Node) (st : State) :
  execute_list (stmts_of (l1 ++ l2)) st =
  and_then (execute_list (stmts_of l1) st) (execute_list (stmts_of l2)).
Proof. apply execute_list_app. Qed.

(** ** What is written to out.txt and outError.txt *)

Lemma lines_text_app (a b : list string) :
  lines_text (a ++ b) = lines_text a ++ lines_text b.
Proof.
  induction a as [|x a IH]; [reflexivity|].
  cbn [app lines_text fold_right]. fold (lines_text (a ++ b)).
  fold (lines_text a). now rewrite IH, append_assoc.
Qed.

Lemma writes_same (st st' : State) :
  yyout st' = yyout st -> yyError st' = yyError st ->
  yylineno st' = yylineno st -> writes st st'.
Proof.
  intros H1 H2 H3. exists [], []. cbn [map lines_text fold_right].
  rewrite !append_nil_r. auto.
Qed.

Lemma writes_trans (a b c : State) : writes a b -> writes b c -> writes a c.
Proof.
  intros (r1 & m1 & Hr1 & Hm1 & Ho1 & He1 & Hl1)
         (r2 & m2 & Hr2 & Hm2 & Ho2 & He2 & Hl2).
  exists (r1 ++ r2)%list, (m1 ++ m2)%list.
  split; [now apply Forall_app|]. split; [now apply Forall_app|].
  rewrite Ho2, Ho1, He2, He1, Hl2, Hl1, map_app, !lines_text_app, !append_assoc.
  auto.
Qed.

Lemma writes_yyerror (m : string) (st : State) :
  In m diagnostics -> writes st (yyerror m st).
Proof.
  intros H. exists [], [m]. split; [constructor|].
  split; [constructor; [exact H | constructor]|].
  cbn [map lines_text fold_right yyerror yyout yyError yylineno].
  rewrite !append_nil_r. auto.
Qed.

Lemma writes_fprintf_yyout (s : string) (st : State) :
  out_record s -> writes st (fprintf_yyout s st).
Proof.
  intros H. exists [s], []. split; [constructor; [exact H | constructor]|].
  split; [constructor|].
  cbn [map lines_text fold_right fprintf_yyout yyout yyError yylineno].
  rewrite !append_nil_r. auto.
Qed.

Lemma writes_header (n : Node) (st : State) : writes st (print_tree_header n st).
Proof.
  apply writes_same;
    [apply yyout_header | apply yyError_header | apply yylineno_header].
Qed.

Lemma writes_set_sym (id v : Z) (st : State) : writes st (set_sym id v st).
Proof. now apply writes_same. Qed.

Lemma eval_expr_writes (n : Node) :
  forall st v st', eval_expr n st = Value v st' -> writes st st'.
Proof.
  induction n as [|lb l IHl r IHr k iv vid]; intros st v st'.
  - intros [= _ <-]. now apply writes_same.
  - destruct k;
      try (cbn [eval_expr]; intros [= _ <-]; apply writes_yyerror; cbn; tauto).
    + intros [= _ <-]. now apply writes_same.
    + cbn [eval_expr]. destruct ((0 <=? vid) && (vid <? 256));
        intros [= _ <-]; now apply writes_same.
    + cbn [eval_expr].
      destruct (eval_expr l st) as [L s1|] eqn:El; [|discriminate].
      destruct (eval_expr r s1) as [R s2|] eqn:Er; [|discriminate].
      assert (H2 : writes st s2)
        by (eapply writes_trans; [eapply IHl | eapply IHr]; eassumption).
      assert (Hy : forall m, In m diagnostics -> writes st (yyerror m s2))
        by (intros m Hm; eapply writes_trans; [exact H2 | now apply writes_yyerror]).
      split_ifs; intros [= _ <-]; auto; apply Hy; cbn; tauto.
Qed.

Lemma writes_store (what msg : string) (l : Node) (val : Z) (st st' : State) :
  (forall id, out_record (what ++ fmt_d id ++ "] = " ++ fmt_d val ++ nl)) ->
  In msg diagnostics ->
  match l with
  | NULL => Undefined NullDeref
  | mkNode _ _ _ N_VAR _ id =>
      if (0 <=? id) && (id <? 256)
      then Ok (fprintf_yyout (what ++ fmt_d id ++ "] = " ++ fmt_d val ++ nl)
                 (set_sym id val st))
      else Undefined OutOfBounds
  | _ => Ok (yyerror msg st)
  end = Ok st' ->
  writes st st'.
Proof.
  intros Hrec Hmsg.
  destruct l as [|? ? ? [] ? id]; try discriminate;
    try (intros [= <-]; now apply writes_yyerror).
  destruct ((0 <=? id) && (id <? 256)); [|discriminate].
  intros [= <-]. eapply writes_trans; [apply writes_set_sym|].
  apply writes_fprintf_yyout, Hrec.
Qed.

Lemma run_writes (n : Node) :
  forall e st st', run e n st = Ok st' -> writes st st'.
Proof.
  induction n as [n IH] using Node_size_ind.
  destruct n as [|lb l r k iv vid].
  { intros [] st st'; cbn [run]; rewrite ?execute_stmt_unfold, ?execute_list_unfold;
      intros [= <-]; now apply writes_same. }
  assert (Hseq : forall st st',
            and_then (execute_list l st) (execute_stmt r) = Ok st' ->
            writes st st').
  { intros st st' H. apply and_then_Ok in H as (st1 & H1 & H2).
    eapply writes_trans.
    - apply (IH l ltac:(cbn; lia) as_list _ _ H1).
    - apply (IH r ltac:(cbn; lia) as_stmt _ _ H2). }
  assert (Hstmt : forall st st',
            execute_stmt (mkNode lb l r k iv vid) st = Ok st' -> writes st st').
  { intros st st'. rewrite (execute_stmt_unfold (mkNode _ _ _ _ _ _)). cbn zeta.
    intros H. eapply writes_trans; [apply (writes_header (mkNode lb l r k iv vid))|].
    revert H. generalize (print_tree_header (mkNode lb l r k iv vid) st) as s0.
    intros s0.
    destruct k;
      try (intros [= <-]; apply writes_yyerror; cbn; tauto).
    - destruct (eval_expr r s0) as [v s1|u] eqn:Ev; [|intros [=]].
      pose proof (eval_expr_writes _ _ _ _ Ev) as Hw. intros H.
      eapply writes_trans; [exact Hw|].
      apply (writes_store "Declared var[" "Declaration left side is not a variable"
               l v s1 st'); [| cbn; tauto | exact H].
      intros id. exists id, v. auto.
    - destruct (eval_expr r s0) as [v s1|u] eqn:Ev; [|intros [=]].
      pose proof (eval_expr_writes _ _ _ _ Ev) as Hw. intros H.
      eapply writes_trans; [exact Hw|].
      apply (writes_store "Assigned var[" "Assignment left side is not a variable"
               l v s1 st'); [| cbn; tauto | exact H].
      intros id. exists id, v. auto.
    - destruct (eval_expr l s0) as [v s1|u] eqn:Ev; [|intros [=]].
      pose proof (eval_expr_writes _ _ _ _ Ev) as Hw. intros [= <-].
      eapply writes_trans; [exact Hw|].
      apply writes_fprintf_yyout. exists 0, v. auto.
    - destruct (eval_expr l s0) as [v s1|u] eqn:Ev; [|intros [=]].
      pose proof (eval_expr_writes _ _ _ _ Ev) as Hw. intros H.
      eapply writes_trans; [exact Hw|].
      destruct r as [|bl tl el [] biv bid];
        try (injection H as <-; apply writes_yyerror; cbn; tauto).
      destruct (negb (v =? 0)).
      + apply (IH tl ltac:(cbn; lia) as_list _ _ H).
      + apply (IH el ltac:(cbn; lia) as_list _ _ H).
    - rewrite (execute_list_unfold (mkNode _ _ _ _ _ _)). cbn [Kind_eqb].
      apply Hseq. }
  intros [] st st'; cbn [run]; [apply Hstmt|].
  rewrite (execute_list_unfold (mkNode _ _ _ _ _ _)).
  destruct k; cbn [Kind_eqb]; try apply Hstmt. apply Hseq.
Qed.

(** X6. Whatever tree is run, and from whatever state, a run that stays
    within what C defines adds to out.txt only records of the three
    forms [Declared var[i] = v], [Assigned var[i] = v] and [Print: v],
    adds to the diagnostics only lines [Error: m at line n] where [m] is
    one of the seven messages of the executor and [n] the line the run
    started at, and leaves [yylineno] as it was. *)
Theorem only_records_and_diagnostics_are_written (n : Node) (st st' : State) :
  execute_stmt n st = Ok st' \/ execute_list n st = Ok st' ->
  writes st st'.
Proof.
  intros [H|H].
  - exact (run_writes n as_stmt st st' H).
  - exact (run_writes n as_list st st' H).
Qed.

Lemma only_records_and_diagnostics_are_written_witness :
  exists st',
    (execute_stmt print_5_div_0 (initial_state 7) = Ok st' \/
     execute_list print_5_div_0 (initial_state 7) = Ok st') /\
    writes (initial_state 7) st'.
Proof.
  set (st' := match execute_stmt print_5_div_0 (initial_state 7) with
              | Ok s => s
              | Undefined _ => initial_state 7
              end).
  assert (H : execute_stmt print_5_div_0 (initial_state 7) = Ok st' \/
              execute_list print_5_div_0 (initial_state 7) = Ok st')
    by (left; vm_compute; reflexivity).
  exists st'. split; [exact H|].
  exact (only_records_and_diagnostics_are_written _ _ _ H).
Defined.

(** * The parser *)

(** ** The tables *)

Lemma In_all_states (s : Z) : valid_state s = true -> In s all_states.
Proof.
  unfold valid_state, all_states, YYNSTATES. intros H.
  apply andb_prop in H as [H1 H2]. apply Z.leb_le in H1. apply Z.ltb_lt in H2.
  apply in_map_iff. exists (Z.to_nat s). split; [apply Z2Nat.id; exact H1|].
  apply in_seq. split; [apply Nat.le_0_l|].
  change (0 + 53)%nat with (Z.to_nat 53). apply Z2Nat.inj_lt; lia.
Qed.

Lemma at_In (t : list Z) (i n : Z) :
  Z.of_nat (length t) = n -> 0 <= i < n -> In (at_ t i) t.
Proof. intros <- H. unfold at_. apply nth_In. lia. Qed.

Lemma yytranslate_terminals :
  forallb (fun x => (0 <=? x) && (x <? YYNTOKENS)) yytranslate = true.
Proof. vm_compute. reflexivity. Qed.

Lemma YYTRANSLATE_range (yyx : Z) : 0 <= YYTRANSLATE yyx < YYNTOKENS.
Proof.
  unfold YYTRANSLATE.
  destruct ((0 <=? yyx) && (yyx <=? YYMAXUTOK)) eqn:E.
  - apply andb_prop in E as [E1 E2]. apply Z.leb_le in E1, E2.
    pose proof yytranslate_terminals as H.
    rewrite forallb_forall in H.
    unfold YYMAXUTOK in E2.
    specialize (H (at_ yytranslate yyx) (at_In yytranslate yyx 267 eq_refl ltac:(lia))).
    apply andb_prop in H as [H1 H2]. apply Z.leb_le in H1. apply Z.ltb_lt in H2.
    lia.
  - vm_compute. split; [discriminate | reflexivity].
Qed.

Lemma yytable_positive (i : Z) : 0 <= i <= YYLAST -> 0 < at_ yytable i.
Proof.
  intros H.
  assert (F : forallb (fun x => 0 <? x) yytable = true) by (vm_compute; reflexivity).
  rewrite forallb_forall in F. unfold YYLAST in H.
  apply Z.ltb_lt, F, (at_In yytable i 70 eq_refl). lia.
Qed.

Lemma yycheck_no_error (i : Z) :
  0 <= i <= YYLAST -> at_ yycheck i <> YYSYMBOL_YYerror.
Proof.
  intros H.
  assert (F : forallb (fun x => negb (x =? YYSYMBOL_YYerror)) yycheck = true)
    by (vm_compute; reflexivity).
  rewrite forallb_forall in F.
  unfold YYLAST in H.
  specialize (F (at_ yycheck i) (at_In yycheck i 70 eq_refl ltac:(lia))).
  apply negb_true_iff, Z.eqb_neq in F. exact F.
Qed.

Lemma edge_valid (a b : Z) :
  edge a b = true -> valid_state a = true /\ valid_state b = true /\ b <> 0.
Proof.
  unfold edge. rewrite existsb_exists. intros ((x & y) & Hin & H).
  cbn [fst snd] in H. apply andb_prop in H as [Ha Hb].
  apply Z.eqb_eq in Ha, Hb. subst.
  assert (F : forallb (fun e => valid_state (fst e) && valid_state (snd e)
                                && negb (snd e =? 0)) yyedges = true)
    by (vm_compute; reflexivity).
  rewrite forallb_forall in F. specialize (F _ Hin). cbn [fst snd] in F.
  apply andb_prop in F as [F F3]. apply andb_prop in F as [F1 F2].
  apply negb_true_iff, Z.eqb_neq in F3. auto.
Qed.

Lemma shift_state_edge (s X t : Z) :
  valid_state s = true -> 0 <= X < YYNTOKENS ->
  shift_state s X = Some t ->
  edge s t = true /\ at_ yystos t = X.
Proof.
  intros Hs HX Ht.
  assert (F : forallb (fun s =>
                forallb (fun X =>
                  match shift_state s X with
                  | Some t => edge s t && (at_ yystos t =? X)
                  | None => true
                  end) (map Z.of_nat (seq 0 21))) all_states = true)
    by (vm_compute; reflexivity).
  rewrite forallb_forall in F. specialize (F s (In_all_states s Hs)).
  rewrite forallb_forall in F.
  assert (HinX : In X (map Z.of_nat (seq 0 21))).
  { apply in_map_iff. exists (Z.to_nat X). unfold YYNTOKENS in HX.
    split; [lia|]. apply in_seq. lia. }
  specialize (F X HinX). rewrite Ht in F.
  apply andb_prop in F as [F1 F2]. apply Z.eqb_eq in F2. auto.
Qed.

Lemma default_reduction (s : Z) :
  valid_state s = true ->
  at_ yydefact s = 0 \/ s = YYFINAL \/
  (In (at_ yydefact s) (map Z.of_nat (seq 2 22)) /\
   back_ok (at_ yyr1 (at_ yydefact s)) (rev (rhs_of (at_ yydefact s))) s = true).
Proof.
  intros Hs.
  assert (F : forallb (fun s =>
                let r := at_ yydefact s in
                (r =? 0) || (s =? YYFINAL) ||
                ((2 <=? r) && (r <=? 23) &&
                 back_ok (at_ yyr1 r) (rev (rhs_of r)) s)) all_states = true)
    by (vm_compute; reflexivity).
  rewrite forallb_forall in F. specialize (F s (In_all_states s Hs)).
  cbn zeta in F. apply orb_prop in F as [F|F]; [apply orb_prop in F as [F|F]|].
  - left. now apply Z.eqb_eq.
  - right; left. now apply Z.eqb_eq.
  - right; right. apply andb_prop in F as [F F3]. apply andb_prop in F as [F1 F2].
    apply Z.leb_le in F1, F2. split; [|exact F3].
    apply in_map_iff. exists (Z.to_nat (at_ yydefact s)). split; [lia|].
    apply in_seq. lia.
Qed.

(** ** Stacks that are paths of the automaton *)

Lemma stack_ok_cons (s : Z) (ss : list Z) (vs : list YYSTYPE) :
  stack_ok (s :: ss) vs = true ->
  (ss = [] /\ s = 0 /\ exists v, vs = [v]) \/
  (exists s' ss' v vs',
      ss = s' :: ss' /\ vs = v :: vs' /\ edge s' s = true /\
      typed (at_ yystos s) v = true /\ stack_ok (s' :: ss') vs' = true).
Proof.
  destruct ss as [|s' ss'], vs as [|v vs']; cbn [stack_ok]; try discriminate.
  - destruct vs'; [|discriminate]. intros H. apply Z.eqb_eq in H. left. eauto.
  - intros H. apply andb_prop in H as [H H3]. apply andb_prop in H as [H1 H2].
    right. exists s', ss', v, vs'. auto.
Qed.

Lemma stack_ok_top_valid (s : Z) (ss : list Z) (vs : list YYSTYPE) :
  stack_ok (s :: ss) vs = true -> valid_state s = true.
Proof.
  intros H. apply stack_ok_cons in H as [(_ & -> & _)|(s' & ss' & v & vs' & _ & _ & He & _)].
  - reflexivity.
  - now apply edge_valid in He.
Qed.

Lemma stack_ok_nonempty (ss : list Z) (vs : list YYSTYPE) :
  stack_ok ss vs = true -> exists s ss', ss = s :: ss'.
Proof. destruct ss; [discriminate | eauto]. Qed.

(** What the stack holds where a rule is reduced: on top, values fit for
    its right-hand side; below, a path again, whose top has the goto among
    the edges. *)
Lemma back_ok_pop (lhs : Z) (rhs_rev : list Z) :
  forall s ss vs segs,
    stack_ok (s :: ss) vs = true ->
    stack_derives (s :: ss) vs segs ->
    back_ok lhs rhs_rev s = true ->
    exists (sstop : list Z) (vtop : list YYSTYPE) (segtop : list (list Token))
           b ssrest vrest segrest,
      s :: ss = (sstop ++ b :: ssrest)%list /\ vs = (vtop ++ vrest)%list /\
      segs = (segtop ++ segrest)%list /\
      length sstop = length rhs_rev /\
      Forall3 (fun X v seg => typed X v = true /\ derives X v seg)
              rhs_rev vtop segtop /\
      stack_ok (b :: ssrest) vrest = true /\
      stack_derives (b :: ssrest) vrest segrest /\
      edge b (goto_state b lhs) = true /\
      at_ yystos (goto_state b lhs) = lhs.
Proof.
  induction rhs_rev as [|X rest IH]; intros s ss vs segs Hst Hd Hb.
  - cbn [back_ok] in Hb. apply andb_prop in Hb as [H1 H2]. apply Z.eqb_eq in H2.
    exists [], [], [], s, ss, vs, segs.
    split; [reflexivity|]. split; [reflexivity|]. split; [reflexivity|].
    split; [reflexivity|]. split; [constructor|]. auto.
  - cbn [back_ok] in Hb. apply andb_prop in Hb as [Hb H3].
    apply andb_prop in Hb as [H1 H2].
    apply Z.eqb_eq in H1. apply negb_true_iff, Z.eqb_neq in H2.
    apply stack_ok_cons in Hst as [(_ & -> & _)|(s' & ss' & v & vs' & -> & -> & He & Hty & Hst)];
      [congruence|].
    destruct segs as [|seg segs']; [contradiction|]. destruct Hd as [Hd1 Hd].
    rewrite forallb_forall in H3.
    specialize (H3 s' (In_all_states s' (proj1 (edge_valid _ _ He)))).
    rewrite He in H3.
    destruct (IH s' ss' vs' segs' Hst Hd H3)
      as (sstop & vtop & segtop & b & ssrest & vrest & segrest &
          E1 & E2 & E3 & Hlen & Hf & Hok & Hdr & Hg).
    exists (s :: sstop), (v :: vtop), (seg :: segtop), b, ssrest, vrest, segrest.
    rewrite E1, E2, E3. cbn [app length].
    split; [reflexivity|]. split; [reflexivity|]. split; [reflexivity|].
    split; [now rewrite Hlen|].
    split; [|auto].
    constructor; [|exact Hf]. rewrite <- H1. auto.
Qed.

(** ** No recovery from a syntax error *)

Lemma yyerrlab1_pop_None (ss : list Z) (vs : list YYSTYPE) :
  yyerrlab1_pop ss vs = None.
Proof.
  revert vs. induction ss as [|s below IH]; intros vs; [reflexivity|].
  cbn [yyerrlab1_pop].
  assert (E : (if at_ yypact s =? YYPACT_NINF then None
               else if (0 <=? at_ yypact s + YYSYMBOL_YYerror)
                       && (at_ yypact s + YYSYMBOL_YYerror <=? YYLAST)
                       && (at_ yycheck (at_ yypact s + YYSYMBOL_YYerror)
                           =? YYSYMBOL_YYerror)
                    then (if 0 <? at_ yytable (at_ yypact s + YYSYMBOL_YYerror)
                          then Some (at_ yytable (at_ yypact s + YYSYMBOL_YYerror))
                          else None)
                    else None) = None).
  { destruct (at_ yypact s =? YYPACT_NINF); [reflexivity|].
    destruct ((0 <=? at_ yypact s + YYSYMBOL_YYerror)
              && (at_ yypact s + YYSYMBOL_YYerror <=? YYLAST)
              && (at_ yycheck (at_ yypact s + YYSYMBOL_YYerror)
                  =? YYSYMBOL_YYerror)) eqn:E; [|reflexivity].
    apply andb_prop in E as [E E3]. apply andb_prop in E as [E1 E2].
    apply Z.leb_le in E1, E2. apply Z.eqb_eq in E3.
    now apply yycheck_no_error in E3. }
  rewrite E. destruct below; [reflexivity | apply IH].
Qed.

Lemma yyerrlab1_aborts (p : Parser) (st : State) : yyerrlab1 p st = Return 1 st.
Proof. unfold yyerrlab1. now rewrite yyerrlab1_pop_None. Qed.

Lemma yyerrlab_eq (p : Parser) (st : State) :
  yyerrlab p st =
  Return 1 (if yyerrstatus p =? 0 then yyerror "syntax error" st else st).
Proof.
  unfold yyerrlab.
  destruct (yyerrstatus p =? 0) eqn:E.
  - apply Z.eqb_eq in E. cbn [yyerrstatus set_yynerrs]. rewrite E.
    cbn [Z.eqb]. apply yyerrlab1_aborts.
  - destruct (yyerrstatus p =? 3); [|apply yyerrlab1_aborts].
    destruct (yychar p <=? YYEOF); [|apply yyerrlab1_aborts].
    destruct (yychar p =? YYEOF); [reflexivity | apply yyerrlab1_aborts].
Qed.

(** ** One reduction *)

Lemma yyreduce_eq (r : Z) (p : Parser) (st : State) :
  yyreduce r p st =
  match yyaction r (match Z.to_nat (at_ yyr2 r) with
                    | O => yy_undef
                    | S k => yyvsp p k
                    end) p st with
  | None => Fault
  | Some (v, st') =>
      yynewstate
        (goto_state (hd 0 (drop (Z.to_nat (at_ yyr2 r)) (yyss p))) (at_ yyr1 r))
        (set_stacks (drop (Z.to_nat (at_ yyr2 r)) (yyss p))
                    (v :: drop (Z.to_nat (at_ yyr2 r)) (yyvs p)) p) st'
  end.
Proof.
  unfold yyreduce, goto_state.
  destruct (yyaction _ _ p st) as [[v st']|]; reflexivity.
Qed.

Lemma is_stmts_append (n1 n0 : Node) :
  is_stmts n1 = true -> is_stmt n0 = true -> is_stmts (stmts_append n1 n0) = true.
Proof. intros H1 H0. destruct n1; cbn; rewrite ?H0; cbn in *; rewrite ?H1; reflexivity. Qed.

Lemma is_stmt_if (c t e : Node) :
  is_condition c = true -> is_stmts t = true -> is_stmts e = true ->
  is_stmt (new_if_node c t e) = true.
Proof. intros Hc Ht He. cbn. now rewrite Hc, Ht, He. Qed.

Lemma token_of_a_token (X : Z) (v : YYSTYPE) (t : Token) :
  token_of X v t -> a_token X t.
Proof. intros (H1 & H2 & _). unfold a_token, token_of. auto. Qed.

Ltac typed_inv :=
  repeat match goal with
  | H : typed _ ?v = true |- _ =>
      cbn -[mem_string] in H;
      lazymatch type of H with
      | true = true => clear H
      | _ => destruct v; cbn -[mem_string] in H; try discriminate H; revert H
      end
  end; intros.

Ltac derives_inv :=
  repeat match goal with
  | H : derives _ _ _ |- _ =>
      unfold derives in H;
      cbn [Z.eqb Z.ltb Z.leb Z.compare Pos.compare Pos.compare_cont Pos.eqb
           orb andb YYSYMBOL_YYEOF YYNTOKENS] in H;
      let n := fresh "n" in
      let E := fresh "E" in
      let D := fresh "D" in
      destruct H as (n & E & D);
      first [ injection E as <- | subst ]
  end.

Ltac close_typed :=
  cbn -[mem_string stmts_append];
  first [ apply is_stmts_append; assumption
        | repeat match goal with
                 | H : _ = true |- _ => rewrite H
                 end; reflexivity ].

Ltac close_derives :=
  unfold derives;
  cbn [Z.eqb Z.ltb Z.leb Z.compare Pos.compare Pos.compare_cont Pos.eqb
       orb andb YYSYMBOL_YYEOF YYNTOKENS concat rev app];
  rewrite ?app_nil_r;
  try (eexists; split; [reflexivity|]);
  first [ assumption
        | solve [econstructor; eauto using token_of_a_token] ].

Lemma yyreduce_rule (r : Z) (p : Parser) (st : State)
    (sstop : list Z) (vtop : list YYSTYPE) (segtop : list (list Token))
    (b : Z) (ssrest : list Z) (vrest : list YYSTYPE) :
  In r (map Z.of_nat (seq 2 22)) ->
  yyss p = (sstop ++ b :: ssrest)%list ->
  yyvs p = (vtop ++ vrest)%list ->
  length sstop = length (rev (rhs_of r)) ->
  Forall3 (fun X v seg => typed X v = true /\ derives X v seg)
          (rev (rhs_of r)) vtop segtop ->
  (exists v st',
      yyreduce r p st =
        Continue (set_stacks (goto_state b (at_ yyr1 r) :: b :: ssrest)
                             (v :: vrest) p) st' /\
      typed (at_ yyr1 r) v = true /\
      derives (at_ yyr1 r) v (concat (rev segtop)) /\
      if r =? 2
      then exists tree,
          stmts_tokens tree (concat (rev segtop)) /\
          is_stmts tree = true /\ execute_list tree st = Ok st'
      else st' = st) \/
  (r = 2 /\ yyreduce r p st = Fault /\
   exists tree,
     stmts_tokens tree (concat (rev segtop)) /\
     is_stmts tree = true /\ execute_list tree st = Undefined DivOverflow).
Proof.
  intros Hin Hss Hvs Hlen Hf.
  assert (Hlv : length vtop = length (rev (rhs_of r)))
    by (symmetry; eapply Forall3_length_lm; exact Hf).
  rewrite yyreduce_eq. unfold yynewstate, yyvsp.
  destruct p as [ss vs sz c lv es ne inp]. unfold set_stacks.
  cbn [yyss yyvs yystacksize yychar yylval yyerrstatus yynerrs input] in *.
  subst ss vs.
  vm_compute in Hin.
  repeat destruct Hin as [<-|Hin]; try contradiction;
    match type of Hlen with
    | context [rhs_of ?r] =>
        let n := eval vm_compute in (Z.to_nat (at_ yyr2 r)) in
        change (Z.to_nat (at_ yyr2 r)) with n;
        let l := eval vm_compute in (rev (rhs_of r)) in
        change (rev (rhs_of r)) with l in *;
        let x := eval vm_compute in (at_ yyr1 r) in
        change (at_ yyr1 r) with x
    | _ => idtac
    end.
  all: rewrite !drop_app_length' by (symmetry; assumption).
  all: cbn [hd].
  all: repeat match goal with
       | H : Forall3 _ (_ :: _) _ _ |- _ =>
           apply Forall3_cons_inv_l in H as (? & ? & ? & ? & -> & -> & [? ?] & H)
       | H : Forall3 _ [] _ _ |- _ => inversion H; subst; clear H
       end.
  all: typed_inv.
  all: derives_inv.
  all: unfold yyaction, yyvsp; cbn [app nth get_node get_ival get_sval mbind option_bind yyvs].
  all: try (left; eexists _, _; split; [reflexivity|];
            split; [|split; [|reflexivity]]).
  all: try (close_typed; fail).
  all: try (close_derives; fail).
  destruct (proj1 (run_is_stmts node st) H) as [E | (st' & k & E & _)]; rewrite E.
  - right. split; [reflexivity|]. split; [reflexivity|].
    exists node. cbn [rev concat app]. rewrite app_nil_r. auto.
  - left. exists (yy_node node), st'. split; [reflexivity|]. split; [reflexivity|].
    split; [exact I|].
    exists node. cbn [rev concat app]. rewrite app_nil_r. auto.
Qed.

(** ** What the tables say about ranks and about the states 1 and 3 *)

Lemma rank_range (s : Z) : 0 <= at_ yyrank s <= 11.
Proof.
  assert (F : forallb (fun x => (0 <=? x) && (x <=? 11)) yyrank = true)
    by (vm_compute; reflexivity).
  rewrite forallb_forall in F. unfold at_.
  destruct (nth_in_or_default (Z.to_nat s) yyrank 0) as [H| ->]; [|lia].
  apply F in H. apply andb_prop in H as [H1 H2].
  apply Z.leb_le in H1, H2. lia.
Qed.

Lemma reduce_cert (s g : Z) :
  valid_state s = true -> valid_state g = true ->
  s <> YYFINAL -> at_ yydefact s <> 0 ->
  at_ yystos g = at_ yyr1 (at_ yydefact s) ->
  at_ yyrank g + 4 * (1 - Z.of_nat (length (rhs_of (at_ yydefact s))))
    < at_ yyrank s /\
  s <> 1 /\ g <> 3 /\
  (at_ yydefact s = 2 -> s = 2 /\ g = 1) /\
  (at_ yydefact s <> 2 -> g <> 1).
Proof.
  intros Hs Hg H3 Hr Hst.
  assert (F : forallb (fun s =>
                forallb (fun g =>
                  let r := at_ yydefact s in
                  (s =? YYFINAL) || (r =? 0) || negb (at_ yystos g =? at_ yyr1 r) ||
                  ((at_ yyrank g + 4 * (1 - Z.of_nat (length (rhs_of r)))
                      <? at_ yyrank s) &&
                   negb (s =? 1) && negb (g =? 3) &&
                   (if r =? 2 then (s =? 2) && (g =? 1) else negb (g =? 1))))
                  all_states) all_states = true)
    by (vm_compute; reflexivity).
  rewrite forallb_forall in F. specialize (F s (In_all_states s Hs)).
  rewrite forallb_forall in F. specialize (F g (In_all_states g Hg)).
  cbn zeta in F.
  apply Z.eqb_neq in H3, Hr. rewrite H3, Hr in F.
  apply Z.eqb_eq in Hst. rewrite Hst in F. cbn [orb negb] in F.
  apply andb_prop in F as [F F4]. apply andb_prop in F as [F F3].
  apply andb_prop in F as [F1 F2].
  apply Z.ltb_lt in F1. apply negb_true_iff, Z.eqb_neq in F2, F3.
  split; [exact F1|]. split; [exact F2|]. split; [exact F3|].
  destruct (at_ yydefact s =? 2) eqn:E.
  - apply andb_prop in F4 as [Fa Fb]. apply Z.eqb_eq in Fa, Fb, E.
    split; [auto|]. intros H. contradiction.
  - apply negb_true_iff, Z.eqb_neq in F4. apply Z.eqb_neq in E.
    split; [intros H; contradiction | auto].
Qed.

Lemma shift_cert (s X t : Z) :
  valid_state s = true -> 0 <= X < YYNTOKENS ->
  shift_state s X = Some t ->
  t <> 1 /\ (s = 1 -> t = 3) /\ (s <> 1 -> t <> 3).
Proof.
  intros Hs HX Ht.
  assert (F : forallb (fun s =>
                forallb (fun X =>
                  match shift_state s X with
                  | Some t =>
                      negb (t =? 1) && (if s =? 1 then t =? 3 else negb (t =? 3))
                  | None => true
                  end) (map Z.of_nat (seq 0 21))) all_states = true)
    by (vm_compute; reflexivity).
  rewrite forallb_forall in F. specialize (F s (In_all_states s Hs)).
  rewrite forallb_forall in F.
  assert (HinX : In X (map Z.of_nat (seq 0 21))).
  { apply in_map_iff. exists (Z.to_nat X). unfold YYNTOKENS in HX.
    split; [lia|]. apply in_seq. lia. }
  specialize (F X HinX). rewrite Ht in F.
  apply andb_prop in F as [F1 F2]. apply negb_true_iff, Z.eqb_neq in F1.
  split; [exact F1|].
  destruct (s =? 1) eqn:E.
  - apply Z.eqb_eq in E, F2. split; [auto|]. intros H; contradiction.
  - apply Z.eqb_neq in E. apply negb_true_iff, Z.eqb_neq in F2.
    split; [intros H; contradiction | auto].
Qed.

Lemma edge_cert (a b : Z) :
  edge a b = true -> (b = 1 -> a = 0) /\ (b = 3 -> a = 1).
Proof.
  unfold edge. rewrite existsb_exists. intros ((x & y) & Hin & H).
  cbn [fst snd] in H. apply andb_prop in H as [Ha Hb].
  apply Z.eqb_eq in Ha, Hb. subst.
  assert (F : forallb (fun e => (if snd e =? 1 then fst e =? 0 else true) &&
                                (if snd e =? 3 then fst e =? 1 else true))
                      yyedges = true)
    by (vm_compute; reflexivity).
  rewrite forallb_forall in F. specialize (F _ Hin). cbn [fst snd] in F.
  apply andb_prop in F as [F1 F2].
  split; intros ->; cbn in *; now apply Z.eqb_eq.
Qed.

Lemma stack_ok_bottom (ss : list Z) (vs : list YYSTYPE) :
  stack_ok (0 :: ss) vs = true -> ss = [].
Proof.
  intros H. apply stack_ok_cons in H as [(-> & _)|(s' & ss' & v & vs' & _ & _ & He & _)].
  - reflexivity.
  - apply edge_valid in He as (_ & _ & He). contradiction.
Qed.

Lemma stack_ok_executed (s : Z) (ss : list Z) (vs : list YYSTYPE) :
  stack_ok (s :: ss) vs = true -> s = 1 \/ s = 3 ->
  (length (s :: ss) <= 3)%nat.
Proof.
  intros H Hs.
  assert (H1 : forall ss vs, stack_ok (1 :: ss) vs = true -> ss = [0]).
  { clear. intros ss vs H.
    apply stack_ok_cons in H as [(_ & [=] & _)|(s' & ss' & v & vs' & -> & -> & He & _ & H)].
    apply edge_cert in He as [He _]. specialize (He eq_refl). subst s'.
    now apply stack_ok_bottom in H as ->. }
  destruct Hs as [-> | ->].
  - apply H1 in H as ->. cbn. lia.
  - apply stack_ok_cons in H as [(_ & [=] & _)|(s' & ss' & v & vs' & -> & -> & He & _ & H)].
    apply edge_cert in He as [_ He]. specialize (He eq_refl). subst s'.
    apply H1 in H as ->. cbn. lia.
Qed.

Lemma yypotential_nonneg (p : Parser) : 0 <= yypotential p.
Proof.
  unfold yypotential, lookahead_weight.
  pose proof (rank_range (hd 0 (yyss p))).
  destruct (0 <? yychar p); lia.
Qed.

Lemma scanned_refl (st0 : State) : scanned st0 st0.
Proof. exists (yylineno st0). now destruct st0. Qed.

Lemma scanned_set_yylineno (st0 st : State) (line : Z) :
  scanned st0 st -> scanned st0 (set_yylineno line st).
Proof. intros [l ->]. now exists line. Qed.

(** ** One pass through [yysetstate] *)

Lemma phase_not_executed (st0 : State) (s c : Z) (ts : list Token) (st : State) :
  s <> 1 -> s <> 3 -> phase st0 s c ts st <-> scanned st0 st.
Proof.
  intros H1 H3. unfold phase.
  apply Z.eqb_neq in H1, H3. now rewrite H1, H3.
Qed.

Lemma phase_syntax_error (st0 : State) (tokens : list Token) (s c : Z)
    (ts rest : list Token) (st : State) :
  (ts ++ rest)%list = sentence tokens ->
  phase st0 s c ts st ->
  yyparse_ends st0 tokens (Return 1 (yyerror "syntax error" st)).
Proof.
  intros E. unfold phase. cbn [yyparse_ends].
  destruct ((s =? 1) || (s =? 3)).
  - intros (_ & _ & H). right; right; right. exists st. split; [|reflexivity].
    exists ts, rest. auto.
  - intros H. right; left. eauto.
Qed.

Lemma phase_abort (st0 : State) (tokens : list Token) (s c : Z)
    (ts rest : list Token) (st : State) :
  (ts ++ rest)%list = sentence tokens ->
  phase st0 s c ts st -> yyparse_ends st0 tokens (Return 1 st).
Proof.
  intros E. unfold phase. cbn [yyparse_ends].
  destruct ((s =? 1) || (s =? 3)).
  - intros (_ & _ & H). right; right; left. exists ts, rest. auto.
  - intros H. left. exact H.
Qed.

Lemma concat_rev_reduce {A : Type} (a b : list (list A)) :
  concat (rev (concat (rev a) :: b)) = concat (rev (a ++ b)).
Proof.
  cbn [rev]. rewrite rev_app_distr, !concat_app. cbn [concat].
  now rewrite app_nil_r.
Qed.

Lemma concat_rev_shift {A : Type} (a : list A) (b : list (list A)) :
  concat (rev (a :: b)) = (concat (rev b) ++ a)%list.
Proof. cbn [rev]. rewrite concat_app. cbn [concat]. now rewrite app_nil_r. Qed.

Lemma stack_derives_bottom (s : Z) (vs : list YYSTYPE) (segs : list (list Token)) :
  stack_derives [s] vs segs -> segs = [].
Proof.
  destruct vs as [|v [|? ?]], segs; cbn [stack_derives]; try contradiction; auto.
Qed.

Lemma unread_is_stacks (p : Parser) (ss : list Z) (vs : list YYSTYPE)
    (unread : list Token) :
  hd 0 (yyss p) <> YYFINAL -> hd 0 ss <> YYFINAL ->
  unread_is p unread -> unread_is (set_stacks ss vs p) unread.
Proof.
  intros H1 H2. unfold unread_is, set_stacks. cbn [yyss yychar yylval input].
  apply Z.eqb_neq in H1, H2. now rewrite H1, H2.
Qed.

Lemma yydefault_step (st0 : State) (tokens : list Token) (bound : Z)
    (p : Parser) (st : State) (segs : list (list Token)) (unread : list Token) :
  parser_ok p ->
  hd 0 (yyss p) <> YYFINAL ->
  (hd 0 (yyss p) = 2 -> yychar p <> YYEMPTY) ->
  stack_derives (yyss p) (yyvs p) segs ->
  unread_is p unread ->
  (concat (rev segs) ++ unread)%list = sentence tokens ->
  phase st0 (hd 0 (yyss p)) (yychar p) (concat (rev segs)) st ->
  yypotential p <= bound ->
  step_ok st0 tokens bound (yydefault p st).
Proof.
  intros (Hst & Hla & Hin & Hes & Hsz) H3 H2 Hd Hun Hsen Hph Hb.
  destruct (stack_ok_nonempty _ _ Hst) as (s & ss & Hss).
  pose proof Hun as Hun0.
  rewrite Hss in Hst, H3, H2, Hph, Hd. cbn [hd] in H3, H2, Hph.
  pose proof (stack_ok_top_valid _ _ _ Hst) as Hs.
  unfold yydefault. rewrite Hss. cbn [hd].
  destruct (default_reduction s Hs) as [E|[E|(Hr & Hback)]]; [| contradiction |].
  - rewrite E. cbn [Z.eqb]. rewrite yyerrlab_eq, Hes. cbn [Z.eqb step_ok].
    eapply phase_syntax_error; [exact Hsen | exact Hph].
  - assert (Hr0 : at_ yydefact s <> 0).
    { intros E. rewrite E in Hr. vm_compute in Hr. intuition discriminate. }
    apply Z.eqb_neq in Hr0 as Hr0'. rewrite Hr0'.
    destruct (back_ok_pop _ _ _ _ _ _ Hst Hd Hback)
      as (sstop & vtop & segtop & b & ssrest & vrest & segrest &
          E1 & E2 & E3 & Hlen & Hf & Hok & Hdr & He & Hg).
    rewrite <- Hss in E1.
    set (g := goto_state b (at_ yyr1 (at_ yydefact s))) in *.
    pose proof (edge_valid _ _ He) as (_ & Hgv & _).
    destruct (reduce_cert s g Hs Hgv H3 Hr0 Hg) as (Hrk & Hs1 & Hg3 & Hr2 & Hrn2).
    destruct (yyreduce_rule _ p st _ _ _ _ _ _ Hr E1 E2 Hlen Hf)
      as [(v & st' & -> & Hty & Hdv & Hst') | (Er & -> & tree & Hder & Ht & Hex)].
    2: { (* the statements met the undefined quotient *)
      cbn [step_ok yyparse_ends].
      destruct (Hr2 Er) as [-> Hg1].
      apply phase_not_executed in Hph as [line ->]; [|discriminate|discriminate].
      exists (concat (rev segs)), unread, tree, line.
      split; [now symmetry|]. split; [|auto].
      rewrite Hg1 in He. apply edge_cert in He as [He _].
      specialize (He eq_refl). subst b.
      apply stack_ok_bottom in Hok as ->.
      apply stack_derives_bottom in Hdr as ->.
      rewrite E3, app_nil_r. exact Hder. }
    fold g.
    cbn [step_ok]. split; [split|].
    + (* the stacks are a path again *)
      unfold parser_ok, set_stacks.
      cbn [yyss yyvs yychar yylval input yyerrstatus yystacksize].
      split; [|auto].
      cbn [stack_ok]. rewrite He, Hg, Hty. exact Hok.
    + exists (concat (rev segtop) :: segrest), unread.
      split; [|split; [|split]].
      * unfold set_stacks. cbn [yyss yyvs stack_derives].
        rewrite Hg. auto.
      * apply unread_is_stacks; [now rewrite Hss | exact Hg3 | exact Hun0].
      * rewrite concat_rev_reduce, <- E3. exact Hsen.
      * unfold set_stacks. cbn [yyss yychar hd].
        rewrite concat_rev_reduce, <- E3.
        destruct (at_ yydefact s =? 2) eqn:E.
        -- apply Z.eqb_eq in E. destruct (Hr2 E) as [-> Hg1].
           rewrite Hg1. unfold phase. cbn [Z.eqb orb].
           split; [intros _; now apply H2|]. split; [discriminate|].
           apply phase_not_executed in Hph as [line ->]; [|discriminate|discriminate].
           destruct Hst' as (tree & Hder & Ht & Hex). exists tree, line.
           split; [|auto].
           (* the rule's tokens are all there are *)
           rewrite Hg1 in He. apply edge_cert in He as [He _].
           specialize (He eq_refl). subst b.
           apply stack_ok_bottom in Hok as ->.
           apply stack_derives_bottom in Hdr as ->.
           rewrite E3, app_nil_r. exact Hder.
        -- apply Z.eqb_neq in E. subst st'.
           apply phase_not_executed; [now apply Hrn2 | exact Hg3 |].
           apply phase_not_executed in Hph; assumption.
    + (* the measure went down *)
      revert Hb. unfold yypotential, set_stacks. cbn [input yychar yyss hd].
      rewrite Hss. cbn [hd]. fold g.
      assert (Hl : length (s :: ss) = (length (rhs_of (at_ yydefact s)) + S (length ssrest))%nat).
      { rewrite <- Hss, E1, length_app, Hlen, length_rev. reflexivity. }
      rewrite Hl. cbn [length]. lia.
Qed.

Lemma yybackup_token_eq (s X : Z) (p : Parser) (st : State) :
  at_ yypact s <> YYPACT_NINF -> yyerrstatus p = 0 ->
  yybackup_token (at_ yypact s) X p st =
  match shift_state s X with
  | Some t =>
      yynewstate t
        (set_yychar YYEMPTY (set_stacks (yyss p) (yylval p :: yyvs p) p)) st
  | None => yydefault p st
  end.
Proof.
  intros Hn Hes. unfold yybackup_token, shift_state.
  apply Z.eqb_neq in Hn. rewrite Hn, Hes. cbn [Z.eqb].
  destruct ((at_ yypact s + X <? 0) || (YYLAST <? at_ yypact s + X)
            || negb (at_ yycheck (at_ yypact s + X) =? X)) eqn:E; [reflexivity|].
  apply orb_false_elim in E as [E _]. apply orb_false_elim in E as [E1 E2].
  apply Z.ltb_ge in E1, E2.
  pose proof (yytable_positive (at_ yypact s + X) (conj E1 E2)) as Hpos.
  apply Z.leb_gt in Hpos. rewrite Hpos. reflexivity.
Qed.

Lemma YYTRANSLATE_positive (c : Z) : 0 < c -> YYTRANSLATE c <> YYSYMBOL_YYEOF.
Proof.
  intros Hc. unfold YYTRANSLATE.
  destruct ((0 <=? c) && (c <=? YYMAXUTOK)) eqn:E; [|discriminate].
  apply andb_prop in E as [_ E]. apply Z.leb_le in E. unfold YYMAXUTOK in E.
  assert (F : forallb (fun c => negb (at_ yytranslate c =? YYSYMBOL_YYEOF))
                      (map Z.of_nat (seq 1 266)) = true)
    by (vm_compute; reflexivity).
  rewrite forallb_forall in F.
  assert (Hin : In c (map Z.of_nat (seq 1 266))).
  { apply in_map_iff. exists (Z.to_nat c). split; [lia|]. apply in_seq. lia. }
  specialize (F c Hin). now apply negb_true_iff, Z.eqb_neq in F.
Qed.

Lemma shift_eof (s t : Z) :
  valid_state s = true -> shift_state s YYSYMBOL_YYEOF = Some t -> s = 1.
Proof.
  intros Hs E.
  assert (F : forallb (fun s =>
                match shift_state s YYSYMBOL_YYEOF with
                | Some _ => s =? 1
                | None => true
                end) all_states = true) by (vm_compute; reflexivity).
  rewrite forallb_forall in F. specialize (F s (In_all_states s Hs)).
  rewrite E in F. now apply Z.eqb_eq in F.
Qed.

Lemma yybackup_token_step (st0 : State) (tokens : list Token) (bound : Z)
    (p : Parser) (st : State) (segs : list (list Token)) (unread : list Token) :
  parser_ok p ->
  hd 0 (yyss p) <> YYFINAL ->
  at_ yypact (hd 0 (yyss p)) <> YYPACT_NINF ->
  0 <= yychar p ->
  stack_derives (yyss p) (yyvs p) segs ->
  unread_is p unread ->
  (concat (rev segs) ++ unread)%list = sentence tokens ->
  phase st0 (hd 0 (yyss p)) (yychar p) (concat (rev segs)) st ->
  yypotential p <= bound ->
  step_ok st0 tokens bound
    (yybackup_token (at_ yypact (hd 0 (yyss p))) (YYTRANSLATE (yychar p)) p st).
Proof.
  intros Hp H3 Hn Hc Hd Hun Hsen Hph Hb.
  pose proof Hp as (Hst & Hla & Hin & Hes & Hsz).
  rewrite (yybackup_token_eq _ _ _ _ Hn Hes).
  destruct (stack_ok_nonempty _ _ Hst) as (s & ss & Hss).
  pose proof Hun as Hun0. pose proof Hd as Hd0.
  rewrite Hss in Hst, H3, Hph, Hn, Hd |- *. cbn [hd] in H3, Hph, Hn |- *.
  pose proof (stack_ok_top_valid _ _ _ Hst) as Hs.
  destruct (shift_state s (YYTRANSLATE (yychar p))) as [t|] eqn:E.
  - pose proof (YYTRANSLATE_range (yychar p)) as HX.
    destruct (shift_state_edge _ _ _ Hs HX E) as [He Ht].
    destruct (shift_cert _ _ _ Hs HX E) as (Ht1 & Hs1 & Hsn1).
    (* what is shifted: the end of the input, or a token *)
    assert (Hcase : (yychar p = 0 /\ unread = [] /\ s = 1 /\ t = 3) \/
                    (0 < yychar p /\ s <> 1 /\ t <> 3 /\
                     exists tk, tok_code tk = yychar p /\ tok_lval tk = yylval p /\
                                unread = tk :: sentence (input p))).
    { destruct Hun as [[Hu _]|[[Hu1 Hu2]|[Hu1 Hu2]]].
      - rewrite Hu in Hc. unfold YYEMPTY in Hc. lia.
      - left. unfold YYEOF in Hu1. rewrite Hu1 in E.
        pose proof (shift_eof _ _ Hs E) as ->. auto.
      - right. split; [exact Hu1|].
        assert (Hs1' : s <> 1).
        { intros ->. specialize (Hs1 eq_refl). subst t.
          apply (YYTRANSLATE_positive _ Hu1). rewrite <- Ht. reflexivity. }
        auto. }
    unfold yynewstate, set_yychar, set_stacks.
    cbn [yyss yyvs yychar yylval input yyerrstatus yystacksize step_ok].
    split; [split|].
    + unfold parser_ok.
      cbn [yyss yyvs yychar yylval input yyerrstatus yystacksize].
      split; [|auto].
      cbn [stack_ok]. rewrite He, Ht, Hla. exact Hst.
    + cbn [yyss yyvs yychar hd].
      destruct Hcase as [(Hc0 & -> & -> & ->)|(Hc0 & Hs1' & Ht3 & tk & Hk1 & Hk2 & ->)].
      * exists ([] :: segs), [].
        split; [|split; [|split]].
        -- cbn [stack_derives]. split; [reflexivity | exact Hd].
        -- left. cbn [yychar yyss hd]. split; reflexivity.
        -- rewrite concat_rev_shift, !app_nil_r. now rewrite app_nil_r in Hsen.
        -- rewrite concat_rev_shift, app_nil_r.
           unfold phase in Hph |- *. cbn [Z.eqb orb] in Hph |- *.
           split; [discriminate|]. split; [reflexivity | apply Hph].
      * exists ([tk] :: segs), (sentence (input p)).
        split; [|split; [|split]].
        -- cbn [stack_derives]. split; [|exact Hd].
           rewrite Ht. unfold derives.
           pose proof (YYTRANSLATE_positive _ Hc0) as Hne.
           apply Z.eqb_neq in Hne. rewrite Hne.
           replace (YYTRANSLATE (yychar p) <? YYNTOKENS) with true
             by (symmetry; apply Z.ltb_lt; lia).
           exists tk. split; [reflexivity|].
           unfold token_of. rewrite Hk1. auto.
        -- left. cbn [yychar yyss hd input]. split; [reflexivity|].
           pose proof Ht3 as Ht3'. apply Z.eqb_neq in Ht3'. unfold YYFINAL.
           now rewrite Ht3'.
        -- rewrite concat_rev_shift, <- app_assoc. exact Hsen.
        -- apply phase_not_executed; [exact Ht1 | exact Ht3 |].
           apply phase_not_executed in Hph; assumption.
    + revert Hb. unfold yypotential. cbn [input yychar yyss hd length].
      rewrite Hss. cbn [hd length].
      pose proof (rank_range s). pose proof (rank_range t).
      unfold lookahead_weight, YYEMPTY. cbn [Z.ltb Z.compare].
      destruct Hcase as [(Hc0 & _ & -> & ->)|(Hc0 & _)].
      * rewrite Hc0. cbn [Z.ltb Z.compare].
        change (at_ yyrank 3) with 0. change (at_ yyrank 1) with 5. lia.
      * replace (0 <? yychar p) with true by (symmetry; apply Z.ltb_lt; lia).
        lia.
  - apply (yydefault_step st0 tokens bound p st segs unread); auto.
    + now rewrite Hss.
    + intros _. unfold YYEMPTY. lia.
    + now rewrite Hss.
Qed.

Lemma yylex_step (st0 : State) (p : Parser) (st : State) :
  parser_ok p -> yychar p = YYEMPTY -> scanned st0 st ->
  parser_ok (fst (yylex p st)) /\
  scanned st0 (snd (yylex p st)) /\
  yyss (fst (yylex p st)) = yyss p /\
  yyvs (fst (yylex p st)) = yyvs p /\
  yypotential (fst (yylex p st)) <= yypotential p /\
  ((0 < yychar (fst (yylex p st)) /\
    exists t, tok_code t = yychar (fst (yylex p st)) /\
              tok_lval t = yylval (fst (yylex p st)) /\
              sentence (input p) = t :: sentence (input (fst (yylex p st)))) \/
   (yychar (fst (yylex p st)) <= 0 /\ sentence (input p) = [])).
Proof.
  intros (Hst & Hla & Hin & Hes & Hsz) Hc Hsc.
  unfold yylex. destruct (input p) as [|t rest] eqn:Ei.
  - cbn [fst snd]. unfold parser_ok, yypotential, set_yychar.
    cbn [yyss yyvs yychar yylval input yyerrstatus yystacksize].
    rewrite Ei, Hc. cbn [length].
    split; [|split; [exact Hsc | split; [reflexivity | split; [reflexivity|]]]].
    + split; [exact Hst|]. split; [reflexivity|]. split; [reflexivity|]. auto.
    + split; [reflexivity|]. right. split; [lia | reflexivity].
  - cbn [fst snd]. unfold parser_ok, yypotential.
    cbn [yyss yyvs yychar yylval input yyerrstatus yystacksize].
    cbn [forallb] in Hin. apply andb_prop in Hin as [Ht Hrest].
    rewrite Hc.
    split; [|split; [now apply scanned_set_yylineno |
                     split; [reflexivity | split; [reflexivity|]]]].
    + split; [exact Hst|]. split; [exact Ht|]. auto.
    + rewrite Ei. cbn [length sentence]. unfold lookahead_weight, YYEMPTY.
      cbn [Z.ltb Z.compare].
      destruct (0 <? tok_code t) eqn:Epos.
      * split; [lia|]. left. apply Z.ltb_lt in Epos. split; [exact Epos|].
        exists t. auto.
      * split; [lia|]. right. apply Z.ltb_ge in Epos. auto.
Qed.

Lemma yybackup_step (st0 : State) (tokens : list Token) (p : Parser) (st : State) :
  yyinv st0 tokens p st ->
  hd 0 (yyss p) <> YYFINAL ->
  step_ok st0 tokens (yypotential p) (yybackup p st).
Proof.
  intros (Hp & segs & unread & Hd & Hun & Hsen & Hph) H3. unfold yybackup.
  destruct (at_ yypact (hd 0 (yyss p)) =? YYPACT_NINF) eqn:En.
  - apply (yydefault_step st0 tokens _ p st segs unread); auto; [|lia].
    intros E2. rewrite E2 in En. discriminate En.
  - apply Z.eqb_neq in En.
    (* the lookahead, read if there was none *)
    assert (Hlex : exists p1 st1,
               (if yychar p =? YYEMPTY then yylex p st else (p, st)) = (p1, st1) /\
               parser_ok p1 /\ yyss p1 = yyss p /\ yyvs p1 = yyvs p /\
               phase st0 (hd 0 (yyss p)) 0 (concat (rev segs)) st1 /\
               yypotential p1 <= yypotential p /\
               ((0 < yychar p1 /\ unread_is p1 unread) \/
                (yychar p1 <= 0 /\ unread = []))).
    { destruct (yychar p =? YYEMPTY) eqn:Ec.
      - apply Z.eqb_eq in Ec.
        assert (Hsc : scanned st0 st /\ hd 0 (yyss p) <> 1).
        { unfold phase in Hph. destruct (Z.eq_dec (hd 0 (yyss p)) 1) as [E1|E1].
          - rewrite E1 in Hph. cbn in Hph. destruct Hph as [Hph _].
            now specialize (Hph eq_refl).
          - split; [|exact E1]. apply phase_not_executed in Hph; assumption. }
        destruct Hsc as [Hsc Hn1].
        destruct (yylex_step st0 p st Hp Ec Hsc) as (H1 & H2 & H4 & H4' & H5 & H6).
        assert (Hu : unread = sentence (input p)).
        { destruct Hun as [[_ Hu]|[[Hu _]|[Hu _]]].
          - apply Z.eqb_neq in H3. now rewrite H3 in Hu.
          - rewrite Ec in Hu. discriminate Hu.
          - rewrite Ec in Hu. discriminate Hu. }
        exists (fst (yylex p st)), (snd (yylex p st)).
        split; [now destruct (yylex p st)|]. split; [exact H1|].
        split; [exact H4|]. split; [exact H4'|].
        split; [now apply phase_not_executed|].
        split; [exact H5|].
        destruct H6 as [(Hpos & t & Ht1 & Ht2 & Ht3)|[Hneg Hnil]].
        + left. split; [exact Hpos|]. right; right. split; [exact Hpos|].
          exists t. rewrite Hu. auto.
        + right. rewrite Hu. auto.
      - exists p, st. apply Z.eqb_neq in Ec.
        split; [reflexivity|]. split; [exact Hp|]. split; [reflexivity|].
        split; [reflexivity|].
        split.
        { unfold phase in Hph |- *.
          destruct ((hd 0 (yyss p) =? 1) || (hd 0 (yyss p) =? 3)); [|exact Hph].
          split; [discriminate|]. split; [intros; contradiction | apply Hph]. }
        split; [lia|].
        destruct Hun as [[Hu _]|[[Hu1 Hu2]|[Hu1 Hu2]]].
        + contradiction.
        + right. unfold YYEOF in Hu1. split; [lia | exact Hu2].
        + left. split; [exact Hu1|]. right; right. auto. }
    destruct Hlex as (p1 & st1 & -> & Hp1 & Hss1 & Hvs1 & Hph1 & Hpot & Hla1).
    assert (Hph1' : forall c, c <> YYEMPTY ->
                      phase st0 (hd 0 (yyss p)) c (concat (rev segs)) st1).
    { intros c Hc. unfold phase in Hph1 |- *.
      destruct ((hd 0 (yyss p) =? 1) || (hd 0 (yyss p) =? 3)); [|exact Hph1].
      split; [auto|]. split; [intros; contradiction | apply Hph1]. }
    destruct (yychar p1 <=? YYEOF) eqn:Eeof.
    + (* end of input *)
      apply Z.leb_le in Eeof. unfold YYEOF in Eeof.
      assert (Hnil : unread = []) by (destruct Hla1 as [[? _]|[_ ?]]; [lia | auto]).
      rewrite <- Hss1.
      change YYSYMBOL_YYEOF with (YYTRANSLATE (yychar (set_yychar YYEOF p1))).
      change (yyss p1) with (yyss (set_yychar YYEOF p1)).
      destruct Hp1 as (Hst & Hla & Hin & Hes & Hsz).
      apply (yybackup_token_step st0 tokens _ _ st1 segs unread).
      * unfold parser_ok, set_yychar.
        cbn [yyss yyvs yychar yylval input yyerrstatus yystacksize]. auto.
      * cbn [set_yychar yyss]. now rewrite Hss1.
      * cbn [set_yychar yyss]. now rewrite Hss1.
      * cbn [set_yychar yychar]. unfold YYEOF. lia.
      * cbn [set_yychar yyss yyvs]. now rewrite Hss1, Hvs1.
      * right; left. cbn [set_yychar yychar]. auto.
      * exact Hsen.
      * cbn [set_yychar yyss yychar]. rewrite Hss1. apply Hph1'. discriminate.
      * revert Hpot. unfold yypotential, set_yychar. cbn [yyss yychar input].
        unfold lookahead_weight, YYEOF in *. cbn [Z.ltb Z.compare].
        replace (0 <? yychar p1) with false by (symmetry; apply Z.ltb_ge; lia).
        lia.
    + apply Z.leb_gt in Eeof. unfold YYEOF in Eeof.
      destruct (yychar p1 =? YYerror).
      * rewrite yyerrlab1_aborts. cbn [step_ok].
        eapply phase_abort; [exact Hsen | exact Hph1].
      * rewrite <- Hss1.
        apply (yybackup_token_step st0 tokens _ _ st1 segs unread);
          rewrite ?Hss1, ?Hvs1; auto.
        -- lia.
        -- destruct Hla1 as [[_ ?]|[? _]]; [assumption | lia].
        -- apply Hph1'. unfold YYEMPTY. lia.
Qed.

Lemma yysetstate_step (st0 : State) (tokens : list Token) (p : Parser) (st : State) :
  yyinv st0 tokens p st ->
  step_ok st0 tokens (yypotential p) (yysetstate p st).
Proof.
  intros (Hp & segs & unread & Hd & Hun & Hsen & Hph).
  assert (Hfin : hd 0 (yyss p) = YYFINAL ->
                 step_ok st0 tokens (yypotential p) (yyacceptlab st)).
  { intros E. unfold unread_is in Hun. rewrite E in Hph, Hun.
    destruct Hph as (_ & Hc & Hex).
    specialize (Hc eq_refl).
    cbn [step_ok yyacceptlab yyparse_ends].
    (* nothing is unread once the end was shifted *)
    assert (Hu : unread = []).
    { destruct Hun as [[_ Hu]|[[_ Hu]|[Hu1 Hu2]]]; auto.
      rewrite Hc in Hu1. discriminate Hu1. }
    rewrite Hu, app_nil_r in Hsen. now rewrite <- Hsen. }
  assert (Hgo : forall p', yyss p' = yyss p -> yyvs p' = yyvs p ->
                  yychar p' = yychar p -> yylval p' = yylval p ->
                  input p' = input p ->
                  parser_ok p' -> yypotential p' = yypotential p ->
                  step_ok st0 tokens (yypotential p)
                    (if hd 0 (yyss p) =? YYFINAL then yyacceptlab st
                     else yybackup p' st)).
  { intros p' E1 E1' E2 E2' E2'' Hp' E3. destruct (hd 0 (yyss p) =? YYFINAL) eqn:E.
    - apply Z.eqb_eq in E. auto.
    - apply Z.eqb_neq in E. rewrite <- E3.
      apply yybackup_step; [|now rewrite E1].
      split; [exact Hp'|]. exists segs, unread.
      rewrite E1, E1', E2. split; [exact Hd|]. split; [|auto].
      unfold unread_is in Hun |- *. now rewrite E1, E2, E2', E2''. }
  unfold yysetstate.
  destruct (yystacksize p <=? Z.of_nat (length (yyss p))) eqn:Esz.
  - apply Z.leb_le in Esz.
    assert (Hsc : scanned st0 st).
    { destruct Hp as (Hst & _ & _ & _ & Hsz).
      destruct (stack_ok_nonempty _ _ Hst) as (s & ss & Hss).
      rewrite Hss in Hst, Hph, Esz. cbn [hd] in Hph.
      destruct (Z.eq_dec s 1) as [E1|E1];
        [|destruct (Z.eq_dec s 3) as [E3|E3]].
      - pose proof (stack_ok_executed _ _ _ Hst (or_introl E1)).
        unfold YYINITDEPTH in Hsz. lia.
      - pose proof (stack_ok_executed _ _ _ Hst (or_intror E3)).
        unfold YYINITDEPTH in Hsz. lia.
      - apply phase_not_executed in Hph; assumption. }
    destruct (YYMAXDEPTH <=? yystacksize p) eqn:Emax.
    + cbn [step_ok yyexhaustedlab yyparse_ends]. eauto.
    + apply Z.leb_gt in Emax.
      match goal with
      | |- context [if ?b then yyabortlab st else _] => destruct b
      end.
      * cbn [step_ok yyabortlab yyparse_ends]. left. exact Hsc.
      * apply Hgo; try reflexivity.
        destruct Hp as (Hst & Hla & Hin & Hes & Hsz).
        unfold parser_ok, set_yystacksize.
        cbn [yyss yyvs yychar yylval input yyerrstatus yystacksize].
        split; [exact Hst|]. split; [exact Hla|]. split; [exact Hin|].
        split; [exact Hes|].
        unfold YYMAXDEPTH, YYINITDEPTH in *.
        destruct (10000 <? yystacksize p * 2); lia.
  - apply Hgo; auto.
Qed.

(** ** The whole parse *)

Lemma yyloop_ends (st0 : State) (tokens : list Token) (fuel : nat) :
  forall p st,
    yyinv st0 tokens p st -> yypotential p < Z.of_nat fuel ->
    exists out, yyloop fuel p st = Some out /\ yyparse_ends st0 tokens out.
Proof.
  induction fuel as [|fuel IH]; intros p st Hinv Hpot.
  - pose proof (yypotential_nonneg p). lia.
  - cbn [yyloop]. pose proof (yysetstate_step st0 tokens p st Hinv) as Hstep.
    destruct (yysetstate p st) as [p' st'|res st'|].
    + destruct Hstep as [Hinv' Hlt]. apply IH; [exact Hinv' | lia].
    + exists (Return res st'). auto.
    + exists Fault. auto.
Qed.

Lemma yyloop_sound (st0 : State) (tokens : list Token) (fuel : nat) :
  forall p st out,
    yyinv st0 tokens p st -> yyloop fuel p st = Some out ->
    yyparse_ends st0 tokens out.
Proof.
  induction fuel as [|fuel IH]; intros p st out Hinv; [discriminate|].
  cbn [yyloop]. pose proof (yysetstate_step st0 tokens p st Hinv) as Hstep.
  destruct (yysetstate p st) as [p' st'|res st'|].
  - destruct Hstep as [Hinv' _]. now apply IH.
  - intros [= <-]. exact Hstep.
  - intros [= <-]. exact Hstep.
Qed.

Lemma yyrun_inv (st0 : State) (tokens : list Token) (k : nat) :
  forall p st p' st',
    yyinv st0 tokens p st -> yyrun k p st = Some (p', st') ->
    yyinv st0 tokens p' st'.
Proof.
  induction k as [|k IH]; intros p st p' st' Hinv.
  - intros [= <- <-]. exact Hinv.
  - cbn [yyrun]. pose proof (yysetstate_step st0 tokens p st Hinv) as Hstep.
    destruct (yysetstate p st) as [p1 st1|res st1|]; try discriminate.
    destruct Hstep as [Hinv' _]. now apply IH.
Qed.

Lemma yyparse_start_inv (tokens : list Token) (st0 : State) :
  forallb token_ok tokens = true -> yyinv st0 tokens (yyparse_start tokens) st0.
Proof.
  intros H. split.
  - unfold parser_ok, yyparse_start.
    cbn [yyss yyvs yychar yylval input yyerrstatus yystacksize].
    split; [reflexivity|]. split; [reflexivity|]. split; [exact H|].
    split; [reflexivity | reflexivity].
  - exists [], (sentence tokens). unfold yyparse_start.
    cbn [yyss yyvs yychar input hd].
    split; [exact I|]. split; [|split; [reflexivity|]].
    + left. cbn [yychar yyss hd input]. split; reflexivity.
    + cbn. apply scanned_refl.
Qed.

Lemma executed_only_div_lines (st0 : State) (ts : list Token) (st' : State) :
  executed st0 ts st' ->
  exists k, yyError st' = yyError st0 ++ div_lines k (yylineno st').
Proof.
  intros (tree & line & _ & Ht & Hex).
  destruct (proj1 (run_is_stmts tree (set_yylineno line st0)) Ht)
    as [E | (s & k & E & Hl & Hy)]; rewrite Hex in E; [discriminate|].
  injection E as <-.
  exists k. rewrite Hy, Hl. reflexivity.
Qed.

Lemma parser_ok_in_bounds (p : Parser) :
  parser_ok p ->
  let s := hd 0 (yyss p) in
  let r := at_ yydefact s in
  0 <= s < YYNSTATES /\
  0 <= r < 24 /\
  (r <> 0 -> 0 <= at_ yyr1 r - YYNTOKENS < 11) /\
  0 <= YYTRANSLATE (yychar p) < YYNTOKENS.
Proof.
  intros (Hst & _). cbn zeta.
  destruct (stack_ok_nonempty _ _ Hst) as (s & ss & Hss).
  rewrite Hss in Hst |- *. cbn [hd].
  pose proof (stack_ok_top_valid _ _ _ Hst) as Hs.
  assert (F : forallb (fun s =>
                let r := at_ yydefact s in
                (0 <=? r) && (r <? 24) &&
                ((r =? 0) || ((0 <=? at_ yyr1 r - YYNTOKENS)
                              && (at_ yyr1 r - YYNTOKENS <? 11))))
              all_states = true) by (vm_compute; reflexivity).
  rewrite forallb_forall in F. specialize (F s (In_all_states s Hs)).
  cbn zeta in F. apply andb_prop in F as [F F3]. apply andb_prop in F as [F1 F2].
  apply Z.leb_le in F1. apply Z.ltb_lt in F2.
  unfold valid_state in Hs. apply andb_prop in Hs as [Hs1 Hs2].
  apply Z.leb_le in Hs1. apply Z.ltb_lt in Hs2.
  split; [lia|]. split; [lia|]. split; [|apply YYTRANSLATE_range].
  intros Hr. apply Z.eqb_neq in Hr. rewrite Hr in F3. cbn [orb] in F3.
  apply andb_prop in F3 as [Fa Fb]. apply Z.leb_le in Fa. apply Z.ltb_lt in Fb.
  lia.
Qed.

(** * Further properties of the parser *)

(** X7. The parser never recovers from a syntax error.  No state shifts the
    [error] token, so [yyerrlab1] pops every state and aborts: [yyerrlab]
    reports [syntax error] once and [yyparse] returns 1. *)
Theorem yyerrlab_never_recovers (p : Parser) (st : State) :
  yyerrlab1 p st = Return 1 st /\
  yyerrlab p st =
    Return 1 (if yyerrstatus p =? 0 then yyerror "syntax error" st else st).
Proof. split; [apply yyerrlab1_aborts | apply yyerrlab_eq]. Qed.

(** X8. Whatever the driver reaches from its start on tokens that carry
    the values their kinds ask for: the state stack is a path of the
    automaton, each value is the member of the union its symbol's rules
    read, the parser is not recovering from an error, and the state on top,
    its default rule, that rule's left-hand side and the kind of the
    lookahead are indices inside the tables they are used for. *)
Theorem yyrun_stays_in_bounds (tokens : list Token) (st0 : State) (k : nat)
    (p : Parser) (st : State) :
  forallb token_ok tokens = true ->
  yyrun k (yyparse_start tokens) st0 = Some (p, st) ->
  parser_ok p /\
  0 <= hd 0 (yyss p) < YYNSTATES /\
  0 <= at_ yydefact (hd 0 (yyss p)) < 24 /\
  (at_ yydefact (hd 0 (yyss p)) <> 0 ->
   0 <= at_ yyr1 (at_ yydefact (hd 0 (yyss p))) - YYNTOKENS < 11) /\
  0 <= YYTRANSLATE (yychar p) < YYNTOKENS.
Proof.
  intros Htok Hrun.
  pose proof (yyrun_inv st0 tokens k _ _ _ _ (yyparse_start_inv tokens st0 Htok) Hrun)
    as [Hp _].
  split; [exact Hp|]. now apply parser_ok_in_bounds.
Qed.

Lemma yyrun_stays_in_bounds_witness :
  forallb token_ok [tok_INTEGER 1 1; tok_char ";" 1] = true /\
  yyrun 2 (yyparse_start [tok_INTEGER 1 1; tok_char ";" 1]) (initial_state 1) =
    Some (mkParser [4; 2; 0] [yy_ival 1; yy_node NULL; yy_undef] 200 YYEMPTY
                   (yy_ival 1) 0 0 [tok_char ";" 1],
          initial_state 1) /\
  parser_ok (mkParser [4; 2; 0] [yy_ival 1; yy_node NULL; yy_undef] 200 YYEMPTY
                      (yy_ival 1) 0 0 [tok_char ";" 1]) /\
  0 <= 4 < YYNSTATES /\
  0 <= at_ yydefact 4 < 24 /\
  (at_ yydefact 4 <> 0 -> 0 <= at_ yyr1 (at_ yydefact 4) - YYNTOKENS < 11) /\
  0 <= YYTRANSLATE YYEMPTY < YYNTOKENS.
Proof.
  split; [reflexivity|]. split; [reflexivity|].
  exact (yyrun_stays_in_bounds [tok_INTEGER 1 1; tok_char ";" 1] (initial_state 1) 2
           (mkParser [4; 2; 0] [yy_ival 1; yy_node NULL; yy_undef] 200 YYEMPTY
                     (yy_ival 1) 0 0 [tok_char ";" 1]) (initial_state 1)
           eq_refl eq_refl).
Defined.

(** X9. [yyparse] does not loop: within [16 * n + 32] passes through
    [yysetstate] for [n] tokens it has returned, or the statements it ran
    have met the quotient of [INT_MIN] by -1, which C does not define.
    It returns in one of these ways.  With 0: the tokens up to the end of
    the input are a [stmts] of the grammar, and the state is what
    [execute_list] made of the tree the actions built for it.  With 1:
    nothing was executed, and [syntax error] was reported or the scanner
    returned [YYerror]; or the tree of some tokens the input begins with
    was executed first, since [program: stmts] is reduced by default, and
    then the same.  With 2, after [memory exhausted], before anything was
    executed.  No action reads a member of [YYSTYPE] that was not written,
    and no statement reaches a null left side or a store outside [sym]. *)
Theorem yyparse_returns (tokens : list Token) (st0 : State) (fuel : nat) :
  forallb token_ok tokens = true ->
  (16 * length tokens + 32 <= fuel)%nat ->
  (exists yyresult st',
      yyparse fuel tokens st0 = Some (Return yyresult st') /\
      yyparse_ends st0 tokens (Return yyresult st')) \/
  (yyparse fuel tokens st0 = Some Fault /\ stopped st0 tokens).
Proof.
  intros Htok Hfuel.
  destruct (yyloop_ends st0 tokens fuel (yyparse_start tokens) st0)
    as (out & Hrun & Hends); [now apply yyparse_start_inv | |].
  { unfold yypotential, yyparse_start. cbn [input yychar yyss hd length].
    change (lookahead_weight YYEMPTY) with 1. change (at_ yyrank 0) with 11.
    lia. }
  destruct out as [p st|yyresult st'|]; [contradiction | left; eauto | right; auto].
Qed.

Lemma yyparse_returns_witness :
  (forallb token_ok [tok_INTEGER 1 1; tok_char ";" 1] = true /\
   (16 * length [tok_INTEGER 1 1; tok_char ";" 1] + 32 <= 64)%nat /\
   yyparse 64 [tok_INTEGER 1 1; tok_char ";" 1] (initial_state 1) =
     Some (Return 0 (mkState (repeat 0 256) 1 ("Print: 1" ++ nl)
                             (block (new_print_node (new_int_node 1))) "")) /\
   yyparse_ends (initial_state 1) [tok_INTEGER 1 1; tok_char ";" 1]
     (Return 0 (mkState (repeat 0 256) 1 ("Print: 1" ++ nl)
                        (block (new_print_node (new_int_node 1))) ""))) /\
  (forallb token_ok (int_min_div_minus_1_tokens 1) = true /\
   (16 * length (int_min_div_minus_1_tokens 1) + 32 <= 256)%nat /\
   yyparse 256 (int_min_div_minus_1_tokens 1) (initial_state 1) = Some Fault /\
   stopped (initial_state 1) (int_min_div_minus_1_tokens 1)).
Proof.
  split.
  - split; [reflexivity|]. split; [cbn; lia|].
    assert (C : yyparse 64 [tok_INTEGER 1 1; tok_char ";" 1] (initial_state 1) =
                Some (Return 0 (mkState (repeat 0 256) 1 ("Print: 1" ++ nl)
                                  (block (new_print_node (new_int_node 1))) "")))
      by (vm_compute; reflexivity).
    split; [exact C|].
    destruct (yyparse_returns [tok_INTEGER 1 1; tok_char ";" 1] (initial_state 1) 64
                eq_refl ltac:(cbn; lia))
      as [(r & s & E & H) | [E _]]; rewrite C in E.
    + injection E as <- <-. exact H.
    + discriminate E.
  - split; [reflexivity|]. split; [cbn; lia|].
    assert (C : yyparse 256 (int_min_div_minus_1_tokens 1) (initial_state 1) =
                Some Fault) by (vm_compute; reflexivity).
    split; [exact C|].
    destruct (yyparse_returns (int_min_div_minus_1_tokens 1) (initial_state 1) 256
                eq_refl ltac:(cbn; lia))
      as [(r & s & E & _) | [_ H]].
    + rewrite C in E. discriminate E.
    + exact H.
Defined.

(** X10. What [yyparse] accepts.  If it returns 0, the tokens before the
    end of the input are derived from [stmts] by the rules, the tree run
    by [execute_list] is the one the actions build along that derivation,
    and all that was written to the diagnostics are lines for divisions by
    zero. *)
Theorem yyparse_accepts_sentences (tokens : list Token) (st0 : State)
    (fuel : nat) (st' : State) :
  forallb token_ok tokens = true ->
  yyparse fuel tokens st0 = Some (Return 0 st') ->
  (exists tree line,
      stmts_tokens tree (sentence tokens) /\
      execute_list tree (set_yylineno line st0) = Ok st') /\
  exists k, yyError st' = yyError st0 ++ div_lines k (yylineno st').
Proof.
  intros Htok Hrun.
  pose proof (yyloop_sound st0 tokens fuel _ _ _
                (yyparse_start_inv tokens st0 Htok) Hrun) as Hex.
  cbn [yyparse_ends] in Hex. split.
  - destruct Hex as (tree & line & H1 & _ & H2). eauto.
  - eapply executed_only_div_lines, Hex.
Qed.

Lemma yyparse_accepts_sentences_witness :
  forallb token_ok [tok_INTEGER 1 1; tok_char ";" 1] = true /\
  yyparse 64 [tok_INTEGER 1 1; tok_char ";" 1] (initial_state 1) =
    Some (Return 0 (mkState (repeat 0 256) 1 ("Print: 1" ++ nl)
                            (block (new_print_node (new_int_node 1))) "")) /\
  exists tree line,
    stmts_tokens tree (sentence [tok_INTEGER 1 1; tok_char ";" 1]) /\
    execute_list tree (set_yylineno line (initial_state 1)) =
      Ok (mkState (repeat 0 256) 1 ("Print: 1" ++ nl)
                  (block (new_print_node (new_int_node 1))) "").
Proof.
  split; [reflexivity|]. split; [vm_compute; reflexivity|].
  apply (yyparse_accepts_sentences [tok_INTEGER 1 1; tok_char ";" 1]
           (initial_state 1) 64); [reflexivity | vm_compute; reflexivity].
Defined.

Lemma stmts_tokens_list (tree : Node) (ts : list Token) :
  stmts_tokens tree ts ->
  exists l segs,
    tree = stmts_of l /\ Forall2 stmt_tokens l segs /\ ts = concat segs.
Proof.
  induction 1 as [|n a s b Hn IH Hs].
  - exists [], []. split; [reflexivity|]. split; [constructor | reflexivity].
  - destruct IH as (l & segs & -> & Hf & ->).
    exists (l ++ [s])%list, (segs ++ [b])%list.
    split; [now rewrite stmts_of_snoc|].
    split; [apply Forall2_app; [exact Hf | repeat constructor; exact Hs]|].
    rewrite concat_app. cbn [concat]. now rewrite app_nil_r.
Qed.

(** X11. An accepted program is run statement by statement, in the order
    of the source: the tokens before the end of the input split into
    statements of the grammar, and the final state is what [execute_stmt]
    gives when it is run on their trees one after the other. *)
Theorem yyparse_runs_statements_in_order (tokens : list Token) (st0 : State)
    (fuel : nat) (st' : State) :
  forallb token_ok tokens = true ->
  yyparse fuel tokens st0 = Some (Return 0 st') ->
  exists l segs line,
    Forall2 stmt_tokens l segs /\
    concat segs = sentence tokens /\
    fold_left (fun done stmt => and_then done (execute_stmt stmt)) l
              (Ok (set_yylineno line st0)) = Ok st'.
Proof.
  intros Htok Hrun.
  pose proof (yyloop_sound st0 tokens fuel _ _ _
                (yyparse_start_inv tokens st0 Htok) Hrun) as Hex.
  cbn [yyparse_ends] in Hex. destruct Hex as (tree & line & Hd & _ & Hex).
  destruct (stmts_tokens_list _ _ Hd) as (l & segs & -> & Hf & E).
  exists l, segs, line. split; [exact Hf|]. split; [now symmetry|].
  now rewrite <- execute_list_stmts_of.
Qed.

Lemma yyparse_runs_statements_in_order_witness :
  forallb token_ok [tok_INTEGER 1 1; tok_char ";" 1] = true /\
  yyparse 64 [tok_INTEGER 1 1; tok_char ";" 1] (initial_state 1) =
    Some (Return 0 (mkState (repeat 0 256) 1 ("Print: 1" ++ nl)
                            (block (new_print_node (new_int_node 1))) "")) /\
  exists l segs line,
    Forall2 stmt_tokens l segs /\
    concat segs = sentence [tok_INTEGER 1 1; tok_char ";" 1] /\
    fold_left (fun done stmt => and_then done (execute_stmt stmt)) l
              (Ok (set_yylineno line (initial_state 1))) =
      Ok (mkState (repeat 0 256) 1 ("Print: 1" ++ nl)
                  (block (new_print_node (new_int_node 1))) "").
Proof.
  split; [reflexivity|]. split; [vm_compute; reflexivity|].
  apply (yyparse_runs_statements_in_order [tok_INTEGER 1 1; tok_char ";" 1]
           (initial_state 1) 64); [reflexivity | vm_compute; reflexivity].
Defined.

Ltac simpl_parser :=
  unfold YYFINAL, YYEMPTY, YYEOF;
  cbn [yyss yyvs yystacksize yychar yylval yyerrstatus yynerrs input length hd
       fst snd yylex set_yychar set_stacks set_yyerrstatus yynewstate
       Z.eqb Pos.eqb].

(** X12. Statements are executed before a stray token is rejected.  When
    the statements parsed so far are a whole [stmts] at the top level
    (state 2 on state 0) and the next token is one no statement begins
    with, [program: stmts] is reduced by default: the tree is executed in
    full, at the line of that token, and once [execute_list] has returned
    [syntax error] is reported and [yyparse] returns 1.  When
    [execute_list] does not return, nothing is reported. *)
Theorem statements_run_before_a_stray_token (p : Parser) (st : State)
    (tree : Node) (v0 : YYSTYPE) (t : Token) (rest : list Token) (fuel : nat) :
  yyss p = [2; 0] -> yyvs p = [yy_node tree; v0] ->
  yychar p = YYEMPTY -> input p = t :: rest ->
  yyerrstatus p = 0 -> YYINITDEPTH <= yystacksize p ->
  0 < tok_code t -> tok_code t <> YYerror ->
  shift_state 2 (YYTRANSLATE (tok_code t)) = None ->
  (2 <= fuel)%nat ->
  yyloop fuel p st =
  Some match execute_list tree (set_yylineno (tok_line t) st) with
       | Ok st' => Return 1 (yyerror "syntax error" st')
       | Undefined _ => Fault
       end.
Proof.
  intros Hss Hvs Hc Hin Hes Hsz Hpos Herr Hshift Hfuel.
  destruct fuel as [|[|fuel]]; [lia | lia |].
  destruct p as [ss vs sz c lv es ne inp].
  cbn [yyss yyvs yychar input yyerrstatus yystacksize] in *. subst.
  unfold YYINITDEPTH in Hsz.
  (* first pass: the token is read, the program reduced and executed *)
  assert (Hnle : (tok_code t <=? 0) = false) by (apply Z.leb_gt; lia).
  assert (Hne : (tok_code t =? YYerror) = false) by (now apply Z.eqb_neq).
  assert (H1 : yysetstate (mkParser [2; 0] [yy_node tree; v0] sz YYEMPTY lv 0 ne
                                    (t :: rest)) st =
               match execute_list tree (set_yylineno (tok_line t) st) with
               | Ok st' =>
                   Continue (mkParser [1; 0] [yy_node tree; v0] sz (tok_code t)
                                      (tok_lval t) 0 ne rest) st'
               | Undefined _ => Fault
               end).
  { unfold yysetstate. simpl_parser.
    replace (sz <=? Z.of_nat 2) with false by (symmetry; apply Z.leb_gt; lia).
    unfold yybackup. simpl_parser.
    change (at_ yypact 2 =? YYPACT_NINF) with false. simpl_parser.
    rewrite Hnle, Hne.
    rewrite (yybackup_token_eq 2) by (try discriminate; reflexivity).
    simpl_parser. rewrite Hshift.
    unfold yydefault. simpl_parser. change (at_ yydefact 2) with 2.
    simpl_parser. rewrite yyreduce_eq. unfold yyaction, yyvsp.
    simpl_parser. cbn [nth get_node mbind option_bind].
    destruct (execute_list tree (set_yylineno (tok_line t) st)); reflexivity. }
  (* second pass: nothing but the end of the input is shifted in state 1 *)
  assert (H2 : forall st',
             yysetstate (mkParser [1; 0] [yy_node tree; v0] sz (tok_code t)
                                  (tok_lval t) 0 ne rest) st' =
             Return 1 (yyerror "syntax error" st')).
  { intros st'. unfold yysetstate. simpl_parser.
    replace (sz <=? Z.of_nat 2) with false by (symmetry; apply Z.leb_gt; lia).
    unfold yybackup. simpl_parser.
    change (at_ yypact 1 =? YYPACT_NINF) with false.
    replace (tok_code t =? -2) with false
      by (symmetry; apply Z.eqb_neq; lia).
    simpl_parser. rewrite Hnle, Hne.
    rewrite (yybackup_token_eq 1) by (try discriminate; reflexivity).
    simpl_parser.
    destruct (shift_state 1 (YYTRANSLATE (tok_code t))) as [s|] eqn:E.
    - exfalso.
      destruct (shift_state_edge 1 _ s eq_refl (YYTRANSLATE_range _) E) as [_ Hs].
      destruct (shift_cert 1 _ s eq_refl (YYTRANSLATE_range _) E) as (_ & H3 & _).
      rewrite (H3 eq_refl) in Hs.
      apply (YYTRANSLATE_positive _ Hpos). now rewrite <- Hs.
    - unfold yydefault. simpl_parser. change (at_ yydefact 1) with 0.
      simpl_parser. now rewrite yyerrlab_eq. }
  cbn [yyloop]. rewrite H1.
  destruct (execute_list tree (set_yylineno (tok_line t) st)) as [st'|why];
    [|reflexivity].
  rewrite H2. reflexivity.
Qed.

Lemma statements_run_before_a_stray_token_witness :
  shift_state 2 (YYTRANSLATE (tok_code (tok_char ")" 3))) = None /\
  yyloop 2 (mkParser [2; 0] [yy_node (stmts_of [print_9]); yy_undef] 200 YYEMPTY
                     yy_undef 0 0 [tok_char ")" 3]) (initial_state 1) =
    Some (Return 1 (mkState (repeat 0 256) 3 ("Print: 9" ++ nl)
                            (block print_9) (error_line "syntax error" 3))) /\
  yyloop 2 (mkParser [2; 0]
                     [yy_node (stmts_of [new_print_node int_min_div_minus_1]);
                      yy_undef] 200 YYEMPTY
                     yy_undef 0 0 [tok_char ")" 3]) (initial_state 1) =
    Some Fault.
Proof.
  split; [reflexivity|]. split.
  - exact (statements_run_before_a_stray_token
             (mkParser [2; 0] [yy_node (stmts_of [print_9]); yy_undef] 200 YYEMPTY
                       yy_undef 0 0 [tok_char ")" 3])
             (initial_state 1) (stmts_of [print_9]) yy_undef (tok_char ")" 3) [] 2
             eq_refl eq_refl eq_refl eq_refl eq_refl
             ltac:(discriminate) eq_refl ltac:(discriminate) eq_refl (le_n 2)).
  - exact (statements_run_before_a_stray_token
             (mkParser [2; 0]
                       [yy_node (stmts_of [new_print_node int_min_div_minus_1]);
                        yy_undef] 200 YYEMPTY
                       yy_undef 0 0 [tok_char ")" 3])
             (initial_state 1) (stmts_of [new_print_node int_min_div_minus_1])
             yy_undef (tok_char ")" 3) [] 2
             eq_refl eq_refl eq_refl eq_refl eq_refl
             ltac:(discriminate) eq_refl ltac:(discriminate) eq_refl (le_n 2)).
Defined.

Lemma yyloop_more (fuel fuel' : nat) :
  forall p st out,
    yyloop fuel p st = Some out -> (fuel <= fuel')%nat ->
    yyloop fuel' p st = Some out.
Proof.
  revert fuel'. induction fuel as [|fuel IH]; intros fuel' p st out; [discriminate|].
  destruct fuel' as [|fuel']; [lia|]. cbn [yyloop].
  destruct (yysetstate p st) as [p1 st1|res st1|]; auto.
  intros H Hle. apply (IH fuel'); [exact H | lia].
Qed.

Lemma yyloop_after_yyrun (k n : nat) :
  forall p st p' st',
    yyrun k p st = Some (p', st') ->
    yyloop (k + n) p st = yyloop n p' st'.
Proof.
  induction k as [|k IH]; intros p st p' st'.
  - intros [= <- <-]. reflexivity.
  - cbn [yyrun Nat.add yyloop].
    destruct (yysetstate p st) as [p1 st1|res st1|]; try discriminate.
    apply IH.
Qed.

(** At the end of the input, with a whole [stmts] parsed at the top level:
    the tree is executed, the end shifted, and the parse accepted. *)
Lemma accept_at_end (p : Parser) (st : State) (tree : Node) (v0 : YYSTYPE)
    (fuel : nat) (r : Run) :
  yyss p = [2; 0] -> yyvs p = [yy_node tree; v0] ->
  yychar p = YYEMPTY -> input p = [] ->
  yyerrstatus p = 0 -> YYINITDEPTH <= yystacksize p ->
  execute_list tree st = r ->
  (3 <= fuel)%nat ->
  yyloop fuel p st =
  Some match r with Ok st' => Return 0 st' | Undefined _ => Fault end.
Proof.
  intros Hss Hvs Hc Hin Hes Hsz Hex Hfuel.
  destruct fuel as [|[|[|fuel]]]; try lia.
  destruct p as [ss vs sz c lv es ne inp].
  cbn [yyss yyvs yychar input yyerrstatus yystacksize] in *.
  subst ss vs c inp es.
  unfold YYINITDEPTH in Hsz.
  assert (H1 : yysetstate (mkParser [2; 0] [yy_node tree; v0] sz YYEMPTY lv 0 ne [])
                          st =
               match r with
               | Ok st' =>
                   Continue (mkParser [1; 0] [yy_node tree; v0] sz 0 lv 0 ne []) st'
               | Undefined _ => Fault
               end).
  { unfold yysetstate. simpl_parser.
    replace (sz <=? Z.of_nat 2) with false by (symmetry; apply Z.leb_gt; lia).
    unfold yybackup. simpl_parser.
    change (at_ yypact 2 =? YYPACT_NINF) with false. simpl_parser.
    cbn [Z.leb Z.compare].
    rewrite (yybackup_token_eq 2) by (try discriminate; reflexivity).
    simpl_parser. change (shift_state 2 YYSYMBOL_YYEOF) with (@None Z).
    unfold yydefault. simpl_parser. change (at_ yydefact 2) with 2.
    simpl_parser. rewrite yyreduce_eq. unfold yyaction, yyvsp.
    simpl_parser. cbn [nth get_node mbind option_bind]. rewrite Hex.
    destruct r; reflexivity. }
  assert (H2 : forall st',
             yysetstate (mkParser [1; 0] [yy_node tree; v0] sz 0 lv 0 ne []) st' =
             Continue (mkParser [3; 1; 0] [lv; yy_node tree; v0] sz YYEMPTY lv 0
                                ne []) st').
  { intros st'. unfold yysetstate. simpl_parser.
    replace (sz <=? Z.of_nat 2) with false by (symmetry; apply Z.leb_gt; lia).
    unfold yybackup. simpl_parser.
    change (at_ yypact 1 =? YYPACT_NINF) with false. simpl_parser.
    cbn [Z.leb Z.compare].
    rewrite (yybackup_token_eq 1) by (try discriminate; reflexivity).
    simpl_parser. reflexivity. }
  assert (H3 : forall st',
             yysetstate (mkParser [3; 1; 0] [lv; yy_node tree; v0] sz YYEMPTY lv 0
                                  ne []) st' = Return 0 st').
  { intros st'. unfold yysetstate. simpl_parser.
    replace (sz <=? Z.of_nat 3) with false by (symmetry; apply Z.leb_gt; lia).
    reflexivity. }
  cbn [yyloop]. rewrite H1. destruct r as [st'|why]; [|reflexivity].
  rewrite H2, H3. reflexivity.
Qed.

(** X13. Precedence and associativity, as the tables have them.  The
    statement [a op1 b op2 c ;] over the four arithmetic operators is
    accepted and run as the print of one tree: [op2] is applied to [b] and
    [c] first when it is ['*'] or ['/'] and [op1] is ['+'] or ['-'];
    in every other case [op1] is applied to [a] and [b] first.  The parse
    returns 0 with the record of the value of that tree, unless its
    evaluation meets the quotient of [INT_MIN] by -1. *)
Theorem precedence_and_associativity
    (x1 x2 x3 : bool) (v1 v2 v3 l1 l2 l3 l4 l5 l6 : Z) (op1 op2 : string)
    (st0 : State) (fuel : nat) :
  In op1 arith_ops -> In op2 arith_ops -> (32 <= fuel)%nat ->
  let e := two_operators op1 op2 (atom_node x1 v1) (atom_node x2 v2)
                         (atom_node x3 v3) in
  let st1 := print_tree_header (new_print_node e) (set_yylineno l6 st0) in
  yyparse fuel
    [atom x1 v1 l1; tok_char op1 l2; atom x2 v2 l3; tok_char op2 l4;
     atom x3 v3 l5; tok_char ";" l6] st0 =
  Some match eval_expr e st1 with
       | Value v st2 => Return 0 (fprintf_yyout ("Print: " ++ fmt_d v ++ nl) st2)
       | Trap _ => Fault
       end.
Proof.
  intros H1 H2 Hfuel e st1. unfold yyparse.
  apply (yyloop_more 32); [|exact Hfuel].
  assert (E : execute_list (stmts_of [new_print_node e]) (set_yylineno l6 st0) =
              match eval_expr e st1 with
              | Value v st2 => Ok (fprintf_yyout ("Print: " ++ fmt_d v ++ nl) st2)
              | Trap why => Undefined why
              end).
  { rewrite execute_list_stmts_of. cbn [fold_left and_then].
    unfold new_print_node at 1, new_node_kind at 1.
    now rewrite (execute_stmt_unfold (mkNode _ _ _ N_PRINT _ _)). }
  transitivity
    (Some match (match eval_expr e st1 with
                 | Value v st2 => Ok (fprintf_yyout ("Print: " ++ fmt_d v ++ nl) st2)
                 | Trap why => Undefined why
                 end) with
          | Ok st' => Return 0 st'
          | Undefined _ => Fault
          end);
    [|now destruct (eval_expr e st1)].
  revert E.
  generalize (match eval_expr e st1 with
              | Value v st2 => Ok (fprintf_yyout ("Print: " ++ fmt_d v ++ nl) st2)
              | Trap why => Undefined why
              end).
  subst e st1. intros R E.
  change 32%nat with (14 + 18)%nat.
  cbn [In arith_ops] in H1, H2.
  destruct H1 as [<-|[<-|[<-|[<-|[]]]]], H2 as [<-|[<-|[<-|[<-|[]]]]];
    destruct x1, x2, x3;
    (erewrite (yyloop_after_yyrun 14 18) by (vm_compute; reflexivity));
    (eapply accept_at_end;
     [reflexivity | reflexivity | reflexivity | reflexivity | reflexivity
     | discriminate | exact E | lia]).
Qed.

Lemma precedence_and_associativity_witness :
  In "-" arith_ops /\ In "*" arith_ops /\ (32 <= 32)%nat /\
  yyparse 32
    [tok_INTEGER 7 1; tok_char "-" 1; tok_INTEGER 2 1; tok_char "*" 1;
     tok_INTEGER 3 1; tok_char ";" 1] (initial_state 1) =
  Some (Return 0
          (mkState (repeat 0 256) 1 ("Print: 1" ++ nl)
             (block (new_print_node
                       (new_op_node "-" (new_int_node 7)
                          (new_op_node "*" (new_int_node 2) (new_int_node 3)))))
             "")).
Proof.
  assert (H1 : In "-" arith_ops) by (right; left; reflexivity).
  assert (H2 : In "*" arith_ops) by (right; right; left; reflexivity).
  split; [exact H1|]. split; [exact H2|]. split; [lia|].
  exact (precedence_and_associativity false false false 7 2 3 1 1 1 1 1 1
           "-" "*" (initial_state 1) 32 H1 H2 (le_n 32)).
Defined.

Lemma executed_writes (st0 : State) (ts : list Token) (st' : State) :
  executed st0 ts st' ->
  exists records, Forall out_record records /\
                  yyout st' = yyout st0 ++ lines_text records.
Proof.
  intros (tree & line & _ & _ & Hex).
  destruct (run_writes tree as_list _ _ Hex) as (records & msgs & Hr & _ & Ho & _).
  exists records. split; [exact Hr | exact Ho].
Qed.

(** X14. Whatever the tokens, and however the parse ends, out.txt holds
    only records: what [yyparse] has added to it when it returns is a
    sequence of lines of the forms [Declared var[i] = v],
    [Assigned var[i] = v] and [Print: v].  Neither the parser's own
    messages nor the renderer's drawing go there. *)
Theorem yyparse_writes_only_records (tokens : list Token) (st0 : State)
    (fuel : nat) (yyresult : Z) (st' : State) :
  forallb token_ok tokens = true ->
  yyparse fuel tokens st0 = Some (Return yyresult st') ->
  exists records,
    Forall out_record records /\
    yyout st' = yyout st0 ++ lines_text records.
Proof.
  intros Htok Hrun.
  pose proof (yyloop_sound st0 tokens fuel _ _ _
                (yyparse_start_inv tokens st0 Htok) Hrun) as Hends.
  assert (Hsc : forall s, scanned st0 s ->
            exists records, Forall out_record records /\
                            yyout s = yyout st0 ++ lines_text records).
  { intros s [line ->]. exists []. split; [constructor|].
    cbn [set_yylineno yyout lines_text fold_right]. now rewrite append_nil_r. }
  assert (Hpre : forall s, executed_prefix st0 tokens s ->
            exists records, Forall out_record records /\
                            yyout s = yyout st0 ++ lines_text records).
  { intros s (ts & rest & _ & Hex). eapply executed_writes, Hex. }
  destruct yyresult as [|[q|[q|q|]|]|q]; cbn [yyparse_ends] in Hends;
    try contradiction.
  - eapply executed_writes, Hends.
  - destruct Hends as (s & H & ->). cbn [yyerror yyout]. auto.
  - destruct Hends as [H|[(s & H & ->)|[H|(s & H & ->)]]];
      cbn [yyerror yyout]; auto.
Qed.

Lemma yyparse_writes_only_records_witness :
  forallb token_ok [tok_INTEGER 1 1; tok_char ";" 1; tok_char ")" 2] = true /\
  yyparse 64 [tok_INTEGER 1 1; tok_char ";" 1; tok_char ")" 2] (initial_state 1) =
    Some (Return 1 (mkState (repeat 0 256) 2 ("Print: 1" ++ nl)
                            (block (new_print_node (new_int_node 1)))
                            (error_line "syntax error" 2))) /\
  exists records,
    Forall out_record records /\
    "Print: 1" ++ nl = "" ++ lines_text records.
Proof.
  split; [reflexivity|]. split; [vm_compute; reflexivity|].
  exact (yyparse_writes_only_records
           [tok_INTEGER 1 1; tok_char ";" 1; tok_char ")" 2] (initial_state 1) 64 1
           (mkState (repeat 0 256) 2 ("Print: 1" ++ nl)
                    (block (new_print_node (new_int_node 1)))
                    (error_line "syntax error" 2))
           eq_refl eq_refl).
Defined.
